(** * video-morse-decode: a shallow embedding of the decoding pipeline

    The development follows [video-morse-decode.cpp]: the helpers of
    [namespace Util] ([replace], [replace_all], [sign], [gaussian],
    [get_local_maximums], [decodeMorse]) and the methods of
    [class VideoMorseDecode] that run after the frames have been sampled
    ([calculateHistogram], [processStateChanges], [processSignals]).

    Conventions.
    - [int] and [unsigned] are 32 bits wide.  Values are kept in [Z]; the
      conversions [to_unsigned] and [to_int] are written where C++ applies
      them (usual arithmetic conversions, assignment to a variable of the
      other signedness).  [unsigned] arithmetic wraps modulo 2^32; [int]
      arithmetic is given the two's complement result.
    - Reading a vector outside its bounds, [rbegin] of an empty map and a
      division by zero have no defined result in C++: the embedding
      returns [Undefined] with the kind of the offending operation.
    - [double] arithmetic and [std::sort] on pairs (which is not stable)
      are interfaces ([Double], [StdSort]); the generic theorems hold for
      every implementation, the concrete evaluations use IEEE binary64
      through the kernel's primitive floats. *)

From Stdlib Require Import ZArith List Ascii String Lia.
From Stdlib Require Import PrimFloat FloatOps Uint63 SpecFloat.
From stdpp Require Import base option list gmap sorting.

Open Scope Z_scope.

(* ===================================================================== *)
(** ** Machine integers *)

Definition to_unsigned (z : Z) : Z := z mod 2 ^ 32.

Definition to_int (z : Z) : Z := (z + 2 ^ 31) mod 2 ^ 32 - 2 ^ 31.

Definition INT_MAX : Z := 2 ^ 31 - 1.

(* ===================================================================== *)
(** ** Results of running a piece of the program *)

Inductive undefined_behaviour : Set :=
| DivisionByZero      (* x / 0 *)
| IndexOutOfRange     (* v[i] with i outside 0 .. v.size()-1 *)
| EmptyContainer      (* vf.rbegin()->first on an empty map *)
| ConversionOutOfRange. (* int n = t for a double t whose integral part
                           is not a value of int *)

Inductive outcome (A : Type) : Type :=
| Done (a : A)
| Undefined (u : undefined_behaviour)
| OutOfFuel.

Arguments Done {A} a.
Arguments Undefined {A} u.
Arguments OutOfFuel {A}.

#[global] Instance outcome_ret : MRet outcome := @Done.

#[global] Instance outcome_bind : MBind outcome := fun A B f m =>
  match m with
  | Done a => f a
  | Undefined u => Undefined u
  | OutOfFuel => OutOfFuel
  end.

(** [v[i]] on a [std::vector]. *)
Definition vec_get {A} (v : list A) (i : Z) : outcome A :=
  if i <? 0 then Undefined IndexOutOfRange
  else match v !! Z.to_nat i with
       | Some x => Done x
       | None => Undefined IndexOutOfRange
       end.

(** [std::string] as the list of its characters. *)
Abbreviation std_string := (list ascii).

Definition str (s : string) : std_string := list_ascii_of_string s.

(* ===================================================================== *)
(** ** namespace Util *)

Module Util.

(** [input.find(from)]: the position of the first occurrence. *)
Fixpoint find (input from : std_string) : option nat :=
  if bool_decide (from `prefix_of` input) then Some 0%nat
  else match input with
       | [] => None
       | _ :: rest => S <$> find rest from
       end.

(** [input.replace(pos, len, to)]. *)
Definition string_replace (input : std_string) (pos len : nat)
    (to : std_string) : std_string :=
  take pos input ++ to ++ drop (pos + len) input.

(** [bool replace(std::string& input, from, to)]: the returned flag and
    the contents of [input] afterwards. *)
Definition replace (input from to : std_string) : bool * std_string :=
  match find input from with
  | None => (false, input)
  | Some start_pos => (true, string_replace input start_pos (length from) to)
  end.

(** [replace_all]: [while (replace(out, from, to));] with the number of
    loop tests bounded by [fuel]. *)
Fixpoint replace_all (fuel : nat) (input from to : std_string)
    : outcome std_string :=
  match fuel with
  | O => OutOfFuel
  | S fuel' =>
      match replace input from to with
      | (true, out) => replace_all fuel' out from to
      | (false, out) => Done out
      end
  end.

Definition sign (x : Z) : Z :=
  if 0 <? x then 1 else if x <? 0 then -1 else 0.

Record MorseSymbol : Set := { pattern : std_string; string_ : std_string }.

Definition sym (p c : string) : MorseSymbol :=
  {| pattern := str p; string_ := str c |}.

Definition morse_symbols : list MorseSymbol :=
  [ sym ".-" "A"; sym "-..." "B"; sym "-.-." "C"; sym "-.." "D";
    sym "." "E"; sym "..-." "F"; sym "--." "G"; sym "...." "H";
    sym ".." "I"; sym ".---" "J"; sym "-.-" "K"; sym ".-.." "L";
    sym "--" "M"; sym "-." "N"; sym "---" "O"; sym ".--." "P";
    sym "--.-" "Q"; sym ".-." "R"; sym "..." "S"; sym "-" "T";
    sym "..-" "U"; sym "...-" "V"; sym ".--" "W"; sym "-..-" "X";
    sym "-.--" "Y"; sym "--.." "Z";
    sym "-----" "0"; sym ".----" "1"; sym "..---" "2"; sym "...--" "3";
    sym "....-" "4"; sym "....." "5"; sym "-...." "6"; sym "--..." "7";
    sym "---.." "8"; sym "----." "9";
    sym "---..." ":"; sym "-....-" "-"; sym ".-.-.-" "." ].

(** The search string and its replacement for one table entry. *)
Definition symbol_from (m : MorseSymbol) : std_string :=
  str " " ++ pattern m ++ str " ".

Definition symbol_to (m : MorseSymbol) : std_string :=
  str " " ++ string_ m ++ str " ".

(** The [for (const auto & m : morse_symbols)] loop of [decodeMorse]. *)
Fixpoint decode_symbols (fuel : nat) (table : list MorseSymbol)
    (out : std_string) : outcome std_string :=
  match table with
  | [] => Done out
  | m :: table' =>
      out' ← replace_all fuel out (symbol_from m) (symbol_to m);
      decode_symbols fuel table' out'
  end.

Definition decodeMorse (fuel : nat) (input : std_string)
    : outcome std_string :=
  out ← decode_symbols fuel morse_symbols input;
  out ← replace_all fuel out (str " ") [];
  replace_all fuel out (str "|") (str " ").



(** *** The arithmetic on [double] that the gaussian filter uses *)

Class Double : Type := {
  double : Type;
  d_of_int : Z -> double;                   (* (double)n *)
  d_to_int : double -> option Z;            (* the integral part of a
                                               finite t; none for an
                                               infinity or a NaN *)
  d_add : double -> double -> double;
  d_mul : double -> double -> double;
  d_div : double -> double -> double;
  d_opp : double -> double;
  d_sqrt : double -> double;                (* sqrt, <cmath> *)
  d_pow : double -> double -> double;       (* pow, <cmath> *)
  M_PI : double;
  M_E : double
}.

(** *** [std::sort] on the turning points, ordered by [a.second > b.second]

    [std::sort] is not stable: among entries of equal frequency the order
    is the implementation's choice.  The interface fixes what the C++
    standard does: the result is a rearrangement of the input in which no
    entry is followed by one the comparison puts first. *)

Class StdSort : Type := {
  std_sort : list (Z * Z) -> list (Z * Z);
  std_sort_perm : forall l, std_sort l ≡ₚ l;
  std_sort_sorted :
    forall l, StronglySorted (fun a b => b.2 <= a.2) (std_sort l)
}.

Section PeakDetector.

Context {D : Double} {Srt : StdSort}.

Definition gaussian (x a : double) : double :=
  d_mul (d_sqrt (d_div a M_PI)) (d_pow M_E (d_mul (d_mul (d_opp a) x) x)).

(** [vf.rbegin()->first]: the largest key of the map. *)
Definition rbegin_first (vf : gmap Z Z) : outcome Z :=
  match map_to_list vf with
  | [] => Undefined EmptyContainer
  | kv :: rest => Done (foldr (fun e acc => Z.max e.1 acc) kv.1 rest)
  end.

(** The vector [s]: [size] zeros, then [s[e.first] = e.second] for every
    entry of the map. *)
Definition to_vector (vf : gmap Z Z) (size : Z) : list Z :=
  (fun k => default 0 (vf !! k)) <$> seqZ 0 size.

(** The inner loop of the filter: the sum [t] for position [i]. *)
Definition filter_sum (s : list Z) (window_size i : Z) : double :=
  foldl (fun t j =>
           let k := i + j in
           if bool_decide (0 <= k) && bool_decide (k < Z.of_nat (length s))
           then d_add t (d_mul (d_of_int (s !!! Z.to_nat k))
                               (gaussian (d_of_int j) (d_of_int 1)))
           else t)
        (d_of_int 0)
        (seqZ (- window_size) (2 * window_size + 1)).

(** [o[i] = t]: the conversion of the double [t] to [int] discards the
    fractional part, and is undefined when what is left is not a value of
    [int]. *)
Definition double_to_int (t : double) : outcome Z :=
  match d_to_int t with
  | Some n =>
      if bool_decide (- 2 ^ 31 <= n <= INT_MAX) then Done n
      else Undefined ConversionOutOfRange
  | None => Undefined ConversionOutOfRange
  end.

(** The outer loop of the filter, over the positions [idx]. *)
Fixpoint filter_loop (s : list Z) (window_size : Z) (idx : list Z)
    : outcome (list Z) :=
  match idx with
  | [] => Done []
  | i :: rest =>
      n ← double_to_int (filter_sum s window_size i);
      o ← filter_loop s window_size rest;
      Done (n :: o)
  end.

Definition gaussian_filter (s : list Z) (window_size : Z)
    : outcome (list Z) :=
  filter_loop s window_size (seqZ 0 (Z.of_nat (length s))).

(** The state of the scan for local maximums: the locals [ld], [d] and
    the vector [tp]. *)
Record scan_state : Type := { ld : Z; d : Z; tp : list (Z * Z) }.

(** One iteration of [for (i = 1; i < o.size(); i++)]. *)
Definition scan_step (o : list Z) (st : scan_state) (i : Z) : scan_state :=
  let d' := sign (to_int (o !!! Z.to_nat i - o !!! Z.to_nat (i - 1))) in
  let tp' :=
    if bool_decide (0 < i)
       && (bool_decide (ld st = 1) || bool_decide (ld st = 0))
       && bool_decide (d' = -1)
    then tp st ++ [(i - 1, o !!! Z.to_nat (i - 1))]
    else tp st in
  {| ld := d'; d := d'; tp := tp' |}.

Definition scan (o : list Z) : scan_state :=
  foldl (scan_step o) {| ld := 0; d := 0; tp := [] |}
        (seqZ 1 (Z.of_nat (length o) - 1)).

(** The turning points after the scan and the test [if (d > 0)]; there
    [i] is [o.size()], the value the loop left it with. *)
Definition turning_points (o : list Z) : list (Z * Z) :=
  let st := scan o in
  if bool_decide (0 < d st)
  then tp st ++ [(Z.of_nat (length o) - 1, o !!! (length o - 1)%nat)]
  else tp st.

(** [while (count && tpi != tp.end()) { r.push_back(tpi->first); ... }] *)
Fixpoint first_points (count : Z) (tp : list (Z * Z)) : list Z :=
  match tp with
  | [] => []
  | p :: rest =>
      if bool_decide (count = 0) then []
      else p.1 :: first_points (to_int (count - 1)) rest
  end.

Definition get_local_maximums (vf : gmap Z Z) (count window_size : Z)
    : outcome (list Z) :=
  last ← rbegin_first vf;
  if bool_decide (map_Forall (fun k _ => 0 <= k) vf) then
    let s := to_vector vf (last + 1) in
    o ← gaussian_filter s window_size;
    Done (first_points count (std_sort (turning_points o)))
  else Undefined IndexOutOfRange.

End PeakDetector.

End Util.

(* ===================================================================== *)
(** ** class VideoMorseDecode *)

(** Summary of each frame. *)
Record Frame : Set := {
  time : Z;        (* unsigned: frame index *)
  luminance : Z    (* unsigned: average luminance from selected area *)
}.

(** Pulse or break signal duration. *)
Record Signal : Set := {
  state : Z;       (* unsigned: 0 = break, 1 = pulse *)
  duration : Z     (* unsigned: in frames *)
}.

(** The data members the decoding stages read and write. *)
Record VideoMorseDecode : Set := {
  m_frame_luminance_histogram : list Z;    (* std::vector<unsigned> *)
  m_frames : list Frame;
  m_signals : list Signal;
  m_mean_luminance : Z                     (* int *)
}.

(** The constructor: [m_frame_luminance_histogram.resize(256)]. *)
Definition VideoMorseDecode_new : VideoMorseDecode :=
  {| m_frame_luminance_histogram := replicate 256 0;
     m_frames := [];
     m_signals := [];
     m_mean_luminance := 0 |}.

(** [processFrame] from the point where the average [t] of the selected
    area has been computed: [m_frame_luminance_histogram[t]++] and the
    [push_back] of the frame summary. *)
Definition processFrame (t frame_index : Z) (self : VideoMorseDecode)
    : outcome VideoMorseDecode :=
  n ← vec_get (m_frame_luminance_histogram self) t;
  Done {| m_frame_luminance_histogram :=
            <[Z.to_nat t := to_unsigned (n + 1)]>
              (m_frame_luminance_histogram self);
          m_frames := m_frames self
                      ++ [{| time := to_unsigned frame_index;
                             luminance := to_unsigned t |}];
          m_signals := m_signals self;
          m_mean_luminance := m_mean_luminance self |}.

(** The values [n = i * 16 + j] in the order the two loops of
    [calculateHistogram] visit them. *)
Definition histogram_indices : list Z :=
  i ← seqZ 0 16; (fun j => to_unsigned (i * 16 + j)) <$> seqZ 0 16.

(** The body of the inner loop, on the pair
    ([m_mean_luminance], [sum]). *)
Definition histogram_step (hist : list Z) (acc : Z * Z) (n : Z)
    : outcome (Z * Z) :=
  h ← vec_get hist n;
  Done (to_int (to_unsigned (to_unsigned acc.1 + to_unsigned (n * h))),
        to_unsigned (acc.2 + h)).

Fixpoint histogram_loop (hist : list Z) (acc : Z * Z) (ns : list Z)
    : outcome (Z * Z) :=
  match ns with
  | [] => Done acc
  | n :: ns' => acc' ← histogram_step hist acc n; histogram_loop hist acc' ns'
  end.

Definition calculateHistogram (self : VideoMorseDecode)
    : outcome VideoMorseDecode :=
  acc ← histogram_loop (m_frame_luminance_histogram self) (0, 0)
        histogram_indices;
  if bool_decide (acc.2 = 0) then Undefined DivisionByZero
  else Done {| m_frame_luminance_histogram := m_frame_luminance_histogram self;
               m_frames := m_frames self;
               m_signals := m_signals self;
               m_mean_luminance := to_int (to_unsigned acc.1 / acc.2) |}.

(** The locals of [processStateChanges] together with [m_signals]. *)
Record segmenter : Set := {
  cur_state : Z;        (* int state *)
  last_state : Z;       (* int last_state *)
  last_time : Z;        (* int last_time *)
  signals : list Signal
}.

(** The body of [for (const auto & frame : m_frames)]. *)
Definition segment_step (mean : Z) (sg : segmenter) (frame : Frame)
    : segmenter :=
  let st :=
    if bool_decide (luminance frame < to_unsigned mean) then 0
    else if bool_decide (to_unsigned mean <= luminance frame) then 1
    else cur_state sg in
  if bool_decide (st <> last_state sg) then
    {| cur_state := st;
       last_state := st;
       last_time := to_int (time frame);
       signals := signals sg
                  ++ [{| state := to_unsigned (last_state sg);
                         duration :=
                           to_unsigned (time frame
                                        - to_unsigned (last_time sg)) |}] |}
  else
    {| cur_state := st;
       last_state := st;
       last_time := last_time sg;
       signals := signals sg |}.

(** [int state = 0, last_state = 0, last_time = 0;] *)
Definition segmenter_init (sigs : list Signal) : segmenter :=
  {| cur_state := 0; last_state := 0; last_time := 0; signals := sigs |}.

Definition processStateChanges (self : VideoMorseDecode) : VideoMorseDecode :=
  let sg := foldl (segment_step (m_mean_luminance self))
                  (segmenter_init (m_signals self))
                  (m_frames self) in
  {| m_frame_luminance_histogram := m_frame_luminance_histogram self;
     m_frames := m_frames self;
     m_signals := signals sg;
     m_mean_luminance := m_mean_luminance self |}.

(** What [processSignals] computes: the two duration histograms, the
    peaks and thresholds written to the report, and the returned string. *)
Record signal_report : Type := {
  hist_off : gmap Z Z;
  hist_on : gmap Z Z;
  off_time_peaks : list Z;
  off_thresholds : list Z;
  on_time_peaks : list Z;
  on_thresholds : list Z;
  morse : std_string
}.

(** [hist[key]++] on a [std::map<int, int>]: a missing key is created
    with the value 0 first. *)
Definition map_increment (key : Z) (hist : gmap Z Z) : gmap Z Z :=
  <[key := to_int (default 0 (hist !! key) + 1)]> hist.

(** The first loop of [processSignals], on the pair
    ([off_hist], [on_hist]). *)
Definition count_signal (hists : gmap Z Z * gmap Z Z) (signal : Signal)
    : gmap Z Z * gmap Z Z :=
  if bool_decide (state signal = 0)
  then (map_increment (to_int (duration signal)) hists.1, hists.2)
  else (hists.1, map_increment (to_int (duration signal)) hists.2).

Definition duration_histograms (sigs : list Signal) : gmap Z Z * gmap Z Z :=
  foldl count_signal (∅, ∅) sigs.

(** [(a + b) / 2] on [int]. *)
Definition midpoint (a b : Z) : Z := Z.quot (to_int (a + b)) 2.

(** The two entries of [off_thresholds], from the sorted peaks. *)
Definition off_threshold_values (off_peaks : list Z) : outcome (list Z) :=
  p0 ← vec_get off_peaks 0;
  p1 ← vec_get off_peaks 1;
  p2 ← vec_get off_peaks 2;
  Done [midpoint p0 p1; midpoint p1 p2].

(** The entry of [on_thresholds], from the sorted peaks. *)
Definition on_threshold_values (on_peaks : list Z) : outcome (list Z) :=
  p0 ← vec_get on_peaks 0;
  p1 ← vec_get on_peaks 1;
  Done [midpoint p0 p1].

(** What one iteration of the second loop appends to [morse]. *)
Definition morse_token (off0 off1 on0 : Z) (signal : Signal) : std_string :=
  if bool_decide (state signal = 0) then
    if bool_decide (duration signal < to_unsigned off0) then []
    else if bool_decide (to_unsigned off0 <= duration signal)
            && bool_decide (duration signal < to_unsigned off1)
    then str " "
    else if bool_decide (to_unsigned off1 <= duration signal)
    then str " | "
    else []
  else
    if bool_decide (duration signal < to_unsigned on0) then str "."
    else if bool_decide (to_unsigned on0 <= duration signal) then str "-"
    else [].

Definition assemble (off0 off1 on0 : Z) (sigs : list Signal) : std_string :=
  foldl (fun morse signal => morse ++ morse_token off0 off1 on0 signal)
        [] sigs.

(** The sampled frames [(frame_index, t)] fed to [processFrame] in order,
    as the frame loop of [run] does. *)
Fixpoint process_frames (samples : list (Z * Z)) (self : VideoMorseDecode)
    : outcome VideoMorseDecode :=
  match samples with
  | [] => Done self
  | (frame_index, t) :: rest =>
      self' ← processFrame t frame_index self; process_frames rest self'
  end.

(** The decoder after the frame loop, [calculateHistogram] and
    [processStateChanges]: the stages before any peak is looked for. *)
Definition segmented (samples : list (Z * Z)) : outcome VideoMorseDecode :=
  self ← process_frames samples VideoMorseDecode_new;
  self ← calculateHistogram self;
  Done (processStateChanges self).

Section Pipeline.

Context {D : Util.Double} {Srt : Util.StdSort}.

Definition gaussian_window_size : Z := 3.

Definition processSignals (self : VideoMorseDecode) : outcome signal_report :=
  let hists := duration_histograms (m_signals self) in
  off_peaks ← Util.get_local_maximums hists.1 3 gaussian_window_size;
  let off_peaks := merge_sort Z.le off_peaks in
  off_thr ← off_threshold_values off_peaks;
  on_peaks ← Util.get_local_maximums hists.2 2 gaussian_window_size;
  let on_peaks := merge_sort Z.le on_peaks in
  on_thr ← on_threshold_values on_peaks;
  Done {| hist_off := hists.1;
          hist_on := hists.2;
          off_time_peaks := off_peaks;
          off_thresholds := off_thr;
          on_time_peaks := on_peaks;
          on_thresholds := on_thr;
          morse := assemble (off_thr !!! 0%nat) (off_thr !!! 1%nat)
                            (on_thr !!! 0%nat) (m_signals self) |}.

(** The report of a run: the fields written by [calculateHistogram],
    those of [processSignals], and the decoded message. *)
Record report : Type := {
  frame_hist : list Z;
  frame_hist_mean : Z;
  signal_part : signal_report;
  message : std_string
}.

(** [run] from the end of the frame loop on. *)
Definition run (fuel : nat) (self : VideoMorseDecode) : outcome report :=
  self ← calculateHistogram self;
  let self := processStateChanges self in
  sr ← processSignals self;
  msg ← Util.decodeMorse fuel (morse sr);
  Done {| frame_hist := m_frame_luminance_histogram self;
          frame_hist_mean := m_mean_luminance self;
          signal_part := sr;
          message := msg |}.

Definition decode_samples (fuel : nat) (samples : list (Z * Z))
    : outcome report :=
  self ← process_frames samples VideoMorseDecode_new;
  run fuel self.

End Pipeline.

(* ===================================================================== *)
(** ** IEEE binary64 and a sorting routine, for concrete evaluation *)

Module Binary64.

Definition of_int (z : Z) : float :=
  match z with
  | Z0 => 0%float
  | Zpos _ => PrimFloat.of_uint63 (Uint63.of_Z z)
  | Zneg _ => (- PrimFloat.of_uint63 (Uint63.of_Z (- z)))%float
  end.

(** The integral part of a finite value: the fractional part is
    discarded. *)
Definition to_int (x : float) : option Z :=
  match Prim2SF x with
  | S754_finite s m e =>
      let v := if 0 <=? e then Z.pos m * 2 ^ e else Z.pos m / 2 ^ (- e) in
      Some (if s then - v else v)
  | S754_zero _ => Some 0
  | _ => None
  end.

Definition M_PI : float := 0x1.921fb54442d18p+1%float.
Definition M_E : float := 0x1.5bf0a8b145769p+1%float.

(** [pow] at the arguments [gaussian(j, 1)] passes for |j| <= 3: the base
    [M_E] and the exponents 0, -1, -4 and -9, with the binary64 values
    nearest to the exact powers. *)
Definition pow (x y : float) : float :=
  if negb (PrimFloat.eqb x M_E) then nan
  else if PrimFloat.eqb y 0 then 1%float
  else if PrimFloat.eqb y (-1) then 0x1.78b56362cef38p-2%float
  else if PrimFloat.eqb y (-4) then 0x1.2c155b8213cf6p-6%float
  else if PrimFloat.eqb y (-9) then 0x1.02cf22526545cp-13%float
  else nan.

#[export] Instance binary64 : Util.Double := {|
  Util.double := float;
  Util.d_of_int := of_int;
  Util.d_to_int := to_int;
  Util.d_add := PrimFloat.add;
  Util.d_mul := PrimFloat.mul;
  Util.d_div := PrimFloat.div;
  Util.d_opp := PrimFloat.opp;
  Util.d_sqrt := PrimFloat.sqrt;
  Util.d_pow := pow;
  Util.M_PI := M_PI;
  Util.M_E := M_E
|}.

End Binary64.

(** Sorting by merging, most frequent first. *)
Module MergeSort.

Definition more_frequent (a b : Z * Z) : Prop := b.2 <= a.2.

#[local] Instance more_frequent_dec : RelDecision more_frequent.
Proof. intros a b. unfold more_frequent. apply _. Defined.

#[local] Instance more_frequent_total : Total more_frequent.
Proof. intros a b. unfold more_frequent. lia. Qed.

#[local] Instance more_frequent_trans : Transitive more_frequent.
Proof. intros a b c. unfold more_frequent. lia. Qed.

#[export] Program Instance sort : Util.StdSort := {|
  Util.std_sort := merge_sort more_frequent
|}.
Next Obligation. intros l. apply merge_sort_Permutation. Qed.
Next Obligation.
  intros l. apply (StronglySorted_merge_sort more_frequent).
Qed.

End MergeSort.


(* ===================================================================== *)
(** ** Measures on strings *)

(** The number of characters of [s] that satisfy [P]. *)
Definition count_if (P : ascii -> bool) (s : std_string) : nat :=
  length (List.filter P s).

Definition is_dot_or_dash (c : ascii) : bool :=
  Ascii.eqb c "." || Ascii.eqb c "-".

Definition is_space (c : ascii) : bool := Ascii.eqb c " ".

Definition is_bar (c : ascii) : bool := Ascii.eqb c "|".

(* ===================================================================== *)
(** ** Vocabulary for the segmentation *)

(** No two neighbours of the list are in the same state. *)
Definition alternating (sigs : list Signal) : Prop :=
  forall i a b,
    sigs !! i = Some a -> sigs !! S i = Some b -> state a <> state b.

Definition total_duration (sigs : list Signal) : Z :=
  foldr (fun s acc => duration s + acc) 0 sigs.

(** Frame indices as the frame loop produces them: [unsigned] values that
    grow from one frame to the next. *)
Definition increasing_times (frames : list Frame) : Prop :=
  StronglySorted Z.lt (time <$> frames)
  /\ Forall (fun f => 0 <= time f < 2 ^ 32) frames.

(** What holds of the segmenter after the frames [fs]. *)
Record segmenter_inv (fs : list Frame) (sg : segmenter) : Prop := {
  inv_last_state :
    last_state sg = Z.of_nat (length (signals sg)) mod 2;
  inv_states :
    forall i s, signals sg !! i = Some s -> state s = Z.of_nat i mod 2;
  inv_start :
    signals sg = [] -> last_time sg = 0;
  inv_time :
    signals sg <> [] ->
    exists g, g ∈ fs /\ to_unsigned (last_time sg) = time g;
  inv_first :
    forall s, signals sg !! 0%nat = Some s ->
              exists g, g ∈ fs /\ duration s = time g;
  inv_later :
    forall i s, signals sg !! S i = Some s -> 1 <= duration s;
  inv_total :
    total_duration (signals sg) = to_unsigned (last_time sg)
}.

(** The frame summary [processFrame] stores for a sample. *)
Definition frame_of (sample : Z * Z) : Frame :=
  {| time := to_unsigned sample.1; luminance := to_unsigned sample.2 |}.

(** Samples as the sampler delivers them: frame indices that fit
    [unsigned] and grow, luminances between 0 and 255. *)
Definition well_formed_samples (samples : list (Z * Z)) : Prop :=
  StronglySorted Z.lt (fst <$> samples)
  /\ Forall (fun s => 0 <= s.1 < 2 ^ 32 /\ 0 <= s.2 <= 255) samples.

(* ===================================================================== *)
(** ** Vocabulary for the brightness histogram *)

Definition sumZ {A} (f : A -> Z) (l : list A) : Z :=
  foldr (fun x acc => f x + acc) 0 l.

(** The entry of a histogram vector for the value [n]. *)
Definition bucket (hist : list Z) (n : Z) : Z := hist !!! Z.to_nat n.

(** Σ(value·count) and Σ(count) over the 256 buckets. *)
Definition weighted_sum (hist : list Z) : Z :=
  sumZ (fun n => n * bucket hist n) (seqZ 0 256).

Definition total_count (hist : list Z) : Z := sumZ (bucket hist) (seqZ 0 256).

(** How many samples have luminance [n], and the sum of all luminances. *)
Definition occurrences (n : Z) (samples : list (Z * Z)) : Z :=
  sumZ (fun s => if bool_decide (s.2 = n) then 1 else 0) samples.

Definition luminance_total (samples : list (Z * Z)) : Z := sumZ snd samples.


(** 16 843 010 frames of luminance 255: the shortest all-white recording
    whose sum of luminances does not fit 32 bits. *)
Definition long_bright_video : list (Z * Z) :=
  (fun i => (i, 255)) <$> seqZ 0 16843010.


(* ===================================================================== *)
(** ** Vocabulary for the peak detector *)











(* ===================================================================== *)
(** ** Sample sequences used in the scenarios *)

(** The samples of a recording given as runs [(frames, luminance)]:
    frame indices count from 0. *)
Definition samples_of_runs (runs : list (Z * Z)) : list (Z * Z) :=
  let lum := flat_map (fun r => replicate (Z.to_nat r.1) r.2) runs in
  zip (seqZ 0 (Z.of_nat (length lum))) lum.

(** Nine pulses of 3 frames each, separated and followed by breaks of
    2, 2, 6, 2, 2, 6, 2, 2 and 20 frames. *)
Definition sos_samples : list (Z * Z) :=
  samples_of_runs
    [(3, 255); (2, 0); (3, 255); (2, 0); (3, 255); (6, 0);
     (3, 255); (2, 0); (3, 255); (2, 0); (3, 255); (6, 0);
     (3, 255); (2, 0); (3, 255); (2, 0); (3, 255); (20, 0)].

(** A recording with pulses of 3 and 9 frames and breaks of 2, 6 and 20
    frames, each several times. *)
Definition flashing_samples : list (Z * Z) :=
  samples_of_runs
    [(20, 0); (3, 255); (2, 0); (9, 255);
     (20, 0); (3, 255); (2, 0); (9, 255);
     (20, 0); (3, 255); (2, 0); (9, 255);
     (6, 0); (3, 255); (6, 0); (9, 255); (6, 0); (3, 255)].

(** The same recording with every pulse 3 frames long. *)
Definition uniform_pulse_samples : list (Z * Z) :=
  samples_of_runs
    [(20, 0); (3, 255); (2, 0); (3, 255);
     (20, 0); (3, 255); (2, 0); (3, 255);
     (20, 0); (3, 255); (2, 0); (3, 255);
     (6, 0); (3, 255); (6, 0); (3, 255); (6, 0); (3, 255)].

Definition is_dot (c : ascii) : bool := Ascii.eqb c ".".

Definition is_dash (c : ascii) : bool := Ascii.eqb c "-".


(* ===================================================================== *)
(** ** Vocabulary for the string helpers *)

(** [from] occurs in [input] at position [p]. *)
Definition occurs_at (from input : std_string) (p : nat) : Prop :=
  (p <= length input)%nat /\ from `prefix_of` drop p input.

(** Every character [c] of [s] replaced by the string [to]. *)
Definition substitute (c : ascii) (to s : std_string) : std_string :=
  List.flat_map (fun x => if Ascii.eqb x c then to else [x]) s.

Definition is_char (c x : ascii) : bool := Ascii.eqb x c.


(* ===================================================================== *)
(** ** Vocabulary for the duration histograms and the morse string *)

(** The pulses (state not 0) of a Signal list, and its breaks. *)
Definition is_pulse (s : Signal) : bool := negb (bool_decide (state s = 0)).

(** How many Signals of the list are pulses ([pulse = true]) or breaks
    ([pulse = false]) of duration [dur]. *)
Definition signals_with (pulse : bool) (dur : Z) (sigs : list Signal) : Z :=
  sumZ (fun s => if bool_decide (is_pulse s = pulse /\ duration s = dur)
                 then 1 else 0) sigs.

(** The characters [processSignals] builds the morse string from. *)
Definition is_morse_char (c : ascii) : bool :=
  Ascii.eqb c "." || Ascii.eqb c "-" || Ascii.eqb c " " || Ascii.eqb c "|".

(* ===================================================================== *)
(** ** The selected area of a frame *)

(** [struct Options], the fields [processFrame] reads: the corners of the
    selected area as fractions of the frame size, and the first and last
    frame index to look at (-1: no limit). *)
Module Options.
Section Fields.
Context {D : Util.Double}.

Record Options : Type := {
  x0 : Util.double; y0 : Util.double;
  x1 : Util.double; y1 : Util.double;
  start_frame : Z; end_frame : Z
}.

End Fields.
End Options.

(** [AVFrame], the fields [processFrame] reads: the bytes [data[0]] points
    to and [linesize[0]]. *)
Record AVFrame : Type := { data_0 : list Z; linesize_0 : Z }.

Section FrameArea.

Context {D : Util.Double}.

(** [int x0 = width * m_options.x0]: the product is a double, converted
    to [int]. *)
Definition area_bound (size : Z) (fraction : Util.double) : outcome Z :=
  Util.double_to_int (Util.d_mul (Util.d_of_int size) fraction).

(** [a / b] on [int]. *)
Definition int_div (a b : Z) : outcome Z :=
  if bool_decide (b = 0) then Undefined DivisionByZero
  else Done (to_int (Z.quot a b)).

(** The body of [for (x = x0; x < x1; x++)] up to [s += i]: the three
    bytes of the pixel are read from [row = data[0] + y * linesize[0]],
    the value [i] is the blue one. *)
Definition pixel (frame : AVFrame) (y x : Z) : outcome Z :=
  let row := to_int (y * linesize_0 frame) in
  r ← vec_get (data_0 frame) (row + to_int (x * 3));
  g ← vec_get (data_0 frame) (row + to_int (to_int (x * 3) + 1));
  b ← vec_get (data_0 frame) (row + to_int (to_int (x * 3) + 2));
  let i := b in
  let i := if bool_decide (i < 0) then 0 else i in
  let i := if bool_decide (255 < i) then 255 else i in
  Done i.

(** [for (x = x0; x < x1; x++)], on the local [s]. *)
Fixpoint row_loop (frame : AVFrame) (y s : Z) (xs : list Z) : outcome Z :=
  match xs with
  | [] => Done s
  | x :: xs' => i ← pixel frame y x; row_loop frame y (to_int (s + i)) xs'
  end.

(** [for (y = y0; y < y1; y++)], on the local [t]. *)
Fixpoint area_loop (frame : AVFrame) (x0 x1 t : Z) (ys : list Z)
    : outcome Z :=
  match ys with
  | [] => Done t
  | y :: ys' =>
      s ← row_loop frame y 0 (seqZ x0 (x1 - x0));
      q ← int_div s (to_int (x1 - x0));
      area_loop frame x0 x1 (to_int (t + q)) ys'
  end.

(** The whole of [VideoMorseDecode::processFrame]: the frame window, the
    average over the selected area, and then the update of the histogram
    and of [m_frames] ([processFrame] above). *)
Definition processFrame_pixels (m_options : Options.Options)
    (frame : AVFrame) (width height frame_index : Z)
    (self : VideoMorseDecode) : outcome VideoMorseDecode :=
  x0 ← area_bound width (Options.x0 m_options);
  y0 ← area_bound height (Options.y0 m_options);
  x1 ← area_bound width (Options.x1 m_options);
  y1 ← area_bound height (Options.y1 m_options);
  if bool_decide (Options.start_frame m_options <> -1)
     && bool_decide (frame_index < Options.start_frame m_options)
  then Done self
  else if bool_decide (Options.end_frame m_options <> -1)
          && bool_decide (Options.end_frame m_options < frame_index)
  then Done self
  else
    t ← area_loop frame x0 x1 0 (seqZ y0 (y1 - y0));
    t' ← int_div t (to_int (y1 - y0));
    processFrame t' frame_index self.

(** A frame index inside the window of the options. *)
Definition in_frame_window (m_options : Options.Options) (frame_index : Z)
    : Prop :=
  (Options.start_frame m_options = -1
   \/ Options.start_frame m_options <= frame_index)
  /\ (Options.end_frame m_options = -1
      \/ frame_index <= Options.end_frame m_options).

(** The blue byte of pixel ([x], [y]), when the frame has it. *)
Definition blue_byte (frame : AVFrame) (y x : Z) : option Z :=
  data_0 frame !! Z.to_nat (y * linesize_0 frame + x * 3 + 2).

End FrameArea.

(** A frame of 4 x 2 pixels, three bytes each, and the options that
    select its two middle columns from frame 2 on. *)
Definition small_frame : AVFrame :=
  {| data_0 := [1; 2; 3;  4; 5; 100;  7; 8; 120;  10; 11; 12;
                13; 14; 15;  16; 17; 110;  19; 20; 130;  22; 23; 24];
     linesize_0 := 12 |}.

Definition middle_columns : Options.Options (D := Binary64.binary64) :=
  @Options.Build_Options Binary64.binary64
    0x1p-2%float 0%float 0x1.8p-1%float 1%float 2 (-1).

(** Options whose two column bounds coincide, and options with the column
    bounds exchanged. *)
Definition no_columns : Options.Options (D := Binary64.binary64) :=
  @Options.Build_Options Binary64.binary64
    0x1p-1%float 0%float 0x1p-1%float 1%float (-1) (-1).

Definition exchanged_columns : Options.Options (D := Binary64.binary64) :=
  @Options.Build_Options Binary64.binary64
    0x1.8p-1%float 0%float 0x1p-2%float 1%float (-1) (-1).

(* ===================================================================== *)
(** ** The frame loop of [run] *)

Section FrameLoop.

Context {D : Util.Double}.

(** [while (av_read_frame(...) >= 0)] of [run], on the successive
    contents of [frame_rgb] for the finished frames of the video stream:
    [processFrame(frame_rgb, width, height, frame_index)] and then
    [frame_index++]. *)
Fixpoint read_frames (m_options : Options.Options) (width height : Z)
    (frame_index : Z) (frames : list AVFrame) (self : VideoMorseDecode)
    : outcome VideoMorseDecode :=
  match frames with
  | [] => Done self
  | frame_rgb :: rest =>
      self' ← processFrame_pixels m_options frame_rgb width height
                frame_index self;
      read_frames m_options width height (to_int (frame_index + 1)) rest self'
  end.

#[global] Instance in_frame_window_dec m_options frame_index :
  Decision (in_frame_window m_options frame_index).
Proof. unfold in_frame_window. apply _. Defined.

(** Every pixel of the area is in the frame, with a blue byte between
    [lo] and [hi]. *)
Definition area_blue_between (frame : AVFrame) (x0 y0 x1 y1 lo hi : Z)
    : Prop :=
  forall y x, y0 <= y < y1 -> x0 <= x < x1 ->
    exists b, blue_byte frame y x = Some b /\ lo <= b <= hi.

(** The samples of the frames inside the window, for frames numbered from
    [frame_index] on with the luminances [ts]. *)
Definition window_samples (m_options : Options.Options) (frame_index : Z)
    (ts : list Z) : list (Z * Z) :=
  List.filter (fun s => bool_decide (in_frame_window m_options s.1))
              (zip (seqZ frame_index (Z.of_nat (length ts))) ts).

End FrameLoop.

(* ===================================================================== *)
(** * Properties *)

(** ** Sequencing *)

Lemma bind_Done {A B} (f : A -> outcome B) (a : A) : (Done a ≫= f) = f a.
Proof. reflexivity. Qed.

Lemma bind_Done_inv {A B} (f : A -> outcome B) (m : outcome A) (b : B) :
  (m ≫= f) = Done b -> exists a, m = Done a /\ f a = Done b.
Proof. destruct m as [a| |]; try discriminate. intros H. now exists a. Qed.

(** ** Strings: [find], [replace] and [replace_all] *)

Section ReplaceFacts.

Implicit Types (input from to out : std_string) (P : ascii -> bool).

Lemma count_if_app P s t :
  count_if P (s ++ t) = (count_if P s + count_if P t)%nat.
Proof. unfold count_if. now rewrite List.filter_app, length_app. Qed.

Lemma count_if_le P s : (count_if P s <= length s)%nat.
Proof. unfold count_if. apply List.filter_length_le. Qed.

Lemma find_Some input from p :
  Util.find input from = Some p ->
  input = take p input ++ from ++ drop (p + length from) input.
Proof.
  revert p. induction input as [|c rest IH]; intros p; simpl.
  - case_bool_decide as Hp; [|discriminate].
    intros [= <-]. destruct Hp as [k Hk]. simpl.
    symmetry in Hk. apply app_eq_nil in Hk as [-> ->]. reflexivity.
  - case_bool_decide as Hp.
    + intros [= <-]. destruct Hp as [k Hk]. simpl.
      rewrite Hk at 1. rewrite Hk, drop_app_length. reflexivity.
    + destruct (Util.find rest from) as [q|] eqn:Hq; [|discriminate].
      simpl. intros [= <-]. simpl. f_equal. now apply IH.
Qed.

Lemma replace_true input from to out :
  Util.replace input from to = (true, out) ->
  exists a b, input = a ++ from ++ b /\ out = a ++ to ++ b.
Proof.
  unfold Util.replace, Util.string_replace.
  destruct (Util.find input from) as [p|] eqn:Hp; [|discriminate].
  intros [= <-]. eexists _, _. split; [|reflexivity]. now apply find_Some.
Qed.

Lemma replace_false input from to out :
  Util.replace input from to = (false, out) -> out = input.
Proof.
  unfold Util.replace.
  destruct (Util.find input from); [discriminate|]. now intros [= <-].
Qed.

Lemma replace_count P input from to out :
  Util.replace input from to = (true, out) ->
  (count_if P out + count_if P from = count_if P input + count_if P to)%nat.
Proof.
  intros (a & b & -> & ->)%replace_true. rewrite !count_if_app. lia.
Qed.

Lemma replace_length input from to out :
  Util.replace input from to = (true, out) ->
  (length out + length from = length input + length to)%nat.
Proof.
  intros (a & b & -> & ->)%replace_true. rewrite !length_app. lia.
Qed.

(** A loop whose every replacement lowers the count of [P] stops within
    that count, and the string has not grown if [to] is no longer than
    [from]. *)
Lemma replace_all_stops P from to :
  (count_if P to < count_if P from)%nat ->
  (length to <= length from)%nat ->
  forall fuel input,
    (count_if P input < fuel)%nat ->
    exists out,
      Util.replace_all fuel input from to = Done out
      /\ (length out <= length input)%nat.
Proof.
  intros Hdec Hlen fuel.
  induction fuel as [|fuel IH]; intros input Hfuel; [lia|]. simpl.
  destruct (Util.replace input from to) as [[] out] eqn:Hr.
  - pose proof (replace_count P _ _ _ _ Hr).
    pose proof (replace_length _ _ _ _ Hr).
    destruct (IH out) as (out' & -> & Hout'); [lia|].
    exists out'. split; [reflexivity|lia].
  - apply replace_false in Hr as ->. now exists input.
Qed.

Lemma replace_all_more_fuel from to fuel input out :
  Util.replace_all fuel input from to = Done out ->
  forall fuel', (fuel <= fuel')%nat ->
    Util.replace_all fuel' input from to = Done out.
Proof.
  revert input. induction fuel as [|fuel IH]; intros input; [discriminate|].
  simpl. intros H [|fuel'] Hle; [lia|]. simpl.
  destruct (Util.replace input from to) as [[] o]; [|exact H].
  apply IH; [exact H|lia].
Qed.

End ReplaceFacts.

(** ** [decodeMorse] *)

Section DecodeMorseFacts.

(** Every entry of the table trades its pattern for a string with fewer
    dots and dashes, and no more characters. *)
Lemma morse_symbols_shrink :
  Forall (fun m =>
            (count_if is_dot_or_dash (Util.symbol_to m)
             < count_if is_dot_or_dash (Util.symbol_from m))%nat
            /\ (length (Util.symbol_to m)
                <= length (Util.symbol_from m))%nat)
         Util.morse_symbols.
Proof.
  unfold Util.morse_symbols.
  repeat (constructor; [split; vm_compute; lia|]). constructor.
Qed.

Lemma decode_symbols_stops table :
  Forall (fun m =>
            (count_if is_dot_or_dash (Util.symbol_to m)
             < count_if is_dot_or_dash (Util.symbol_from m))%nat
            /\ (length (Util.symbol_to m)
                <= length (Util.symbol_from m))%nat) table ->
  forall fuel out,
    (length out < fuel)%nat ->
    exists out',
      Util.decode_symbols fuel table out = Done out'
      /\ (length out' <= length out)%nat.
Proof.
  induction 1 as [|m table [Hm1 Hm2] _ IH]; intros fuel out Hfuel; simpl.
  - now exists out.
  - destruct (replace_all_stops is_dot_or_dash _ _ Hm1 Hm2 fuel out)
      as (out1 & -> & Hlen1).
    { pose proof (count_if_le is_dot_or_dash out). lia. }
    rewrite bind_Done. destruct (IH fuel out1) as (out2 & -> & Hlen2); [lia|].
    exists out2. split; [reflexivity|lia].
Qed.

Lemma decode_symbols_more_fuel table fuel out out' :
  Util.decode_symbols fuel table out = Done out' ->
  forall fuel', (fuel <= fuel')%nat ->
    Util.decode_symbols fuel' table out = Done out'.
Proof.
  revert out. induction table as [|m table IH]; intros out; simpl.
  - intros H fuel' _. exact H.
  - intros H fuel' Hle. apply bind_Done_inv in H as (out1 & H1 & H).
    rewrite (replace_all_more_fuel _ _ _ _ _ H1 fuel' Hle), bind_Done.
    now apply IH with (fuel' := fuel') in H.
Qed.

Lemma decodeMorse_stops fuel input :
  (length input < fuel)%nat ->
  exists msg, Util.decodeMorse fuel input = Done msg.
Proof.
  intros Hfuel. unfold Util.decodeMorse.
  destruct (decode_symbols_stops _ morse_symbols_shrink fuel input Hfuel)
    as (out1 & -> & Hlen1).
  rewrite bind_Done.
  destruct (replace_all_stops is_space (str " ") [] ltac:(vm_compute; lia)
              ltac:(vm_compute; lia) fuel out1) as (out2 & -> & Hlen2).
  { pose proof (count_if_le is_space out1). lia. }
  rewrite bind_Done.
  destruct (replace_all_stops is_bar (str "|") (str " ")
              ltac:(vm_compute; lia) ltac:(vm_compute; lia) fuel out2)
    as (out3 & -> & _).
  { pose proof (count_if_le is_bar out2). lia. }
  now exists out3.
Qed.

Lemma decodeMorse_more_fuel fuel input msg :
  Util.decodeMorse fuel input = Done msg ->
  forall fuel', (fuel <= fuel')%nat ->
    Util.decodeMorse fuel' input = Done msg.
Proof.
  unfold Util.decodeMorse. intros H fuel' Hle.
  apply bind_Done_inv in H as (out1 & H1 & H).
  apply bind_Done_inv in H as (out2 & H2 & H).
  rewrite (decode_symbols_more_fuel _ _ _ _ H1 fuel' Hle), bind_Done.
  rewrite (replace_all_more_fuel _ _ _ _ _ H2 fuel' Hle), bind_Done.
  now apply replace_all_more_fuel with (fuel := fuel).
Qed.

End DecodeMorseFacts.

(** C10.  [decodeMorse] terminates on every token stream.  Each
    successful [replace] made for a table entry lowers the number of dots
    and dashes of the string, each one made while stripping spaces lowers
    the number of spaces, and each one made for the word separator lowers
    the number of bars; so every [replace_all] loop makes finitely many
    replacements, and with any bound on the loop tests above the length
    of the input [decodeMorse] returns one and the same message. *)
Theorem decodeMorse_terminates (input : std_string) :
  (forall m out out',
      m ∈ Util.morse_symbols ->
      Util.replace out (Util.symbol_from m) (Util.symbol_to m) = (true, out') ->
      (count_if is_dot_or_dash out' < count_if is_dot_or_dash out)%nat)
  /\ (forall out out',
         Util.replace out (str " ") [] = (true, out') ->
         (count_if is_space out' < count_if is_space out)%nat)
  /\ (forall out out',
         Util.replace out (str "|") (str " ") = (true, out') ->
         (count_if is_bar out' < count_if is_bar out)%nat)
  /\ exists msg,
       forall fuel, (length input < fuel)%nat ->
         Util.decodeMorse fuel input = Done msg.
Proof.
  repeat split.
  - intros m out out' Hm Hr.
    pose proof (proj1 (Forall_forall _ _) morse_symbols_shrink m Hm) as [H _].
    pose proof (replace_count is_dot_or_dash _ _ _ _ Hr). lia.
  - intros out out' Hr.
    pose proof (replace_count is_space _ _ _ _ Hr) as H.
    change (count_if is_space (str " ")) with 1%nat in H.
    change (count_if is_space []) with 0%nat in H. lia.
  - intros out out' Hr.
    pose proof (replace_count is_bar _ _ _ _ Hr) as H.
    change (count_if is_bar (str "|")) with 1%nat in H.
    change (count_if is_bar (str " ")) with 0%nat in H. lia.
  - destruct (decodeMorse_stops (S (length input)) input) as [msg Hmsg]; [lia|].
    exists msg. intros fuel Hfuel.
    apply decodeMorse_more_fuel with (fuel := S (length input)); [exact Hmsg|lia].
Qed.

(** ** Segmentation *)

Section SegmentationFacts.

Lemma to_unsigned_small z : 0 <= z < 2 ^ 32 -> to_unsigned z = z.
Proof. intros H. unfold to_unsigned. now apply Z.mod_small. Qed.

Lemma to_unsigned_to_int z : to_unsigned (to_int z) = to_unsigned z.
Proof.
  unfold to_unsigned, to_int.
  rewrite Zminus_mod_idemp_l. f_equal. lia.
Qed.

Lemma to_unsigned_idem z : to_unsigned (to_unsigned z) = to_unsigned z.
Proof. unfold to_unsigned. apply Zmod_mod. Qed.

Lemma to_unsigned_add_l a b :
  to_unsigned (to_unsigned a + b) = to_unsigned (a + b).
Proof. unfold to_unsigned. apply Zplus_mod_idemp_l. Qed.

Lemma to_unsigned_add_r a b :
  to_unsigned (a + to_unsigned b) = to_unsigned (a + b).
Proof. unfold to_unsigned. apply Zplus_mod_idemp_r. Qed.

Lemma to_int_small z : - 2 ^ 31 <= z <= INT_MAX -> to_int z = z.
Proof.
  intros H. unfold to_int, INT_MAX in *.
  rewrite Z.mod_small; lia.
Qed.

Lemma total_duration_snoc sigs s :
  total_duration (sigs ++ [s]) = total_duration sigs + duration s.
Proof.
  unfold total_duration. induction sigs as [|a sigs IH]; simpl; lia.
Qed.

Lemma increasing_times_snoc fs f :
  increasing_times (fs ++ [f]) ->
  increasing_times fs
  /\ (forall g, g ∈ fs -> time g < time f)
  /\ 0 <= time f < 2 ^ 32.
Proof.
  intros [Hs Hr]. rewrite fmap_app in Hs.
  apply StronglySorted_app in Hs as (Hlt & Hs1 & _).
  apply Forall_app in Hr as [Hr1 Hr2].
  split; [now split|]. split.
  - intros g Hg. apply Hlt; [|simpl; left].
    now apply list_elem_of_fmap_2.
  - exact (proj1 (Forall_singleton _ _) Hr2).
Qed.

Lemma increasing_times_range fs g :
  increasing_times fs -> g ∈ fs -> 0 <= time g < 2 ^ 32.
Proof. intros [_ Hr] Hg. exact (proj1 (Forall_forall _ _) Hr g Hg). Qed.

Lemma segment_step_state mean sg f :
  last_state (segment_step mean sg f) = 0
  \/ last_state (segment_step mean sg f) = 1.
Proof.
  unfold segment_step. repeat case_bool_decide; simpl; lia.
Qed.

Lemma segmenter_inv_init : segmenter_inv [] (segmenter_init []).
Proof.
  split; simpl; try done.
Qed.

Lemma segmenter_inv_step mean fs f sg :
  increasing_times (fs ++ [f]) ->
  segmenter_inv fs sg ->
  segmenter_inv (fs ++ [f]) (segment_step mean sg f).
Proof.
  intros (Hfs & Hlt & Hf)%increasing_times_snoc [H1 H2 H3 H4 H5 H6 H7].
  assert (Hu : 0 <= to_unsigned (last_time sg) <= time f
               /\ (signals sg <> [] -> to_unsigned (last_time sg) < time f)).
  { destruct (signals sg) as [|s0 sigs] eqn:Hsig.
    - rewrite H3 by done. change (to_unsigned 0) with 0. split; [lia|done].
    - destruct H4 as (g & Hg & ->); [done|].
      pose proof (increasing_times_range _ _ Hfs Hg).
      pose proof (Hlt g Hg). split; [lia|]. intros _. lia. }
  destruct Hu as [Hu Hu'].
  assert (Hls : last_state sg = 0 \/ last_state sg = 1).
  { rewrite H1. Z.div_mod_to_equations. lia. }
  pose proof (segment_step_state mean sg f) as Hst.
  unfold segment_step in *.
  set (st := if bool_decide (luminance f < to_unsigned mean) then 0
             else if bool_decide (to_unsigned mean <= luminance f) then 1
                  else cur_state sg) in *.
  case_bool_decide as Hch; simpl in *.
  - (* a change of state: one more signal *)
    assert (Hdur : to_unsigned (time f - to_unsigned (last_time sg))
                   = time f - to_unsigned (last_time sg)).
    { apply to_unsigned_small. lia. }
    split; simpl.
    + rewrite length_app, Nat2Z.inj_add. simpl.
      rewrite H1 in Hch. Z.div_mod_to_equations. lia.
    + intros i s [[_ Hi]|[Hi Hs]]%lookup_snoc_Some; [now apply H2|].
      subst s i. simpl. rewrite H1. apply to_unsigned_small. lia.
    + intros []%app_eq_nil. done.
    + intros _. exists f. split; [apply elem_of_app; right; now left|].
      rewrite to_unsigned_to_int. now apply to_unsigned_small.
    + intros s [[_ Hi]|[Hi Hs]]%lookup_snoc_Some.
      * destruct (H5 s Hi) as (g & Hg & Hd).
        exists g. split; [apply elem_of_app; now left|done].
      * subst s. simpl. exists f. split; [apply elem_of_app; right; now left|].
        rewrite Hdur. destruct (signals sg); [|done].
        rewrite H3 by done. change (to_unsigned 0) with 0. lia.
    + intros i s [[_ Hi]|[Hi Hs]]%lookup_snoc_Some; [now apply (H6 i)|].
      subst s. simpl. rewrite Hdur.
      assert (signals sg <> []) by (destruct (signals sg); simpl in *; [lia|done]).
      specialize (Hu' ltac:(done)). lia.
    + rewrite total_duration_snoc, H7. simpl.
      rewrite Hdur, to_unsigned_to_int, (to_unsigned_small (time f)); lia.
  - (* the state is the one of the frame before *)
    split; simpl; try done.
    + now rewrite Hch.
    + intros Hne. destruct (H4 Hne) as (g & Hg & Hd).
      exists g. split; [apply elem_of_app; now left|done].
    + intros s Hs. destruct (H5 s Hs) as (g & Hg & Hd).
      exists g. split; [apply elem_of_app; now left|done].
Qed.

Lemma segmenter_inv_run mean frames :
  increasing_times frames ->
  segmenter_inv frames (foldl (segment_step mean) (segmenter_init []) frames).
Proof.
  induction frames as [|f fs IH] using rev_ind; intros Hinc.
  - apply segmenter_inv_init.
  - rewrite foldl_snoc. apply segmenter_inv_step; [done|].
    apply IH. now apply increasing_times_snoc in Hinc.
Qed.

End SegmentationFacts.

(** ** The frame loop *)

Section FrameLoopFacts.

Lemma vec_get_Done {A} (v : list A) (i : Z) (x : A) :
  vec_get v i = Done x <-> 0 <= i /\ v !! Z.to_nat i = Some x.
Proof.
  unfold vec_get. destruct (Z.ltb_spec i 0).
  - split; [discriminate|lia].
  - destruct (v !! Z.to_nat i) as [y|]; split;
      try discriminate; try (intros [= ->]; done); try (intros [_ [= ->]]; done);
      intros [_ [=]].
Qed.

Lemma processFrame_Done t frame_index self :
  0 <= t < Z.of_nat (length (m_frame_luminance_histogram self)) ->
  exists n,
    m_frame_luminance_histogram self !! Z.to_nat t = Some n
    /\ processFrame t frame_index self
       = Done {| m_frame_luminance_histogram :=
                   <[Z.to_nat t := to_unsigned (n + 1)]>
                     (m_frame_luminance_histogram self);
                 m_frames := m_frames self ++ [frame_of (frame_index, t)];
                 m_signals := m_signals self;
                 m_mean_luminance := m_mean_luminance self |}.
Proof.
  intros Ht. unfold processFrame.
  destruct (lookup_lt_is_Some_2 (m_frame_luminance_histogram self)
              (Z.to_nat t)) as [n Hn]; [lia|].
  exists n. split; [done|].
  rewrite (proj2 (vec_get_Done _ _ n)) by (split; [lia|done]).
  reflexivity.
Qed.

(** The frame loop stores the samples in order and leaves [m_signals]
    alone; the histogram keeps its 256 entries. *)
Lemma process_frames_Done samples :
  Forall (fun s => 0 <= s.2 <= 255) samples ->
  forall self,
    length (m_frame_luminance_histogram self) = 256%nat ->
    exists self',
      process_frames samples self = Done self'
      /\ length (m_frame_luminance_histogram self') = 256%nat
      /\ m_frames self' = m_frames self ++ (frame_of <$> samples)
      /\ m_signals self' = m_signals self.
Proof.
  induction 1 as [|[i t] samples Ht _ IH]; intros self Hlen; simpl.
  - exists self. rewrite app_nil_r. done.
  - simpl in Ht.
    destruct (processFrame_Done t i self) as (n & Hn & ->); [lia|].
    rewrite bind_Done.
    edestruct IH as (self' & -> & Hlen' & Hfr & Hsig).
    { simpl. now rewrite length_insert. }
    exists self'. simpl in *. rewrite Hfr, <- app_assoc. done.
Qed.

Lemma well_formed_samples_times samples :
  well_formed_samples samples -> increasing_times (frame_of <$> samples).
Proof.
  intros [Hs Hr]. split.
  - rewrite <- list_fmap_compose.
    replace (time ∘ frame_of <$> samples) with (fst <$> samples); [done|].
    apply Forall_fmap_ext_1. eapply Forall_impl; [exact Hr|].
    intros s [H _]. simpl. symmetry. now apply to_unsigned_small.
  - apply Forall_fmap. eapply Forall_impl; [exact Hr|].
    intros s [H _]. simpl. now rewrite to_unsigned_small.
Qed.

Lemma calculateHistogram_Done self self' :
  calculateHistogram self = Done self' ->
  m_frames self' = m_frames self /\ m_signals self' = m_signals self
  /\ m_frame_luminance_histogram self' = m_frame_luminance_histogram self.
Proof.
  unfold calculateHistogram.
  intros (acc & _ & H)%bind_Done_inv.
  case_bool_decide; [discriminate|]. now injection H as <-.
Qed.

(** After the frame loop and the two stages, the signals are those the
    segmenter draws from the stored samples with the computed mean. *)
Lemma segmented_Done samples self :
  Forall (fun s => 0 <= s.2 <= 255) samples ->
  segmented samples = Done self ->
  m_frames self = frame_of <$> samples
  /\ m_signals self
     = signals (foldl (segment_step (m_mean_luminance self))
                      (segmenter_init []) (frame_of <$> samples)).
Proof.
  intros Hr. unfold segmented.
  destruct (process_frames_Done samples Hr VideoMorseDecode_new)
    as (self1 & -> & _ & Hfr & Hsig); [reflexivity|].
  rewrite bind_Done. intros (self2 & H2 & [= <-])%bind_Done_inv.
  apply calculateHistogram_Done in H2 as (Hfr2 & Hsig2 & _).
  unfold processStateChanges. simpl.
  rewrite Hfr2, Hsig2, Hfr, Hsig. done.
Qed.

(** While the frames are dark the segmenter stays as it started. *)
Lemma segment_dark_frames mean offs :
  Forall (fun g => luminance g < to_unsigned mean) offs ->
  foldl (segment_step mean) (segmenter_init []) offs = segmenter_init [].
Proof.
  induction offs as [|g offs IH] using rev_ind; [done|].
  intros [Hoffs Hg%Forall_inv]%Forall_app.
  rewrite foldl_snoc, IH by done.
  unfold segment_step.
  rewrite (bool_decide_true (luminance g < to_unsigned mean)) by done.
  reflexivity.
Qed.

(** Signals are only ever appended. *)
Lemma segment_appends mean frames sg :
  exists more,
    signals (foldl (segment_step mean) sg frames) = signals sg ++ more.
Proof.
  revert sg. induction frames as [|f frames IH]; intros sg; simpl.
  - exists []. now rewrite app_nil_r.
  - destruct (IH (segment_step mean sg f)) as [more ->].
    unfold segment_step. case_bool_decide; simpl.
    + eexists. now rewrite <- app_assoc.
    + now exists more.
Qed.

(** The first signal closes the dark run that starts at frame index 0:
    its duration is the index of the first frame that is not dark. *)
Lemma segment_first_signal mean offs f rest :
  Forall (fun g => luminance g < to_unsigned mean) offs ->
  to_unsigned mean <= luminance f ->
  0 <= time f < 2 ^ 32 ->
  signals (foldl (segment_step mean) (segmenter_init []) (offs ++ f :: rest))
    !! 0%nat
  = Some {| state := 0; duration := time f |}.
Proof.
  intros Hoffs Hf Ht.
  rewrite foldl_app, segment_dark_frames by done. simpl.
  destruct (segment_appends mean rest
              (segment_step mean (segmenter_init []) f)) as [more ->].
  unfold segment_step.
  rewrite (bool_decide_false (luminance f < to_unsigned mean)) by lia.
  rewrite (bool_decide_true (to_unsigned mean <= luminance f)) by done.
  simpl.
  change (to_unsigned 0) with 0. rewrite Z.sub_0_r, to_unsigned_small by done.
  reflexivity.
Qed.

End FrameLoopFacts.

(** C8 (as amended).  For well-formed samples, the Signal list produced by
    the segmentation has no two consecutive Signals in the same state, and
    every Signal after the first has duration at least 1.  The first
    Signal is a break counted from frame index 0: its duration is the
    index of the first frame whose luminance reaches the mean, which is 0
    when the very first frame does. *)
Theorem segmentation_invariant (samples : list (Z * Z))
    (self : VideoMorseDecode) :
  well_formed_samples samples ->
  segmented samples = Done self ->
  alternating (m_signals self)
  /\ (forall i s, m_signals self !! S i = Some s -> 1 <= duration s)
  /\ (forall s, m_signals self !! 0%nat = Some s -> state s = 0)
  /\ (forall offs f rest,
         frame_of <$> samples = offs ++ f :: rest ->
         Forall (fun g => luminance g < to_unsigned (m_mean_luminance self))
                offs ->
         to_unsigned (m_mean_luminance self) <= luminance f ->
         m_signals self !! 0%nat
         = Some {| state := 0; duration := time f |}).
Proof.
  intros Hwf Hseg.
  assert (Hr : Forall (fun s => 0 <= s.2 <= 255) samples).
  { destruct Hwf as [_ Hr]. eapply Forall_impl; [exact Hr|]. now intros s [_ H]. }
  destruct (segmented_Done samples self Hr Hseg) as [Hfr ->].
  pose proof (well_formed_samples_times samples Hwf) as Hinc.
  destruct (segmenter_inv_run (m_mean_luminance self) _ Hinc)
    as [H1 H2 H3 H4 H5 H6 H7].
  repeat split.
  - intros i a b Ha Hb. rewrite (H2 _ _ Ha), (H2 _ _ Hb).
    rewrite Nat2Z.inj_succ. Z.div_mod_to_equations. lia.
  - exact H6.
  - intros s Hs. now rewrite (H2 _ _ Hs).
  - intros offs f rest Heq Hoffs Hf. rewrite Heq.
    apply segment_first_signal; [done..|].
    apply (increasing_times_range _ f Hinc).
    rewrite Heq. apply elem_of_app. right. now left.
Qed.

(** C8, the claim as stated fails: a sequence whose frame 0 is lit yields
    a first Signal of duration 0. *)
Lemma segmentation_zero_duration :
  exists self,
    segmented [(0, 255); (1, 0)] = Done self
    /\ m_signals self = [{| state := 0; duration := 0 |};
                         {| state := 1; duration := 1 |}]
    /\ ~ (forall s, s ∈ m_signals self -> 1 <= duration s).
Proof.
  eexists. split; [vm_compute; reflexivity|]. split; [reflexivity|].
  intros H. specialize (H {| state := 0; duration := 0 |}). simpl in H.
  assert (1 <= 0); [|lia]. apply H. now left.
Qed.

Lemma segmentation_invariant_witness :
  exists self,
    segmented [(0, 0); (1, 255); (2, 255); (3, 0)] = Done self
    /\ alternating (m_signals self)
    /\ (forall i s, m_signals self !! S i = Some s -> 1 <= duration s).
Proof.
  eexists. split; [vm_compute; reflexivity|].
  refine ((fun H => conj (proj1 H) (proj1 (proj2 H)))
            (segmentation_invariant [(0, 0); (1, 255); (2, 255); (3, 0)]
               _ _ _)).
  - split.
    + repeat constructor; simpl; lia.
    + repeat constructor; simpl; lia.
  - vm_compute. reflexivity.
Defined.

(** ** The brightness histogram and its mean *)

Section HistogramFacts.

Lemma sumZ_cons {A} (f : A -> Z) x l : sumZ f (x :: l) = f x + sumZ f l.
Proof. reflexivity. Qed.

Lemma sumZ_ext {A} (f g : A -> Z) l :
  (forall x, x ∈ l -> f x = g x) -> sumZ f l = sumZ g l.
Proof.
  induction l as [|x l IH]; intros H; [done|].
  rewrite !sumZ_cons, IH, (H x); [done|now left|].
  intros y Hy. apply H. now right.
Qed.

Lemma sumZ_plus {A} (f g : A -> Z) l :
  sumZ (fun x => f x + g x) l = sumZ f l + sumZ g l.
Proof. induction l as [|x l IH]; [done|]. rewrite !sumZ_cons, IH. lia. Qed.

Lemma sumZ_zero {A} (f : A -> Z) l :
  (forall x, x ∈ l -> f x = 0) -> sumZ f l = 0.
Proof.
  induction l as [|x l IH]; intros H; [done|].
  rewrite sumZ_cons, IH, (H x); [done|now left|].
  intros y Hy. apply H. now right.
Qed.

(** A sum that picks the one entry equal to [b]. *)
Lemma sumZ_pick (c : Z -> Z) (b : Z) (l : list Z) :
  NoDup l -> b ∈ l ->
  sumZ (fun n => if bool_decide (b = n) then c n else 0) l = c b.
Proof.
  induction 1 as [|x l Hx Hnd IH]; intros Hb; [by apply elem_of_nil in Hb|].
  rewrite sumZ_cons. apply elem_of_cons in Hb as [->|Hb].
  - rewrite bool_decide_true by done. rewrite sumZ_zero; [lia|].
    intros y Hy. rewrite bool_decide_false; [done|]. now intros <-.
  - rewrite bool_decide_false by (intros <-; done). rewrite IH; [lia|done].
Qed.

Lemma occurrences_cons n s samples :
  occurrences n (s :: samples)
  = (if bool_decide (s.2 = n) then 1 else 0) + occurrences n samples.
Proof. reflexivity. Qed.

Lemma occurrences_bounds n samples :
  0 <= occurrences n samples <= Z.of_nat (length samples).
Proof.
  induction samples as [|s samples IH]; [done|].
  rewrite occurrences_cons. simpl length. case_bool_decide; lia.
Qed.

(** Summed over the buckets, the occurrences give the number of samples,
    and weighted by the bucket value they give the sum of luminances. *)
Lemma occurrences_total samples :
  Forall (fun s => 0 <= s.2 <= 255) samples ->
  sumZ (fun n => occurrences n samples) (seqZ 0 256)
  = Z.of_nat (length samples)
  /\ sumZ (fun n => n * occurrences n samples) (seqZ 0 256)
     = luminance_total samples.
Proof.
  induction 1 as [|s samples Hs _ [IH1 IH2]].
  - split; apply sumZ_zero; intros n _; unfold occurrences; simpl; lia.
  - assert (Hin : s.2 ∈ seqZ 0 256) by (apply elem_of_seqZ; lia).
    split.
    + rewrite (sumZ_ext _ (fun n => (if bool_decide (s.2 = n) then 1 else 0)
                                    + occurrences n samples))
        by (intros; apply occurrences_cons).
      rewrite sumZ_plus, IH1.
      rewrite (sumZ_pick (fun _ => 1) (s.2) _ (NoDup_seqZ _ _) Hin).
      simpl length. lia.
    + rewrite (sumZ_ext _ (fun n => (if bool_decide (s.2 = n) then n else 0)
                                    + n * occurrences n samples)).
      * rewrite sumZ_plus, IH2.
        rewrite (sumZ_pick (fun n => n) (s.2) _ (NoDup_seqZ _ _) Hin).
        reflexivity.
      * intros n _. rewrite occurrences_cons. case_bool_decide; lia.
Qed.

Lemma bucket_insert hist t x n :
  0 <= t < Z.of_nat (length hist) -> 0 <= n ->
  bucket (<[Z.to_nat t := x]> hist) n
  = if bool_decide (t = n) then x else bucket hist n.
Proof.
  intros Ht Hn. unfold bucket. case_bool_decide as Heq.
  - subst n. apply list_lookup_total_insert_eq. lia.
  - apply list_lookup_total_insert_ne. lia.
Qed.

(** The histogram after the frame loop: every bucket has grown by the
    number of samples of its value, modulo 2^32. *)
Lemma process_frames_histogram samples :
  Forall (fun s => 0 <= s.2 <= 255) samples ->
  forall self self',
    length (m_frame_luminance_histogram self) = 256%nat ->
    process_frames samples self = Done self' ->
    forall n, 0 <= n < 256 ->
      to_unsigned (bucket (m_frame_luminance_histogram self') n)
      = to_unsigned (bucket (m_frame_luminance_histogram self) n
                     + occurrences n samples).
Proof.
  induction 1 as [|[i t] samples Ht _ IH]; intros self self' Hlen; simpl.
  - intros [= <-] n Hn. f_equal. unfold occurrences. simpl. lia.
  - simpl in Ht.
    destruct (processFrame_Done t i self) as (h & Hh & ->); [lia|].
    rewrite bind_Done. intros Hrest n Hn.
    eapply IH in Hrest; [|simpl; now rewrite length_insert|exact Hn].
    rewrite Hrest. simpl. rewrite bucket_insert by lia.
    assert (bucket (m_frame_luminance_histogram self) t = h) as Hb.
    { unfold bucket. now apply list_lookup_total_correct. }
    case_bool_decide as Heq.
    + subst n. rewrite Hb. unfold to_unsigned.
      rewrite Zplus_mod_idemp_l. f_equal. lia.
    + reflexivity.
Qed.

Lemma histogram_step_Done hist a1 a2 n :
  0 <= n < Z.of_nat (length hist) ->
  histogram_step hist (to_int (to_unsigned a1), to_unsigned a2) n
  = Done (to_int (to_unsigned (a1 + n * bucket hist n)),
          to_unsigned (a2 + bucket hist n)).
Proof.
  intros Hn. unfold histogram_step.
  destruct (lookup_lt_is_Some_2 hist (Z.to_nat n)) as [h Hh]; [lia|].
  rewrite (proj2 (vec_get_Done _ _ h)) by (split; [lia|done]).
  rewrite bind_Done. simpl.
  assert (bucket hist n = h) as ->.
  { unfold bucket. now apply list_lookup_total_correct. }
  rewrite to_unsigned_to_int, to_unsigned_idem.
  rewrite to_unsigned_add_l, to_unsigned_add_r, to_unsigned_add_l.
  reflexivity.
Qed.

Lemma histogram_loop_Done hist ns :
  Forall (fun n => 0 <= n < Z.of_nat (length hist)) ns ->
  forall a1 a2,
    histogram_loop hist (to_int (to_unsigned a1), to_unsigned a2) ns
    = Done (to_int (to_unsigned (a1 + sumZ (fun n => n * bucket hist n) ns)),
            to_unsigned (a2 + sumZ (bucket hist) ns)).
Proof.
  induction 1 as [|n ns Hn _ IH]; intros a1 a2; simpl.
  - now rewrite !Z.add_0_r.
  - rewrite histogram_step_Done, bind_Done, IH by done.
    now rewrite !Z.add_assoc.
Qed.

Lemma histogram_indices_eq : histogram_indices = seqZ 0 256.
Proof. vm_compute. reflexivity. Qed.

(** The two accumulators at the end of the loops of
    [calculateHistogram]. *)
Lemma histogram_loop_result hist :
  length hist = 256%nat ->
  histogram_loop hist (0, 0) histogram_indices
  = Done (to_int (to_unsigned (weighted_sum hist)),
          to_unsigned (total_count hist)).
Proof.
  intros Hlen. rewrite histogram_indices_eq.
  change (0, 0) with (to_int (to_unsigned 0), to_unsigned 0).
  rewrite histogram_loop_Done; [done|].
  apply Forall_forall. intros n Hn%elem_of_seqZ. lia.
Qed.

(** Sums of the buckets depend on the buckets modulo 2^32 only. *)
Lemma to_unsigned_sumZ {A} (f g : A -> Z) l :
  (forall x, x ∈ l -> to_unsigned (f x) = to_unsigned (g x)) ->
  to_unsigned (sumZ f l) = to_unsigned (sumZ g l).
Proof.
  induction l as [|x l IH]; intros H; [done|].
  rewrite !sumZ_cons.
  rewrite <- to_unsigned_add_l, <- to_unsigned_add_r, (H x), IH;
    [|intros y Hy; apply H; now right|now left].
  now rewrite to_unsigned_add_l, to_unsigned_add_r.
Qed.

End HistogramFacts.

Section MeanFacts.

Lemma to_unsigned_range z : 0 <= to_unsigned z < 2 ^ 32.
Proof. unfold to_unsigned. apply Z.mod_pos_bound. lia. Qed.

Lemma to_unsigned_mul_r a b :
  to_unsigned (a * to_unsigned b) = to_unsigned (a * b).
Proof. unfold to_unsigned. apply Zmult_mod_idemp_r. Qed.

Lemma processFrame_range t i self self' :
  Forall (fun x => 0 <= x < 2 ^ 32) (m_frame_luminance_histogram self) ->
  processFrame t i self = Done self' ->
  Forall (fun x => 0 <= x < 2 ^ 32) (m_frame_luminance_histogram self').
Proof.
  unfold processFrame. intros Hr (n & _ & [= <-])%bind_Done_inv. simpl.
  apply Forall_insert; [done|]. apply to_unsigned_range.
Qed.

Lemma process_frames_range samples :
  forall self self',
    Forall (fun x => 0 <= x < 2 ^ 32) (m_frame_luminance_histogram self) ->
    process_frames samples self = Done self' ->
    Forall (fun x => 0 <= x < 2 ^ 32) (m_frame_luminance_histogram self').
Proof.
  induction samples as [|[i t] samples IH]; intros self self' Hr; simpl.
  - now intros [= <-].
  - intros (self1 & H1 & Hrest)%bind_Done_inv.
    eapply IH; [|exact Hrest]. eapply processFrame_range; [exact Hr|exact H1].
Qed.

Lemma new_histogram_length :
  length (m_frame_luminance_histogram VideoMorseDecode_new) = 256%nat.
Proof. reflexivity. Qed.

Lemma bucket_new n :
  0 <= n < 256 ->
  bucket (m_frame_luminance_histogram VideoMorseDecode_new) n = 0.
Proof.
  intros Hn. unfold bucket, VideoMorseDecode_new.
  cbn [m_frame_luminance_histogram].
  apply lookup_total_replicate_2. lia.
Qed.

(** Below 2^32 samples no bucket wraps: each holds the number of samples
    of its value. *)
Lemma frame_loop_buckets samples self :
  Forall (fun s => 0 <= s.2 <= 255) samples ->
  Z.of_nat (length samples) < 2 ^ 32 ->
  process_frames samples VideoMorseDecode_new = Done self ->
  forall n, 0 <= n < 256 ->
    bucket (m_frame_luminance_histogram self) n = occurrences n samples.
Proof.
  intros Hr Hlen Hrun n Hn.
  pose proof (process_frames_histogram samples Hr _ _ new_histogram_length Hrun n Hn) as H.
  rewrite bucket_new, Z.add_0_l in H by done.
  pose proof (occurrences_bounds n samples).
  rewrite (to_unsigned_small (occurrences n samples)) in H by lia.
  rewrite to_unsigned_small in H; [done|].
  assert (Hall : Forall (fun x => 0 <= x < 2 ^ 32)
                        (m_frame_luminance_histogram self)).
  { eapply process_frames_range; [|exact Hrun].
    unfold VideoMorseDecode_new. cbn [m_frame_luminance_histogram].
    apply Forall_replicate. lia. }
  destruct (process_frames_Done samples Hr VideoMorseDecode_new
              new_histogram_length)
    as (self1 & Hrun1 & Hlen1 & _).
  rewrite Hrun in Hrun1. injection Hrun1 as <-.
  unfold bucket. apply (proj1 (Forall_lookup_total _ _) Hall). lia.
Qed.

(** The histogram conserves the samples: the counts add up to their
    number and the weighted counts to the sum of their luminances. *)
Lemma frame_loop_sums samples self :
  Forall (fun s => 0 <= s.2 <= 255) samples ->
  Z.of_nat (length samples) < 2 ^ 32 ->
  process_frames samples VideoMorseDecode_new = Done self ->
  total_count (m_frame_luminance_histogram self) = Z.of_nat (length samples)
  /\ weighted_sum (m_frame_luminance_histogram self)
     = luminance_total samples.
Proof.
  intros Hr Hlen Hrun.
  destruct (occurrences_total samples Hr) as [H1 H2].
  unfold total_count, weighted_sum. rewrite <- H1, <- H2.
  split; apply sumZ_ext; intros n Hn%elem_of_seqZ;
    now rewrite (frame_loop_buckets samples self Hr Hlen Hrun n) by lia.
Qed.

Lemma luminance_total_bounds samples :
  Forall (fun s => 0 <= s.2 <= 255) samples ->
  0 <= luminance_total samples <= 255 * Z.of_nat (length samples).
Proof.
  unfold luminance_total.
  induction 1 as [|s samples Hs _ IH]; [done|].
  rewrite sumZ_cons. simpl length. lia.
Qed.

Lemma calculateHistogram_value self :
  length (m_frame_luminance_histogram self) = 256%nat ->
  to_unsigned (total_count (m_frame_luminance_histogram self)) <> 0 ->
  calculateHistogram self
  = Done {| m_frame_luminance_histogram := m_frame_luminance_histogram self;
            m_frames := m_frames self;
            m_signals := m_signals self;
            m_mean_luminance :=
              to_int (to_unsigned
                        (weighted_sum (m_frame_luminance_histogram self))
                      / to_unsigned
                          (total_count (m_frame_luminance_histogram self))) |}.
Proof.
  intros Hlen Hne. unfold calculateHistogram.
  rewrite histogram_loop_result, bind_Done by done. simpl.
  rewrite bool_decide_false by done.
  now rewrite to_unsigned_to_int, to_unsigned_idem.
Qed.

End MeanFacts.

(** For every non-empty sequence of fewer than 2^32 samples the frame
    loop and [calculateHistogram] complete, and the divisor of the
    mean-brightness computation is the number of samples, which is not
    zero. *)
Theorem mean_divisor_is_sample_count (samples : list (Z * Z)) :
  samples <> [] ->
  Forall (fun s => 0 <= s.2 <= 255) samples ->
  Z.of_nat (length samples) < 2 ^ 32 ->
  exists self acc self',
    process_frames samples VideoMorseDecode_new = Done self
    /\ histogram_loop (m_frame_luminance_histogram self) (0, 0)
                      histogram_indices = Done acc
    /\ acc.2 = Z.of_nat (length samples)
    /\ acc.2 <> 0
    /\ calculateHistogram self = Done self'.
Proof.
  intros Hne Hr Hlen.
  destruct (process_frames_Done samples Hr VideoMorseDecode_new
              new_histogram_length)
    as (self & Hrun & Hlen256 & _).
  destruct (frame_loop_sums samples self Hr Hlen Hrun) as [Hcount _].
  assert (Hpos : 0 < Z.of_nat (length samples)).
  { destruct samples; [done|simpl; lia]. }
  exists self. eexists. eexists. split; [exact Hrun|].
  split; [now apply histogram_loop_result|]. simpl.
  rewrite Hcount, to_unsigned_small by lia.
  split; [done|]. split; [lia|].
  apply calculateHistogram_value; [done|].
  rewrite Hcount, to_unsigned_small; lia.
Qed.

Lemma mean_divisor_is_sample_count_witness :
  exists self acc self',
    process_frames [(0, 10); (1, 200)] VideoMorseDecode_new = Done self
    /\ histogram_loop (m_frame_luminance_histogram self) (0, 0)
                      histogram_indices = Done acc
    /\ acc.2 = 2
    /\ acc.2 <> 0
    /\ calculateHistogram self = Done self'.
Proof.
  apply (mean_divisor_is_sample_count [(0, 10); (1, 200)]).
  - discriminate.
  - repeat constructor; simpl; lia.
  - simpl. lia.
Defined.

(** C3.  The code has no check for an empty input: on the empty sample
    sequence the frame loop leaves the histogram at zero,
    [calculateHistogram] computes the mean as 0 / 0, and the run ends
    there, in a division by zero. *)
Theorem empty_input_divides_by_zero :
  process_frames [] VideoMorseDecode_new = Done VideoMorseDecode_new
  /\ calculateHistogram VideoMorseDecode_new = Undefined DivisionByZero
  /\ segmented [] = Undefined DivisionByZero
  /\ (forall (D : Util.Double) (Srt : Util.StdSort) (fuel : nat),
         decode_samples fuel [] = Undefined DivisionByZero).
Proof.
  assert (H : calculateHistogram VideoMorseDecode_new
              = Undefined DivisionByZero) by (vm_compute; reflexivity).
  split; [reflexivity|]. split; [exact H|]. split.
  - unfold segmented.
    change (process_frames [] VideoMorseDecode_new)
      with (Done VideoMorseDecode_new).
    rewrite bind_Done, H. reflexivity.
  - intros D Srt fuel. unfold decode_samples.
    change (process_frames [] VideoMorseDecode_new)
      with (Done VideoMorseDecode_new).
    rewrite bind_Done. unfold run. rewrite H. reflexivity.
Qed.

(** C9 (as amended).  For every non-empty sample sequence whose number of
    samples and sum of luminances are below 2^32, the computed mean is
    Σ(value·count) over the 256 buckets divided by the number of samples,
    the quotient truncated toward zero. *)
Theorem mean_luminance_value (samples : list (Z * Z)) :
  samples <> [] ->
  Forall (fun s => 0 <= s.2 <= 255) samples ->
  Z.of_nat (length samples) < 2 ^ 32 ->
  luminance_total samples < 2 ^ 32 ->
  exists self self',
    process_frames samples VideoMorseDecode_new = Done self
    /\ calculateHistogram self = Done self'
    /\ total_count (m_frame_luminance_histogram self)
       = Z.of_nat (length samples)
    /\ weighted_sum (m_frame_luminance_histogram self)
       = luminance_total samples
    /\ m_mean_luminance self'
       = Z.quot (weighted_sum (m_frame_luminance_histogram self))
                (Z.of_nat (length samples)).
Proof.
  intros Hne Hr Hlen Hsum.
  destruct (process_frames_Done samples Hr VideoMorseDecode_new
              new_histogram_length)
    as (self & Hrun & Hlen256 & _).
  destruct (frame_loop_sums samples self Hr Hlen Hrun) as [Hcount Hweight].
  pose proof (luminance_total_bounds samples Hr) as Hb.
  assert (Hpos : 0 < Z.of_nat (length samples)).
  { destruct samples; [done|simpl; lia]. }
  exists self. eexists. split; [exact Hrun|].
  split; [apply calculateHistogram_value; [done|]|].
  { rewrite Hcount, to_unsigned_small; lia. }
  split; [done|]. split; [done|]. simpl.
  rewrite Hcount, Hweight, !to_unsigned_small by lia.
  rewrite Z.quot_div_nonneg by lia.
  apply to_int_small. unfold INT_MAX.
  assert (luminance_total samples / Z.of_nat (length samples) <= 255).
  { apply Z.div_le_upper_bound; lia. }
  assert (0 <= luminance_total samples / Z.of_nat (length samples)).
  { apply Z.div_pos; lia. }
  lia.
Qed.

Lemma mean_luminance_value_witness :
  exists self self',
    process_frames [(0, 10); (1, 200); (2, 255)] VideoMorseDecode_new
    = Done self
    /\ calculateHistogram self = Done self'
    /\ total_count (m_frame_luminance_histogram self) = 3
    /\ weighted_sum (m_frame_luminance_histogram self) = 465
    /\ m_mean_luminance self'
       = Z.quot (weighted_sum (m_frame_luminance_histogram self)) 3.
Proof.
  apply (mean_luminance_value [(0, 10); (1, 200); (2, 255)]).
  - discriminate.
  - repeat constructor; simpl; lia.
  - simpl. lia.
  - vm_compute. reflexivity.
Defined.

Section LongVideo.

Lemma occurrences_const b n samples :
  Forall (fun s => s.2 = b) samples ->
  occurrences n samples
  = if bool_decide (b = n) then Z.of_nat (length samples) else 0.
Proof.
  induction 1 as [|s samples Hs _ IH].
  - now case_bool_decide.
  - rewrite occurrences_cons, IH, Hs. simpl length.
    case_bool_decide; lia.
Qed.

Lemma long_bright_video_length :
  Z.of_nat (length long_bright_video) = 16843010.
Proof.
  unfold long_bright_video. rewrite length_fmap, length_seqZ.
  now rewrite Z2Nat.id.
Qed.

Lemma long_bright_video_white :
  Forall (fun s => s.2 = 255) long_bright_video.
Proof.
  unfold long_bright_video. apply Forall_fmap, Forall_forall. now intros.
Qed.

End LongVideo.

(** C9, the claim as stated fails: after 16 843 010 frames of luminance
    255 the sum Σ(value·count) = 4 294 967 550 has wrapped to 254, and the
    computed mean is 254 / 16 843 010 = 0 instead of 255. *)
Lemma long_video_mean_is_zero :
  exists self self',
    process_frames long_bright_video VideoMorseDecode_new = Done self
    /\ calculateHistogram self = Done self'
    /\ m_mean_luminance self' = 0
    /\ Z.quot (weighted_sum (m_frame_luminance_histogram self))
              (Z.of_nat (length long_bright_video)) = 255.
Proof.
  pose proof long_bright_video_length as Hlen.
  pose proof long_bright_video_white as Hw.
  assert (Hr : Forall (fun s => 0 <= s.2 <= 255) long_bright_video).
  { eapply Forall_impl; [exact Hw|]. intros s ->. lia. }
  destruct (process_frames_Done _ Hr VideoMorseDecode_new
              new_histogram_length) as (self & Hrun & Hlen256 & _).
  assert (Hb : forall n, 0 <= n < 256 ->
             bucket (m_frame_luminance_histogram self) n
             = if bool_decide (255 = n) then 16843010 else 0).
  { intros n Hn.
    rewrite (frame_loop_buckets _ self Hr ltac:(rewrite Hlen; lia) Hrun n Hn).
    now rewrite (occurrences_const 255 n _ Hw), Hlen. }
  assert (Hweight : weighted_sum (m_frame_luminance_histogram self)
                    = 4294967550).
  { unfold weighted_sum.
    rewrite (sumZ_ext _ (fun n => if bool_decide (255 = n)
                                  then n * 16843010 else 0)).
    - rewrite (sumZ_pick (fun n => n * 16843010) 255 _ (NoDup_seqZ _ _));
        [reflexivity|]. apply elem_of_seqZ. lia.
    - intros n Hn%elem_of_seqZ. rewrite Hb by lia. case_bool_decide; lia. }
  assert (Hcount : total_count (m_frame_luminance_histogram self)
                   = 16843010).
  { unfold total_count.
    rewrite (sumZ_ext _ (fun n => if bool_decide (255 = n)
                                  then 16843010 else 0)).
    - rewrite (sumZ_pick (fun _ => 16843010) 255 _ (NoDup_seqZ _ _));
        [reflexivity|]. apply elem_of_seqZ. lia.
    - intros n Hn%elem_of_seqZ. now rewrite Hb by lia. }
  exists self. eexists. split; [exact Hrun|].
  split; [apply calculateHistogram_value; [done|]|].
  { rewrite Hcount. vm_compute. discriminate. }
  cbn [m_mean_luminance]. rewrite Hweight, Hcount, Hlen.
  split; reflexivity.
Qed.


(** ** The peak detector *)

Section PeakDetectorFacts.

Context {D : Util.Double} {Srt : Util.StdSort}.










(** The loop that copies the first [count] points. *)
Lemma first_points_take count (tp : list (Z * Z)) :
  0 <= count <= INT_MAX ->
  Util.first_points count tp = take (Z.to_nat count) tp.*1.
Proof.
  revert count. induction tp as [|p tp IH]; intros count Hc; simpl.
  - now rewrite take_nil.
  - case_bool_decide as H0.
    + subst count. reflexivity.
    + rewrite to_int_small by (unfold INT_MAX in *; lia).
      rewrite IH by lia.
      replace (Z.to_nat count) with (S (Z.to_nat (count - 1))) by lia.
      reflexivity.
Qed.

(** Whatever the result of the conversions to [int], a turning point is
    a position of the array. *)
Lemma scan_positions o (idx : list Z) (st : Util.scan_state) :
  Forall (fun p => 0 <= p.1) (Util.tp st) ->
  Forall (fun p => 0 <= p.1) (Util.tp (foldl (Util.scan_step o) st idx)).
Proof.
  revert st. induction idx as [|i idx IH]; intros st Hst; [done|]. simpl.
  apply IH. unfold Util.scan_step. cbn [Util.tp].
  destruct (bool_decide (0 < i)) eqn:Hi; simpl; [|done].
  apply bool_decide_eq_true in Hi.
  destruct (_ && _); [|done].
  apply Forall_app. split; [done|]. apply Forall_singleton. simpl. lia.
Qed.

Lemma turning_points_positions o :
  Forall (fun p => 0 <= p.1) (Util.turning_points o).
Proof.
  unfold Util.turning_points.
  assert (H : Forall (fun p => 0 <= p.1) (Util.tp (Util.scan o))).
  { apply scan_positions. constructor. }
  case_bool_decide as Hd; [|done].
  apply Forall_app. split; [done|]. apply Forall_singleton. simpl.
  destruct o; [|simpl; lia].
  exfalso. unfold Util.scan in Hd. simpl in Hd. lia.
Qed.

Lemma first_points_subset count (tp : list (Z * Z)) x :
  x ∈ Util.first_points count tp -> x ∈ tp.*1.
Proof.
  revert count. induction tp as [|p tp IH]; intros count; simpl.
  - intros []%elem_of_nil.
  - case_bool_decide; [intros []%elem_of_nil|].
    intros [->|H']%elem_of_cons; [now left|]. right. eapply IH, H'.
Qed.

(** A conversion that is defined gives a value of [int]. *)
Lemma double_to_int_Done t n :
  Util.double_to_int t = Done n -> - 2 ^ 31 <= n <= INT_MAX.
Proof.
  unfold Util.double_to_int. destruct (Util.d_to_int t) as [m|]; [|discriminate].
  case_bool_decide; [|discriminate]. now intros [= <-].
Qed.

Lemma double_to_int_fuel t : Util.double_to_int t <> OutOfFuel.
Proof.
  unfold Util.double_to_int. destruct (Util.d_to_int t) as [m|]; [|discriminate].
  case_bool_decide; discriminate.
Qed.

Lemma filter_loop_Done s window_size idx o :
  Util.filter_loop s window_size idx = Done o ->
  length o = length idx
  /\ Forall (fun x => - 2 ^ 31 <= x <= INT_MAX) o.
Proof.
  revert o. induction idx as [|i idx IH]; intros o; simpl.
  - intros [= <-]. split; [done|constructor].
  - intros (n & Hn & H)%bind_Done_inv.
    apply bind_Done_inv in H as (o' & Ho' & [= <-]).
    destruct (IH o' Ho') as [Hlen Hall].
    split; [simpl; now rewrite Hlen|].
    constructor; [now apply double_to_int_Done in Hn|done].
Qed.

Lemma filter_loop_fuel s window_size idx :
  Util.filter_loop s window_size idx <> OutOfFuel.
Proof.
  induction idx as [|i idx IH]; simpl; [discriminate|].
  pose proof (double_to_int_fuel (Util.filter_sum s window_size i)) as Hn.
  destruct (Util.double_to_int _) as [n| |]; [|discriminate|done].
  rewrite bind_Done.
  destruct (Util.filter_loop s window_size idx) as [o| |];
    [discriminate|discriminate|done].
Qed.

(** The smoothed array, when all its conversions are defined: as long as
    [s], with values of [int]. *)
Lemma gaussian_filter_Done s window_size o :
  Util.gaussian_filter s window_size = Done o ->
  length o = length s
  /\ Forall (fun x => - 2 ^ 31 <= x <= INT_MAX) o.
Proof.
  unfold Util.gaussian_filter. intros [Hlen Hall]%filter_loop_Done.
  split; [|done]. rewrite Hlen, length_seqZ. lia.
Qed.

(** What a call that returns has done. *)
Lemma get_local_maximums_Done vf count window_size r :
  Util.get_local_maximums vf count window_size = Done r ->
  exists last o,
    Util.rbegin_first vf = Done last
    /\ map_Forall (fun k _ => 0 <= k) vf
    /\ Util.gaussian_filter (Util.to_vector vf (last + 1)) window_size
       = Done o
    /\ r = Util.first_points count (Util.std_sort (Util.turning_points o)).
Proof.
  unfold Util.get_local_maximums.
  intros (last & Hlast & H)%bind_Done_inv.
  case_bool_decide as Hkeys; [|discriminate].
  apply bind_Done_inv in H as (o & Ho & [= <-]).
  now exists last, o.
Qed.

(** The peaks returned are positions of the array: never negative. *)
Lemma get_local_maximums_positions vf count window_size r :
  Util.get_local_maximums vf count window_size = Done r ->
  Forall (fun x => 0 <= x) r.
Proof.
  intros (last & o & _ & _ & _ & ->)%get_local_maximums_Done.
  apply Forall_forall. intros x Hx%first_points_subset.
  apply list_elem_of_fmap in Hx as (p & -> & Hp).
  rewrite Util.std_sort_perm in Hp.
  exact (proj1 (Forall_forall _ _) (turning_points_positions _) p Hp).
Qed.

End PeakDetectorFacts.

Section LargestKey.

Lemma foldr_max_spec (k0 : Z) (rest : list (Z * Z)) :
  let r := foldr (fun e acc => Z.max e.1 acc) k0 rest in
  (r = k0 \/ r ∈ rest.*1) /\ k0 <= r /\ Forall (fun e => e.1 <= r) rest.
Proof.
  induction rest as [|e rest IH]; cbv zeta in *; simpl.
  - split; [now left|]. split; [lia|constructor].
  - destruct IH as ([Heq|Hin] & Hle & Hall).
    + split; [|split; [lia|]].
      * destruct (Z.max_spec e.1 (foldr (fun e acc => Z.max e.1 acc) k0 rest))
          as [[_ ->]|[_ ->]]; [now left|right; now left].
      * constructor; [lia|]. eapply Forall_impl; [exact Hall|].
        intros x Hx. simpl in *. lia.
    + split; [|split; [lia|]].
      * right.
        destruct (Z.max_spec e.1 (foldr (fun e acc => Z.max e.1 acc) k0 rest))
          as [[_ ->]|[_ ->]]; [now right|now left].
      * constructor; [lia|]. eapply Forall_impl; [exact Hall|].
        intros x Hx. simpl in *. lia.
Qed.

(** On a map that is not empty [rbegin] is defined, and its key is the
    largest of the map. *)
Lemma rbegin_first_spec (vf : gmap Z Z) :
  vf <> ∅ ->
  exists last,
    Util.rbegin_first vf = Done last
    /\ is_Some (vf !! last)
    /\ forall k, is_Some (vf !! k) -> k <= last.
Proof.
  intros Hne. unfold Util.rbegin_first.
  destruct (map_to_list vf) as [|[k0 v0] rest] eqn:Hl.
  { now apply map_to_list_empty_iff in Hl. }
  eexists. split; [reflexivity|].
  destruct (foldr_max_spec k0 rest) as (Hin & Hle & Hall). simpl.
  set (r := foldr _ _ _) in *.
  assert (Hkey : forall k v, vf !! k = Some v <-> (k, v) ∈ (k0, v0) :: rest).
  { intros k v. rewrite <- Hl. symmetry. apply elem_of_map_to_list. }
  split.
  - destruct Hin as [->|Hin].
    + exists v0. apply Hkey. now left.
    + apply list_elem_of_fmap in Hin as ([k v] & -> & Hin).
      exists v. apply Hkey. now right.
  - intros k [v Hv]. apply Hkey in Hv.
    apply elem_of_cons in Hv as [[= -> ->]|Hv]; [done|].
    exact (proj1 (Forall_forall _ _) Hall (k, v) Hv).
Qed.

End LargestKey.



(** ** The morse assembler *)

Section AssemblerFacts.

Lemma assemble_concat off0 off1 on0 sigs :
  assemble off0 off1 on0 sigs
  = concat (morse_token off0 off1 on0 <$> sigs).
Proof.
  unfold assemble.
  assert (H : forall acc,
             foldl (fun morse signal =>
                      morse ++ morse_token off0 off1 on0 signal) acc sigs
             = acc ++ concat (morse_token off0 off1 on0 <$> sigs)).
  { induction sigs as [|s sigs IH]; intros acc; simpl.
    - now rewrite app_nil_r.
    - now rewrite IH, app_assoc. }
  apply H.
Qed.

Lemma count_if_concat P (l : list std_string) :
  Forall (fun t => count_if P t = 0%nat) l -> count_if P (concat l) = 0%nat.
Proof.
  induction 1 as [|t l Ht _ IH]; [done|].
  simpl. now rewrite count_if_app, Ht, IH.
Qed.

(** When all pulses have one and the same duration, the assembled string
    is without dots or without dashes, whatever the thresholds. *)
Lemma assemble_uniform_pulses off0 off1 on0 sigs dur :
  Forall (fun s => state s <> 0 -> duration s = dur) sigs ->
  count_if is_dot (assemble off0 off1 on0 sigs) = 0%nat
  \/ count_if is_dash (assemble off0 off1 on0 sigs) = 0%nat.
Proof.
  intros Hall. rewrite assemble_concat.
  destruct (decide (dur < to_unsigned on0)) as [Hlt|Hge]; [right|left];
    apply count_if_concat, Forall_fmap;
    (eapply Forall_impl; [exact Hall|]); intros s Hs; simpl;
    unfold morse_token; repeat case_bool_decide; try reflexivity;
    specialize (Hs ltac:(done)); lia.
Qed.

End AssemblerFacts.

(** The token of one Signal, for thresholds [0 <= off0 <= off1] and
    [0 <= on0] that fit [int]. *)
Lemma morse_token_cases (off0 off1 on0 : Z) (s : Signal) :
  0 <= off0 <= off1 -> off1 <= INT_MAX -> 0 <= on0 <= INT_MAX ->
  (state s = 0 -> duration s < off0 ->
   morse_token off0 off1 on0 s = [])
  /\ (state s = 0 -> off0 <= duration s < off1 ->
      morse_token off0 off1 on0 s = str " ")
  /\ (state s = 0 -> off1 <= duration s ->
      morse_token off0 off1 on0 s = str " | ")
  /\ (state s <> 0 -> duration s < on0 ->
      morse_token off0 off1 on0 s = str ".")
  /\ (state s <> 0 -> on0 <= duration s ->
      morse_token off0 off1 on0 s = str "-").
Proof.
  intros Hoff Hoff1 Hon. unfold morse_token, INT_MAX in *.
  rewrite !to_unsigned_small by lia.
  repeat split; intros; repeat case_bool_decide; try reflexivity; lia.
Qed.

(** ** Thresholds *)

Section ThresholdFacts.

Context {D : Util.Double} {Srt : Util.StdSort}.

Lemma get_local_maximums_length vf count window_size r :
  0 <= count <= INT_MAX ->
  Util.get_local_maximums vf count window_size = Done r ->
  (length r <= Z.to_nat count)%nat.
Proof.
  intros Hc (last & o & _ & _ & _ & ->)%get_local_maximums_Done.
  rewrite first_points_take by done. rewrite length_take. lia.
Qed.

Lemma vec_get_lookup {A} (v : list A) (i : nat) (x : A) :
  vec_get v (Z.of_nat i) = Done x <-> v !! i = Some x.
Proof. rewrite vec_get_Done, Nat2Z.id. split; [now intros [_ H]|]. split; [lia|done]. Qed.

Lemma off_threshold_values_Done peaks thr :
  off_threshold_values peaks = Done thr ->
  exists p0 p1 p2,
    peaks !! 0%nat = Some p0 /\ peaks !! 1%nat = Some p1
    /\ peaks !! 2%nat = Some p2
    /\ thr = [midpoint p0 p1; midpoint p1 p2].
Proof.
  unfold off_threshold_values.
  intros (p0 & H0 & H)%bind_Done_inv.
  apply bind_Done_inv in H as (p1 & H1 & H).
  apply bind_Done_inv in H as (p2 & H2 & [= <-]).
  exists p0, p1, p2.
  apply (vec_get_lookup _ 0) in H0. apply (vec_get_lookup _ 1) in H1.
  apply (vec_get_lookup _ 2) in H2. done.
Qed.

Lemma on_threshold_values_Done peaks thr :
  on_threshold_values peaks = Done thr ->
  exists p0 p1,
    peaks !! 0%nat = Some p0 /\ peaks !! 1%nat = Some p1
    /\ thr = [midpoint p0 p1].
Proof.
  unfold on_threshold_values.
  intros (p0 & H0 & H)%bind_Done_inv.
  apply bind_Done_inv in H as (p1 & H1 & [= <-]).
  exists p0, p1.
  apply (vec_get_lookup _ 0) in H0. apply (vec_get_lookup _ 1) in H1. done.
Qed.

Lemma midpoint_quot a b :
  0 <= a -> 0 <= b -> a + b <= INT_MAX -> midpoint a b = Z.quot (a + b) 2.
Proof.
  intros Ha Hb Hsum. unfold midpoint.
  rewrite to_int_small; [done|]. unfold INT_MAX in *. lia.
Qed.

Lemma midpoints_increase p0 p1 p2 :
  0 <= p0 -> p0 < p1 -> p1 < p2 ->
  Z.quot (p0 + p1) 2 < Z.quot (p1 + p2) 2.
Proof.
  intros H0 H1 H2. rewrite !Z.quot_div_nonneg by lia.
  Z.div_mod_to_equations. lia.
Qed.

(** The sorted peaks: as many as returned, in ascending order, none
    negative. *)
Lemma sorted_peaks vf count window_size r :
  Util.get_local_maximums vf count window_size = Done r ->
  length (merge_sort Z.le r) = length r
  /\ StronglySorted Z.le (merge_sort Z.le r)
  /\ Forall (fun x => 0 <= x) (merge_sort Z.le r).
Proof.
  intros Hr. split; [|split].
  - apply Permutation_length, merge_sort_Permutation.
  - apply (StronglySorted_merge_sort Z.le).
  - rewrite merge_sort_Permutation.
    eapply get_local_maximums_positions, Hr.
Qed.

Lemma off_threshold_values_short peaks :
  (length peaks < 3)%nat ->
  off_threshold_values peaks = Undefined IndexOutOfRange.
Proof.
  intros Hlen. unfold off_threshold_values.
  destruct peaks as [|p0 [|p1 [|p2 l]]]; simpl in Hlen; try lia;
    reflexivity.
Qed.

Lemma on_threshold_values_short peaks :
  (length peaks < 2)%nat ->
  on_threshold_values peaks = Undefined IndexOutOfRange.
Proof.
  intros Hlen. unfold on_threshold_values.
  destruct peaks as [|p0 [|p1 l]]; simpl in Hlen; try lia; reflexivity.
Qed.

Lemma off_threshold_values_three p0 p1 p2 :
  off_threshold_values [p0; p1; p2]
  = Done [midpoint p0 p1; midpoint p1 p2].
Proof. reflexivity. Qed.

(** With fewer peaks than [processSignals] reads, the read is past the
    end of a peak vector. *)
Lemma processSignals_too_few_peaks self off :
  Util.get_local_maximums (duration_histograms (m_signals self)).1 3
                          gaussian_window_size = Done off ->
  (length off < 3)%nat
  \/ (exists on,
        Util.get_local_maximums (duration_histograms (m_signals self)).2 2
                                gaussian_window_size = Done on
        /\ (length on < 2)%nat) ->
  processSignals self = Undefined IndexOutOfRange.
Proof.
  intros Hoff Hfew. unfold processSignals. rewrite Hoff, bind_Done.
  destruct (sorted_peaks _ _ _ _ Hoff) as (Hlen & _).
  pose proof (get_local_maximums_length _ 3 _ _
                ltac:(unfold INT_MAX; lia) Hoff) as Hle.
  destruct (decide (length off < 3)%nat) as [Hshort|Hfull].
  - now rewrite off_threshold_values_short by lia.
  - destruct Hfew as [Hshort|(on & Hon & Hshort)]; [lia|].
    destruct (merge_sort Z.le off) as [|a0 [|a1 [|a2 [|a3 l]]]];
      simpl in Hlen; try lia.
    rewrite off_threshold_values_three, bind_Done, Hon, bind_Done.
    destruct (sorted_peaks _ _ _ _ Hon) as (Glen & _).
    now rewrite on_threshold_values_short by lia.
Qed.

(** What a call of [processSignals] that returns has computed. *)
Lemma processSignals_Done self sr :
  processSignals self = Done sr ->
  exists p0 p1 p2 q0 q1,
    off_time_peaks sr = [p0; p1; p2] /\ 0 <= p0 <= p1 /\ p1 <= p2
    /\ on_time_peaks sr = [q0; q1] /\ 0 <= q0 <= q1
    /\ off_thresholds sr = [midpoint p0 p1; midpoint p1 p2]
    /\ on_thresholds sr = [midpoint q0 q1]
    /\ morse sr
       = assemble (midpoint p0 p1) (midpoint p1 p2) (midpoint q0 q1)
                  (m_signals self).
Proof.
  unfold processSignals. intros H.
  apply bind_Done_inv in H as (off & Hoff & H).
  apply bind_Done_inv in H as (off_thr & Hoff_thr & H).
  apply bind_Done_inv in H as (on & Hon & H).
  apply bind_Done_inv in H as (on_thr & Hon_thr & [= <-]).
  cbn [off_time_peaks on_time_peaks off_thresholds on_thresholds morse].
  apply off_threshold_values_Done in Hoff_thr
    as (p0 & p1 & p2 & H0 & H1 & H2 & ->).
  apply on_threshold_values_Done in Hon_thr as (q0 & q1 & G0 & G1 & ->).
  destruct (sorted_peaks _ _ _ _ Hoff) as (Hlen & Hsorted & Hpos).
  destruct (sorted_peaks _ _ _ _ Hon) as (Glen & Gsorted & Gpos).
  pose proof (get_local_maximums_length _ 3 _ _
                ltac:(unfold INT_MAX; lia) Hoff) as Hle.
  pose proof (get_local_maximums_length _ 2 _ _
                ltac:(unfold INT_MAX; lia) Hon) as Gle.
  destruct (merge_sort Z.le off) as [|a0 [|a1 [|a2 [|a3 l]]]];
    try discriminate; [|simpl in Hlen; lia].
  destruct (merge_sort Z.le on) as [|b0 [|b1 [|b2 l]]];
    try discriminate; [|simpl in Glen; lia].
  injection H0 as ->. injection H1 as ->. injection H2 as ->.
  injection G0 as ->. injection G1 as ->.
  exists p0, p1, p2, q0, q1.
  apply StronglySorted_inv in Hsorted as [Hs1 Hs0].
  apply StronglySorted_inv in Hs1 as [_ Hs1].
  apply Forall_cons in Hs0 as [Hs01 _].
  apply Forall_cons in Hs1 as [Hs12 _].
  apply StronglySorted_inv in Gsorted as [_ Gs0].
  apply Forall_cons in Gs0 as [Gs01 _].
  apply Forall_cons in Hpos as [Hp0 _]. apply Forall_cons in Gpos as [Gp0 _].
  split; [done|]. split; [lia|]. split; [lia|]. split; [done|].
  split; [lia|]. split; [reflexivity|]. split; reflexivity.
Qed.

End ThresholdFacts.

(** C5.  Whenever [processSignals] completes, the sorted OFF peaks are
    three durations [0 <= p0 <= p1 <= p2] and the sorted ON peaks two
    durations [0 <= q0 <= q1]; where the sums fit [int], the thresholds
    are the midpoints truncated toward zero,
    [off_thresholds = [(p0 + p1) / 2, (p1 + p2) / 2]] and
    [on_thresholds = [(q0 + q1) / 2]], and if the OFF peaks are distinct
    the first OFF threshold is strictly below the second. *)
Theorem thresholds_are_midpoints {D : Util.Double} {Srt : Util.StdSort}
    (self : VideoMorseDecode) (sr : signal_report) :
  processSignals self = Done sr ->
  exists p0 p1 p2 q0 q1,
    off_time_peaks sr = [p0; p1; p2] /\ 0 <= p0 <= p1 /\ p1 <= p2
    /\ on_time_peaks sr = [q0; q1] /\ 0 <= q0 <= q1
    /\ (p1 + p2 <= INT_MAX ->
        off_thresholds sr = [Z.quot (p0 + p1) 2; Z.quot (p1 + p2) 2]
        /\ (p0 < p1 -> p1 < p2 ->
            Z.quot (p0 + p1) 2 < Z.quot (p1 + p2) 2))
    /\ (q0 + q1 <= INT_MAX -> on_thresholds sr = [Z.quot (q0 + q1) 2]).
Proof.
  unfold processSignals. intros H.
  apply bind_Done_inv in H as (off & Hoff & H).
  apply bind_Done_inv in H as (off_thr & Hoff_thr & H).
  apply bind_Done_inv in H as (on & Hon & H).
  apply bind_Done_inv in H as (on_thr & Hon_thr & [= <-]).
  cbn [off_time_peaks on_time_peaks off_thresholds on_thresholds].
  apply off_threshold_values_Done in Hoff_thr
    as (p0 & p1 & p2 & H0 & H1 & H2 & ->).
  apply on_threshold_values_Done in Hon_thr as (q0 & q1 & G0 & G1 & ->).
  destruct (sorted_peaks _ _ _ _ Hoff) as (Hlen & Hsorted & Hpos).
  destruct (sorted_peaks _ _ _ _ Hon) as (Glen & Gsorted & Gpos).
  pose proof (get_local_maximums_length _ 3 _ _
                ltac:(unfold INT_MAX; lia) Hoff) as Hle.
  pose proof (get_local_maximums_length _ 2 _ _
                ltac:(unfold INT_MAX; lia) Hon) as Gle.
  destruct (merge_sort Z.le off) as [|a0 [|a1 [|a2 [|a3 l]]]];
    try discriminate; [|simpl in Hlen; lia].
  destruct (merge_sort Z.le on) as [|b0 [|b1 [|b2 l]]];
    try discriminate; [|simpl in Glen; lia].
  injection H0 as ->. injection H1 as ->. injection H2 as ->.
  injection G0 as ->. injection G1 as ->.
  exists p0, p1, p2, q0, q1.
  apply StronglySorted_inv in Hsorted as [Hs1 Hs0].
  apply StronglySorted_inv in Hs1 as [_ Hs1].
  apply Forall_cons in Hs0 as [Hs01 _].
  apply Forall_cons in Hs1 as [Hs12 _].
  apply StronglySorted_inv in Gsorted as [_ Gs0].
  apply Forall_cons in Gs0 as [Gs01 _].
  apply Forall_cons in Hpos as [Hp0 _]. apply Forall_cons in Gpos as [Gp0 _].
  split; [done|]. split; [lia|]. split; [lia|]. split; [done|].
  split; [lia|]. split.
  - intros Hsum. split.
    + now rewrite !midpoint_quot by lia.
    + intros. now apply midpoints_increase.
  - intros Hsum. now rewrite midpoint_quot by lia.
Qed.

(** With enough peaks the reads are inside the peak vectors: whenever
    the detector returns three OFF peaks and two ON peaks,
    [processSignals] completes with the sorted peaks, two OFF thresholds
    and one ON threshold. *)
Theorem enough_peaks_give_thresholds {D : Util.Double} {Srt : Util.StdSort}
    (self : VideoMorseDecode) (off on : list Z) :
  Util.get_local_maximums (duration_histograms (m_signals self)).1 3
                          gaussian_window_size = Done off ->
  Util.get_local_maximums (duration_histograms (m_signals self)).2 2
                          gaussian_window_size = Done on ->
  length off = 3%nat -> length on = 2%nat ->
  exists sr,
    processSignals self = Done sr
    /\ off_time_peaks sr = merge_sort Z.le off
    /\ on_time_peaks sr = merge_sort Z.le on
    /\ length (off_thresholds sr) = 2%nat
    /\ length (on_thresholds sr) = 1%nat.
Proof.
  intros Hoff Hon Hlen Glen. unfold processSignals.
  rewrite Hoff, bind_Done.
  destruct (sorted_peaks _ _ _ _ Hoff) as (Hlen' & _).
  destruct (sorted_peaks _ _ _ _ Hon) as (Glen' & _).
  destruct (merge_sort Z.le off) as [|a0 [|a1 [|a2 [|a3 l]]]] eqn:Hs;
    simpl in Hlen'; try lia.
  destruct (merge_sort Z.le on) as [|b0 [|b1 [|b2 l]]] eqn:Gs;
    simpl in Glen'; try lia.
  change (off_threshold_values [a0; a1; a2])
    with (Done [midpoint a0 a1; midpoint a1 a2]).
  rewrite bind_Done, Hon, bind_Done, Gs.
  change (on_threshold_values [b0; b1]) with (Done [midpoint b0 b1]).
  rewrite bind_Done. eexists. split; [reflexivity|]. done.
Qed.

Lemma thresholds_are_midpoints_witness :
  exists self sr,
    segmented flashing_samples = Done self
    /\ processSignals (D := Binary64.binary64) (Srt := MergeSort.sort) self
       = Done sr
    /\ off_time_peaks sr = [2; 6; 20] /\ off_thresholds sr = [4; 13]
    /\ on_time_peaks sr = [3; 9] /\ on_thresholds sr = [6].
Proof.
  destruct (segmented flashing_samples) as [self| |] eqn:Hseg;
    [|vm_compute in Hseg; discriminate..].
  exists self.
  destruct (processSignals (D := Binary64.binary64) (Srt := MergeSort.sort)
              self) as [sr| |] eqn:Hsr;
    [|vm_compute in Hseg; injection Hseg as <-;
      vm_compute in Hsr; discriminate..].
  exists sr. split; [reflexivity|]. split; [reflexivity|].
  destruct (thresholds_are_midpoints self sr Hsr)
    as (p0 & p1 & p2 & q0 & q1 & Hoff & _ & _ & Hon & _ & Hoff_thr & Hon_thr).
  vm_compute in Hseg. injection Hseg as <-.
  vm_compute in Hsr. injection Hsr as <-.
  cbn [off_time_peaks on_time_peaks off_thresholds on_thresholds] in *.
  injection Hoff as <- <- <-. injection Hon as <- <-.
  destruct (Hoff_thr ltac:(unfold INT_MAX; lia)) as [-> _].
  rewrite (Hon_thr ltac:(unfold INT_MAX; lia)).
  repeat split; reflexivity.
Defined.

Lemma enough_peaks_give_thresholds_witness :
  exists self sr,
    segmented flashing_samples = Done self
    /\ processSignals (D := Binary64.binary64) (Srt := MergeSort.sort) self
       = Done sr
    /\ off_time_peaks sr = [2; 6; 20] /\ on_time_peaks sr = [3; 9].
Proof.
  destruct (segmented flashing_samples) as [self| |] eqn:Hseg;
    [|vm_compute in Hseg; discriminate..].
  exists self.
  assert (Hoff : Util.get_local_maximums
                   (D := Binary64.binary64) (Srt := MergeSort.sort)
                   (duration_histograms (m_signals self)).1 3
                   gaussian_window_size = Done [20; 2; 6]).
  { vm_compute in Hseg. injection Hseg as <-. vm_compute. reflexivity. }
  assert (Hon : Util.get_local_maximums
                  (D := Binary64.binary64) (Srt := MergeSort.sort)
                  (duration_histograms (m_signals self)).2 2
                  gaussian_window_size = Done [3; 9]).
  { vm_compute in Hseg. injection Hseg as <-. vm_compute. reflexivity. }
  destruct (enough_peaks_give_thresholds self [20; 2; 6] [3; 9] Hoff Hon
              eq_refl eq_refl) as (sr & Hsr & Ho & Hn & _).
  exists sr. split; [reflexivity|]. split; [exact Hsr|].
  rewrite Ho, Hn. split; vm_compute; reflexivity.
Defined.

(** Frames of constant luminance 128 give one Signal, a break of
    duration 0; the OFF histogram yields no peak, and [processSignals]
    reads [off_time_peaks[0]] of an empty vector. *)
Lemma constant_brightness_reads_out_of_range :
  exists self,
    segmented [(0, 128); (1, 128); (2, 128)] = Done self
    /\ m_signals self = [{| state := 0; duration := 0 |}]
    /\ Util.get_local_maximums
         (D := Binary64.binary64) (Srt := MergeSort.sort)
         (duration_histograms (m_signals self)).1 3 gaussian_window_size
       = Done []
    /\ processSignals (D := Binary64.binary64) (Srt := MergeSort.sort) self
       = Undefined IndexOutOfRange.
Proof.
  eexists. split; [vm_compute; reflexivity|].
  split; [reflexivity|]. split; vm_compute; reflexivity.
Qed.

(** C1.  [processSignals] does not check the number of peaks.  Whenever
    the detector returns fewer than three OFF peaks, or fewer than two ON
    peaks, [processSignals] fails in no orderly way: it reads
    [off_time_peaks[0..2]] and [on_time_peaks[0..1]] all the same, past
    the end of a peak vector. *)
Theorem too_few_peaks_read_out_of_range
    {D : Util.Double} {Srt : Util.StdSort}
    (self : VideoMorseDecode) (off : list Z) :
  Util.get_local_maximums (duration_histograms (m_signals self)).1 3
                          gaussian_window_size = Done off ->
  (length off < 3)%nat
  \/ (exists on,
        Util.get_local_maximums (duration_histograms (m_signals self)).2 2
                                gaussian_window_size = Done on
        /\ (length on < 2)%nat) ->
  processSignals self = Undefined IndexOutOfRange.
Proof. apply processSignals_too_few_peaks. Qed.

Lemma too_few_peaks_read_out_of_range_witness :
  (exists self,
      segmented [(0, 128); (1, 128); (2, 128)] = Done self
      /\ m_signals self = [{| state := 0; duration := 0 |}]
      /\ processSignals (D := Binary64.binary64) (Srt := MergeSort.sort) self
         = Undefined IndexOutOfRange)
  /\ (exists self,
        segmented uniform_pulse_samples = Done self
        /\ processSignals (D := Binary64.binary64) (Srt := MergeSort.sort)
             self
           = Undefined IndexOutOfRange).
Proof.
  split.
  - destruct (segmented [(0, 128); (1, 128); (2, 128)]) as [self| |] eqn:Hseg;
      [|vm_compute in Hseg; discriminate Hseg..].
    exists self. split; [reflexivity|].
    vm_compute in Hseg. injection Hseg as <-.
    split; [reflexivity|].
    apply (too_few_peaks_read_out_of_range _ []).
    + vm_compute. reflexivity.
    + left. simpl. lia.
  - destruct (segmented uniform_pulse_samples) as [self| |] eqn:Hseg;
      [|vm_compute in Hseg; discriminate Hseg..].
    exists self. split; [reflexivity|].
    vm_compute in Hseg. injection Hseg as <-.
    apply (too_few_peaks_read_out_of_range _ [20; 2; 6]).
    + vm_compute. reflexivity.
    + right. exists [3]. split; [vm_compute; reflexivity|simpl; lia].
Defined.

(** C7.  Whenever [processSignals] completes, with peaks whose sums fit
    [int], the morse string it reports is made of one token for every
    Signal of the list, in order, chosen by the thresholds it reports:
    nothing for a break shorter than [off_thresholds[0]]; a space for a
    break of at least [off_thresholds[0]] and less than
    [off_thresholds[1]]; [" | "] for a break of at least
    [off_thresholds[1]]; a dot for a pulse shorter than
    [on_thresholds[0]]; a dash for a pulse of at least
    [on_thresholds[0]].  A duration equal to a threshold is in the higher
    bucket. *)
Theorem morse_token_buckets {D : Util.Double} {Srt : Util.StdSort}
    (self : VideoMorseDecode) (sr : signal_report) :
  processSignals self = Done sr ->
  Forall (fun p => 2 * p <= INT_MAX) (off_time_peaks sr) ->
  Forall (fun p => 2 * p <= INT_MAX) (on_time_peaks sr) ->
  exists off0 off1 on0 tokens,
    off_thresholds sr = [off0; off1]
    /\ on_thresholds sr = [on0]
    /\ morse sr = concat tokens
    /\ Forall2
         (fun s token =>
            (state s = 0 -> duration s < off0 -> token = [])
            /\ (state s = 0 -> off0 <= duration s < off1 ->
                token = str " ")
            /\ (state s = 0 -> off1 <= duration s -> token = str " | ")
            /\ (state s <> 0 -> duration s < on0 -> token = str ".")
            /\ (state s <> 0 -> on0 <= duration s -> token = str "-"))
         (m_signals self) tokens.
Proof.
  intros Hsr Hoff Hon.
  destruct (processSignals_Done self sr Hsr)
    as (p0 & p1 & p2 & q0 & q1 & Hop & H01 & H12 & Hqp & G01
        & Hoff_thr & Hon_thr & Hmorse).
  rewrite Hop in Hoff. rewrite Hqp in Hon.
  apply Forall_cons in Hoff as [_ Hoff].
  apply Forall_cons in Hoff as [F1 Hoff]. apply Forall_cons in Hoff as [F2 _].
  apply Forall_cons in Hon as [_ Hon]. apply Forall_cons in Hon as [G1 _].
  rewrite (midpoint_quot p0 p1), (midpoint_quot p1 p2) in Hoff_thr by lia.
  rewrite (midpoint_quot q0 q1) in Hon_thr by lia.
  rewrite (midpoint_quot p0 p1), (midpoint_quot p1 p2),
    (midpoint_quot q0 q1) in Hmorse by lia.
  exists (Z.quot (p0 + p1) 2), (Z.quot (p1 + p2) 2), (Z.quot (q0 + q1) 2).
  exists (morse_token (Z.quot (p0 + p1) 2) (Z.quot (p1 + p2) 2)
                      (Z.quot (q0 + q1) 2) <$> m_signals self).
  split; [exact Hoff_thr|]. split; [exact Hon_thr|].
  split; [rewrite Hmorse; apply assemble_concat|].
  apply Forall2_fmap_r, Forall_Forall2_diag, Forall_forall.
  intros s _. apply morse_token_cases.
  - rewrite !Z.quot_div_nonneg by lia.
    split; [apply Z.div_pos; lia|]. apply Z.div_le_mono; lia.
  - rewrite Z.quot_div_nonneg by lia.
    apply Z.div_le_upper_bound; unfold INT_MAX in *; lia.
  - rewrite Z.quot_div_nonneg by lia.
    split; [apply Z.div_pos; lia|].
    apply Z.div_le_upper_bound; unfold INT_MAX in *; lia.
Qed.

Lemma morse_token_buckets_witness :
  exists self sr tokens,
    segmented flashing_samples = Done self
    /\ processSignals (D := Binary64.binary64) (Srt := MergeSort.sort) self
       = Done sr
    /\ off_thresholds sr = [4; 13] /\ on_thresholds sr = [6]
    /\ morse sr = concat tokens
    /\ length tokens = length (m_signals self)
    /\ morse sr = str " | .- | .- | .- . - ".
Proof.
  destruct (segmented flashing_samples) as [self| |] eqn:Hseg;
    [|vm_compute in Hseg; discriminate Hseg..].
  exists self.
  destruct (processSignals (D := Binary64.binary64) (Srt := MergeSort.sort)
              self) as [sr| |] eqn:Hsr;
    [|vm_compute in Hseg; injection Hseg as <-;
      vm_compute in Hsr; discriminate Hsr..].
  exists sr.
  destruct (morse_token_buckets self sr Hsr)
    as (off0 & off1 & on0 & tokens & Hoff & Hon & Hmorse & Htokens).
  - vm_compute in Hseg. injection Hseg as <-.
    vm_compute in Hsr. injection Hsr as <-.
    repeat constructor; unfold INT_MAX; simpl; lia.
  - vm_compute in Hseg. injection Hseg as <-.
    vm_compute in Hsr. injection Hsr as <-.
    repeat constructor; unfold INT_MAX; simpl; lia.
  - exists tokens. split; [reflexivity|]. split; [reflexivity|].
    apply Forall2_length in Htokens.
    vm_compute in Hseg. injection Hseg as <-.
    vm_compute in Hsr. injection Hsr as <-.
    split; [reflexivity|]. split; [reflexivity|].
    split; [exact Hmorse|]. split; [symmetry; exact Htokens|reflexivity].
Defined.

(** C2.  On five frames, dark at 0 and 1 and lit from 2 to 4, the only
    Signal is the break of 2 frames that ends at frame 2: the pulse that
    runs from frame 2 to the last frame is not in the list, and the
    durations add up to 2 while the frames span the indices 0 to 4. *)
Theorem trailing_run_not_emitted :
  exists self,
    segmented [(0, 0); (1, 0); (2, 255); (3, 255); (4, 255)] = Done self
    /\ m_frames self
       = [{| time := 0; luminance := 0 |}; {| time := 1; luminance := 0 |};
          {| time := 2; luminance := 255 |};
          {| time := 3; luminance := 255 |};
          {| time := 4; luminance := 255 |}]
    /\ m_signals self = [{| state := 0; duration := 2 |}]
    /\ total_duration (m_signals self) = 2.
Proof.
  eexists. split; [vm_compute; reflexivity|]. repeat split.
Qed.

(** The sum of the durations is the frame index of the last change of
    state (0 when the state never changes), whatever follows it. *)
Theorem total_duration_last_change (samples : list (Z * Z))
    (self : VideoMorseDecode) :
  well_formed_samples samples ->
  segmented samples = Done self ->
  total_duration (m_signals self)
  = to_unsigned
      (last_time (foldl (segment_step (m_mean_luminance self))
                        (segmenter_init []) (frame_of <$> samples))).
Proof.
  intros Hwf Hseg.
  assert (Hr : Forall (fun s => 0 <= s.2 <= 255) samples).
  { destruct Hwf as [_ Hr]. eapply Forall_impl; [exact Hr|]. now intros s [_ H]. }
  destruct (segmented_Done samples self Hr Hseg) as [_ ->].
  apply (inv_total _ _ (segmenter_inv_run _ _
                          (well_formed_samples_times samples Hwf))).
Qed.

(** ** The SOS scenario *)

Section SosScenario.

Lemma decodeMorse_from fuel0 input msg :
  Util.decodeMorse fuel0 input = Done msg ->
  forall fuel, (fuel0 <= fuel)%nat -> Util.decodeMorse fuel input = Done msg.
Proof. intros H fuel Hle. now apply decodeMorse_more_fuel with fuel0. Qed.

Lemma sos_signals :
  exists self,
    segmented sos_samples = Done self
    /\ m_signals self
       = (fun p => {| state := p.1; duration := p.2 |})
           <$> [(0, 0); (1, 3); (0, 2); (1, 3); (0, 2); (1, 3); (0, 6);
                (1, 3); (0, 2); (1, 3); (0, 2); (1, 3); (0, 6);
                (1, 3); (0, 2); (1, 3); (0, 2); (1, 3)].
Proof. eexists. split; [vm_compute; reflexivity|reflexivity]. Qed.

(** What a completed run went through. *)
Lemma decode_samples_Done {D : Util.Double} {Srt : Util.StdSort}
    fuel samples r :
  decode_samples fuel samples = Done r ->
  exists self,
    segmented samples = Done self
    /\ processSignals self = Done (signal_part r)
    /\ Util.decodeMorse fuel (morse (signal_part r)) = Done (message r).
Proof.
  unfold decode_samples, run, segmented.
  intros (s1 & H1 & H)%bind_Done_inv.
  apply bind_Done_inv in H as (s2 & H2 & H).
  apply bind_Done_inv in H as (sr & Hsr & H).
  apply bind_Done_inv in H as (msg & Hmsg & [= <-]).
  exists (processStateChanges s2).
  rewrite H1, bind_Done, H2, bind_Done. done.
Qed.

End SosScenario.

(** C4 (as amended).  The decoder maps the token stream [" ... --- ... "],
    delimited by spaces, to ["SOS"]; without the delimiting spaces at
    both ends, ["... --- ..."] is mapped to ["...O..."].  On the sample
    sequence of the scenario all pulses last 3 frames; therefore, for
    any thresholds, the assembled string is not ["... --- ..."], and the
    detector finds the single ON peak 3 and the OFF peaks 2 and 6. *)
Theorem sos_scenario :
  (forall fuel, (14 <= fuel)%nat ->
      Util.decodeMorse fuel (str " ... --- ... ") = Done (str "SOS")
      /\ Util.decodeMorse fuel (str "... --- ...") = Done (str "...O..."))
  /\ exists self,
       segmented sos_samples = Done self
       /\ Forall (fun s => state s <> 0 -> duration s = 3) (m_signals self)
       /\ (forall off0 off1 on0,
              assemble off0 off1 on0 (m_signals self) <> str "... --- ...")
       /\ Util.get_local_maximums
            (D := Binary64.binary64) (Srt := MergeSort.sort)
            (duration_histograms (m_signals self)).2 2 gaussian_window_size
          = Done [3]
       /\ Util.get_local_maximums
            (D := Binary64.binary64) (Srt := MergeSort.sort)
            (duration_histograms (m_signals self)).1 3 gaussian_window_size
          = Done [2; 6].
Proof.
  split.
  - intros fuel Hfuel.
    split; apply decodeMorse_from with 14%nat;
      try (vm_compute; reflexivity); exact Hfuel.
  - destruct sos_signals as (self & Hseg & Hsig).
    exists self. split; [exact Hseg|].
    assert (Hall : Forall (fun s => state s <> 0 -> duration s = 3)
                          (m_signals self)).
    { rewrite Hsig. repeat constructor; simpl; intros; lia. }
    split; [exact Hall|]. split.
    + intros off0 off1 on0 Heq.
      destruct (assemble_uniform_pulses off0 off1 on0 _ 3 Hall) as [H|H];
        rewrite Heq in H; vm_compute in H; discriminate.
    + rewrite Hsig. split; vm_compute; reflexivity.
Qed.

(** C4, the claim as stated fails: on the sample sequence of the scenario
    the pipeline does not report morse ["... --- ..."] with message
    ["SOS"]; the ON peaks number one, and [processSignals] leaves the
    bounds of a peak vector. *)
Lemma sos_not_reported :
  (segmented sos_samples
     ≫= processSignals (D := Binary64.binary64) (Srt := MergeSort.sort))
  = Undefined IndexOutOfRange
  /\ ~ exists fuel r,
         decode_samples (D := Binary64.binary64) (Srt := MergeSort.sort)
                        fuel sos_samples = Done r
         /\ morse (signal_part r) = str "... --- ..."
         /\ message r = str "SOS".
Proof.
  assert (H : (segmented sos_samples
                 ≫= processSignals (D := Binary64.binary64)
                                   (Srt := MergeSort.sort))
              = Undefined IndexOutOfRange) by (vm_compute; reflexivity).
  split; [exact H|].
  intros (fuel & r & Hr & _).
  apply decode_samples_Done in Hr as (self & Hseg & Hsr & _).
  rewrite Hseg, bind_Done, Hsr in H. discriminate H.
Qed.



(** ** Further properties of the pipeline *)

(** Histogram conservation: for fewer than 2^32 samples, the 256 counts
    of the brightness histogram add up to the number of samples. *)
Theorem histogram_conservation (samples : list (Z * Z))
    (self : VideoMorseDecode) :
  Forall (fun s => 0 <= s.2 <= 255) samples ->
  Z.of_nat (length samples) < 2 ^ 32 ->
  process_frames samples VideoMorseDecode_new = Done self ->
  total_count (m_frame_luminance_histogram self) = Z.of_nat (length samples).
Proof.
  intros Hr Hlen Hrun. exact (proj1 (frame_loop_sums samples self Hr Hlen Hrun)).
Qed.

Lemma histogram_conservation_witness :
  exists self,
    process_frames [(0, 7); (1, 7); (2, 200)] VideoMorseDecode_new = Done self
    /\ total_count (m_frame_luminance_histogram self) = 3.
Proof.
  destruct (process_frames [(0, 7); (1, 7); (2, 200)] VideoMorseDecode_new)
    as [self| |] eqn:Hrun; [|vm_compute in Hrun; discriminate Hrun..].
  exists self. split; [reflexivity|].
  apply (histogram_conservation [(0, 7); (1, 7); (2, 200)] self).
  - repeat constructor; simpl; lia.
  - simpl. lia.
  - exact Hrun.
Defined.

(** Table lookup: the token stream [" .-. "] decodes to ["R"] and
    [" --.. "] to ["Z"], with any bound on the loop tests above the
    length of the stream. *)
Theorem table_lookup_scenario (fuel : nat) :
  Util.decodeMorse (6 + fuel) (str " .-. ") = Done (str "R")
  /\ Util.decodeMorse (7 + fuel) (str " --.. ") = Done (str "Z").
Proof.
  split.
  - apply decodeMorse_from with 6%nat; [vm_compute; reflexivity|lia].
  - apply decodeMorse_from with 7%nat; [vm_compute; reflexivity|lia].
Qed.

(** Breaks of 1, 1, 1, 1, 8, 8, 8, 8, 30, 30 frames and pulses of
    2, 2, 2, 9, 9 frames give the OFF peaks 1, 8, 30 and the ON peaks
    2, 9, and the thresholds [4, 19] and [5]. *)
Theorem single_symbol_scenario :
  let sigs := (fun p => {| state := p.1; duration := p.2 |})
                <$> [(0, 1); (1, 2); (0, 1); (1, 2); (0, 1); (1, 2); (0, 1);
                     (1, 9); (0, 8); (1, 9); (0, 8); (0, 8); (0, 8);
                     (0, 30); (0, 30)] in
  exists sr,
    processSignals (D := Binary64.binary64) (Srt := MergeSort.sort)
      {| m_frame_luminance_histogram := replicate 256 0;
         m_frames := [];
         m_signals := sigs;
         m_mean_luminance := 0 |} = Done sr
    /\ off_time_peaks sr = [1; 8; 30] /\ off_thresholds sr = [4; 19]
    /\ on_time_peaks sr = [2; 9] /\ on_thresholds sr = [5].
Proof.
  cbv zeta. eexists. split; [vm_compute; reflexivity|]. repeat split.
Qed.

(** A recording that starts dark and repeats each kind of pulse and break
    is decoded: the frames of [flashing_samples] give the morse string
    [" | .- | .- | .- . - "] and the message [" A A AET"]. *)
Theorem flashing_samples_decoded :
  exists r,
    decode_samples (D := Binary64.binary64) (Srt := MergeSort.sort)
                   21 flashing_samples = Done r
    /\ morse (signal_part r) = str " | .- | .- | .- . - "
    /\ message r = str " A A AET".
Proof. eexists. split; [vm_compute; reflexivity|]. split; reflexivity. Qed.

Lemma total_duration_last_change_witness :
  exists self,
    segmented [(0, 0); (1, 0); (2, 255); (3, 255); (4, 0); (5, 0)] = Done self
    /\ total_duration (m_signals self) = 4.
Proof.
  destruct (segmented [(0, 0); (1, 0); (2, 255); (3, 255); (4, 0); (5, 0)])
    as [self| |] eqn:Hseg; [|vm_compute in Hseg; discriminate Hseg..].
  exists self. split; [reflexivity|].
  rewrite (total_duration_last_change
             [(0, 0); (1, 0); (2, 255); (3, 255); (4, 0); (5, 0)] self);
    [|split|exact Hseg].
  - vm_compute in Hseg. injection Hseg as <-. vm_compute. reflexivity.
  - repeat constructor; simpl; lia.
  - repeat constructor; simpl; lia.
Defined.


(** ** [find], [replace] and [replace_all]: what they compute *)

Section StringHelperFacts.

Implicit Types (input from to out : std_string).

Lemma occurs_at_cons from c rest q :
  occurs_at from (c :: rest) (S q) <-> occurs_at from rest q.
Proof. unfold occurs_at. simpl. split; intros [H1 H2]; (split; [lia|done]). Qed.

Lemma occurs_at_zero from input :
  occurs_at from input 0 <-> from `prefix_of` input.
Proof. unfold occurs_at. simpl. split; [now intros [_ H]|]. split; [lia|done]. Qed.

(** [find] returns the least position at which [from] occurs, and fails
    only if there is none. *)
Lemma find_spec input from :
  match Util.find input from with
  | Some p => occurs_at from input p
              /\ forall q, (q < p)%nat -> ~ occurs_at from input q
  | None => forall q, ~ occurs_at from input q
  end.
Proof.
  induction input as [|c rest IH]; simpl.
  - case_bool_decide as Hp.
    + split; [now apply occurs_at_zero|]. intros q Hq. lia.
    + intros q [Hq Hpre]. simpl in Hq.
      assert (q = 0%nat) as -> by lia. done.
  - case_bool_decide as Hp.
    + split; [now apply occurs_at_zero|]. intros q Hq. lia.
    + destruct (Util.find rest from) as [p|]; simpl.
      * destruct IH as [Hocc Hleast]. split; [now apply occurs_at_cons|].
        intros [|q] Hq; [now rewrite occurs_at_zero|].
        rewrite occurs_at_cons. apply Hleast. lia.
      * intros [|q]; [now rewrite occurs_at_zero|].
        rewrite occurs_at_cons. apply IH.
Qed.

Lemma find_None input from :
  Util.find input from = None <-> forall q, ~ occurs_at from input q.
Proof.
  pose proof (find_spec input from) as H.
  destruct (Util.find input from) as [p|]; split; try done.
  intros Hno. destruct H as [Hocc _]. now apply Hno in Hocc.
Qed.

Lemma find_Some_least input from p :
  Util.find input from = Some p
  <-> occurs_at from input p
      /\ forall q, (q < p)%nat -> ~ occurs_at from input q.
Proof.
  pose proof (find_spec input from) as H.
  destruct (Util.find input from) as [p'|]; split.
  - now intros [= <-].
  - intros [Hocc Hleast]. destruct H as [Hocc' Hleast']. f_equal.
    destruct (Nat.lt_trichotomy p p') as [Hlt|[Heq|Hgt]]; [|done|].
    + now apply Hleast' in Hlt.
    + now apply Hleast in Hgt.
  - discriminate.
  - intros [Hocc _]. now apply H in Hocc.
Qed.

(** An occurrence, in terms of the text around it. *)
Lemma occurs_at_split from input p :
  occurs_at from input p
  <-> exists a b, input = a ++ from ++ b /\ length a = p.
Proof.
  split.
  - intros [Hp [b Hb]]. exists (take p input), b. split.
    + now rewrite <- Hb, take_drop.
    + rewrite length_take. lia.
  - intros (a & b & -> & <-). split.
    + rewrite length_app. lia.
    + rewrite drop_app_length. now exists b.
Qed.

Lemma occurs_iff_find input from :
  is_Some (Util.find input from) <-> exists a b, input = a ++ from ++ b.
Proof.
  split.
  - intros [p Hp]. apply find_Some_least in Hp as [Hocc _].
    apply occurs_at_split in Hocc as (a & b & H & _). now exists a, b.
  - intros (a & b & H).
    destruct (Util.find input from) as [p|] eqn:Hf; [done|].
    exfalso. apply (proj1 (find_None _ _) Hf (length a)).
    apply occurs_at_split. now exists a, b.
Qed.

Lemma replace_all_absent fuel input from to :
  Util.find input from = None ->
  Util.replace_all (S fuel) input from to = Done input.
Proof. intros H. simpl. unfold Util.replace. now rewrite H. Qed.

Lemma replace_all_Done_absent fuel input from to out :
  Util.replace_all fuel input from to = Done out ->
  Util.find out from = None.
Proof.
  revert input. induction fuel as [|fuel IH]; intros input; [discriminate|].
  simpl. unfold Util.replace.
  destruct (Util.find input from) as [p|] eqn:Hf.
  - apply IH.
  - now intros [= <-].
Qed.

(** What a completed loop keeps: a count that [from] and [to] share, and
    the length as an upper bound when [to] is no longer than [from]. *)
Lemma replace_all_count P fuel input from to out :
  count_if P from = count_if P to ->
  Util.replace_all fuel input from to = Done out ->
  count_if P out = count_if P input.
Proof.
  intros Heq. revert input.
  induction fuel as [|fuel IH]; intros input; [discriminate|]. simpl.
  destruct (Util.replace input from to) as [[] o] eqn:Hr.
  - intros H. rewrite (IH _ H).
    pose proof (replace_count P _ _ _ _ Hr). lia.
  - apply replace_false in Hr as ->. now intros [= <-].
Qed.

Lemma replace_all_length fuel input from to out :
  (length to <= length from)%nat ->
  Util.replace_all fuel input from to = Done out ->
  (length out <= length input)%nat.
Proof.
  intros Hle. revert input.
  induction fuel as [|fuel IH]; intros input; [discriminate|]. simpl.
  destruct (Util.replace input from to) as [[] o] eqn:Hr.
  - intros H. pose proof (IH _ H).
    pose proof (replace_length _ _ _ _ Hr). lia.
  - apply replace_false in Hr as ->. now intros [= <-].
Qed.

(** A single character occurs exactly when its count is not zero. *)
Lemma find_char_None c s :
  Util.find s [c] = None <-> count_if (is_char c) s = 0%nat.
Proof.
  rewrite find_None. split.
  - intros Hno. induction s as [|x s IH]; [done|].
    unfold count_if in *. simpl. unfold is_char at 1.
    destruct (Ascii.eqb_spec x c) as [->|Hne].
    + exfalso. apply (Hno 0%nat). apply occurs_at_zero. now exists s.
    + apply IH. intros q Hq. apply (Hno (S q)). now apply occurs_at_cons.
  - intros Hc q Hocc. apply occurs_at_split in Hocc as (a & b & -> & _).
    rewrite !count_if_app in Hc. unfold count_if at 2 in Hc. simpl in Hc.
    unfold is_char in Hc. rewrite Ascii.eqb_refl in Hc. simpl in Hc. lia.
Qed.

Lemma find_char_first c pre rest :
  count_if (is_char c) pre = 0%nat ->
  Util.find (pre ++ c :: rest) [c] = Some (length pre).
Proof.
  intros Hpre. apply find_Some_least. split.
  - apply occurs_at_split. now exists pre, rest.
  - intros q Hq Hocc. apply occurs_at_split in Hocc as (a & b & Heq & Hlen).
    assert (Ha : a ++ [c] `prefix_of` pre).
    { assert (Hp1 : a ++ [c] `prefix_of` pre ++ c :: rest)
        by (exists b; now rewrite <- app_assoc).
      assert (Hp2 : pre `prefix_of` pre ++ c :: rest) by now exists (c :: rest).
      destruct (prefix_weak_total _ _ _ Hp1 Hp2) as [H|H]; [done|].
      rewrite (prefix_length_eq _ _ H); [done|].
      rewrite length_app. simpl. lia. }
    destruct Ha as [k ->]. rewrite !count_if_app in Hpre.
    unfold count_if at 2 in Hpre. simpl in Hpre. unfold is_char in Hpre.
    rewrite Ascii.eqb_refl in Hpre. simpl in Hpre. lia.
Qed.

Lemma substitute_loop c to :
  count_if (is_char c) to = 0%nat ->
  forall s pre fuel,
    count_if (is_char c) pre = 0%nat ->
    (count_if (is_char c) s < fuel)%nat ->
    Util.replace_all fuel (pre ++ s) [c] to = Done (pre ++ substitute c to s).
Proof.
  intros Hto. induction s as [|x s IH]; intros pre fuel Hpre Hfuel.
  - destruct fuel as [|fuel]; [lia|]. simpl substitute.
    apply replace_all_absent. rewrite app_nil_r. now apply find_char_None.
  - unfold count_if in Hfuel. simpl in Hfuel. unfold is_char at 1 in Hfuel.
    simpl substitute. destruct (Ascii.eqb_spec x c) as [->|Hne].
    + destruct fuel as [|fuel]; [simpl in Hfuel; lia|].
      simpl. unfold Util.replace, Util.string_replace.
      rewrite find_char_first by done.
      rewrite take_app_length.
      replace (length pre + length [c])%nat with (length (pre ++ [c]))
        by now rewrite length_app.
      replace (pre ++ c :: s) with ((pre ++ [c]) ++ s)
        by now rewrite <- app_assoc.
      rewrite drop_app_length, !app_assoc.
      rewrite (IH (pre ++ to) fuel); [done| |].
      * rewrite count_if_app. lia.
      * simpl in Hfuel. unfold count_if. lia.
    + replace (pre ++ x :: s) with ((pre ++ [x]) ++ s)
        by now rewrite <- app_assoc.
      rewrite (IH (pre ++ [x]) fuel).
      * now rewrite <- app_assoc.
      * rewrite count_if_app, Hpre. unfold count_if. simpl.
        unfold is_char. now destruct (Ascii.eqb_spec x c).
      * exact Hfuel.
Qed.

End StringHelperFacts.

(** [replace] acts on the first occurrence of [from]: it returns [true]
    exactly when [from] occurs, and then the text before the least
    position of an occurrence is kept, [to] stands in the place of
    [from], and the text after it is kept; it returns [false] exactly
    when [from] does not occur, and leaves the string as it is. *)
Theorem replace_first_occurrence (input from to : std_string) :
  (forall out,
      Util.replace input from to = (true, out)
      <-> exists p,
            occurs_at from input p
            /\ (forall q, (q < p)%nat -> ~ occurs_at from input q)
            /\ out = take p input ++ to ++ drop (p + length from) input)
  /\ (forall out,
         Util.replace input from to = (false, out)
         <-> (forall q, ~ occurs_at from input q) /\ out = input).
Proof.
  unfold Util.replace, Util.string_replace. split; intros out.
  - destruct (Util.find input from) as [p|] eqn:Hf; split.
    + intros [= <-]. exists p. apply find_Some_least in Hf. now destruct Hf.
    + intros (p' & Hocc & Hleast & ->).
      assert (Util.find input from = Some p') as Hf'
        by now apply find_Some_least.
      rewrite Hf in Hf'. now injection Hf' as <-.
    + discriminate.
    + intros (p & Hocc & _). now apply (proj1 (find_None _ _) Hf) in Hocc.
  - destruct (Util.find input from) as [p|] eqn:Hf; split.
    + discriminate.
    + intros [Hno _]. apply find_Some_least in Hf as [Hocc _].
      now apply Hno in Hocc.
    + intros [= <-]. split; [now apply find_None|done].
    + now intros [_ ->].
Qed.

(** When [replace_all] returns, [from] no longer occurs in the result;
    and if [from] did not occur in the input, the result is the input. *)
Theorem replace_all_leaves_no_occurrence (fuel : nat)
    (input from to out : std_string) :
  Util.replace_all fuel input from to = Done out ->
  (forall q, ~ occurs_at from out q)
  /\ ((forall q, ~ occurs_at from input q) -> out = input).
Proof.
  intros H. split.
  - apply find_None. eapply replace_all_Done_absent, H.
  - intros Hno%find_None. destruct fuel as [|fuel]; [discriminate|].
    rewrite replace_all_absent in H by done. now injection H as <-.
Qed.

Lemma replace_all_leaves_no_occurrence_witness :
  Util.replace_all 5 (str "a  b   c") (str "  ") (str " ")
  = Done (str "a b c")
  /\ forall q, ~ occurs_at (str "  ") (str "a b c") q.
Proof.
  assert (H : Util.replace_all 5 (str "a  b   c") (str "  ") (str " ")
              = Done (str "a b c")) by (vm_compute; reflexivity).
  split; [exact H|].
  exact (proj1 (replace_all_leaves_no_occurrence _ _ _ _ _ H)).
Defined.

(** When [from] occurs in [to] (in particular when [from] is empty, or
    equal to [to]) and in the input, the loop of [replace_all] never
    ends: every replacement leaves an occurrence behind. *)
Theorem replace_all_never_returns (input from to : std_string) :
  (exists x y, to = x ++ from ++ y) ->
  is_Some (Util.find input from) ->
  forall fuel, Util.replace_all fuel input from to = OutOfFuel.
Proof.
  intros (x & y & ->) Hin fuel. revert input Hin.
  induction fuel as [|fuel IH]; intros input Hin; [done|]. simpl.
  destruct (Util.replace input from (x ++ from ++ y)) as [[] out] eqn:Hr.
  - apply IH. apply replace_true in Hr as (a & b & _ & ->).
    apply occurs_iff_find. exists (a ++ x), (y ++ b).
    now rewrite <- !app_assoc.
  - exfalso. unfold Util.replace in Hr. destruct Hin as [p Hp].
    rewrite Hp in Hr. discriminate Hr.
Qed.

Lemma replace_all_never_returns_witness :
  (forall fuel, Util.replace_all fuel (str "x") [] (str "-") = OutOfFuel)
  /\ (forall fuel,
         Util.replace_all fuel (str "a b") (str " ") (str " ") = OutOfFuel).
Proof.
  split.
  - apply replace_all_never_returns.
    + exists [], (str "-"). reflexivity.
    + vm_compute. eauto.
  - apply replace_all_never_returns.
    + exists [], []. reflexivity.
    + vm_compute. eauto.
Defined.

(** For a search string of one character [c] that is not in [to],
    [replace_all] returns the input with every [c] replaced by [to], as
    soon as the bound on the loop tests exceeds the number of [c]s. *)
Theorem replace_all_single_character (c : ascii) (to s : std_string)
    (fuel : nat) :
  count_if (is_char c) to = 0%nat ->
  (count_if (is_char c) s < fuel)%nat ->
  Util.replace_all fuel s [c] to = Done (substitute c to s).
Proof.
  intros Hto Hfuel. exact (substitute_loop c to Hto s [] fuel eq_refl Hfuel).
Qed.

Lemma replace_all_single_character_witness :
  Util.replace_all 3 (str "a|b|c") (str "|") (str ", ")
  = Done (str "a, b, c").
Proof.
  apply (replace_all_single_character "|" (str ", ") (str "a|b|c") 3).
  - reflexivity.
  - vm_compute. lia.
Defined.

Section DecodeMorseStructure.

Lemma morse_symbols_bars :
  Forall (fun m =>
            count_if is_bar (Util.symbol_from m)
            = count_if is_bar (Util.symbol_to m)
            /\ (length (Util.symbol_to m)
                <= length (Util.symbol_from m))%nat
            /\ exists rest, Util.symbol_from m = " "%char :: rest)
         Util.morse_symbols.
Proof.
  unfold Util.morse_symbols.
  repeat (constructor;
          [split; [reflexivity|split; [vm_compute; lia|eexists; reflexivity]]|]).
  constructor.
Qed.

Lemma decode_symbols_keeps table fuel input out :
  Forall (fun m =>
            count_if is_bar (Util.symbol_from m)
            = count_if is_bar (Util.symbol_to m)
            /\ (length (Util.symbol_to m)
                <= length (Util.symbol_from m))%nat
            /\ exists rest, Util.symbol_from m = " "%char :: rest) table ->
  Util.decode_symbols fuel table input = Done out ->
  count_if is_bar out = count_if is_bar input
  /\ (length out <= length input)%nat
  /\ (count_if is_space input = 0%nat -> out = input).
Proof.
  intros Htable. revert input.
  induction Htable as [|m table (Hbar & Hlen & rest & Hfrom) _ IH];
    intros input; simpl.
  - now intros [= <-].
  - intros (out1 & H1 & H2)%bind_Done_inv.
    destruct (IH _ H2) as (IHbar & IHlen & IHid).
    pose proof (replace_all_count is_bar _ _ _ _ _ Hbar H1) as Hb1.
    pose proof (replace_all_length _ _ _ _ _ Hlen H1) as Hl1.
    split; [lia|]. split; [lia|]. intros Hsp.
    assert (out1 = input) as ->; [|now apply IHid].
    apply (proj2 (replace_all_leaves_no_occurrence _ _ _ _ _ H1)).
    intros q (a & b & -> & _)%occurs_at_split.
    rewrite Hfrom, !count_if_app in Hsp.
    unfold count_if at 2 in Hsp. simpl in Hsp. lia.
Qed.

Lemma count_space_or_bar (s : std_string) :
  count_if (fun c => is_space c || is_bar c) s
  = (count_if is_space s + count_if is_bar s)%nat.
Proof.
  unfold count_if. induction s as [|c s IH]; [done|]. simpl.
  destruct (is_space c) eqn:E1, (is_bar c) eqn:E2; simpl; try lia.
  unfold is_space, is_bar in *.
  apply Ascii.eqb_eq in E1, E2. subst c. discriminate E2.
Qed.

End DecodeMorseStructure.

(** In the message [decodeMorse] returns there is no word separator
    ['|'] left, there are as many spaces as the token stream had word
    separators (every other space is removed), and the message is no
    longer than the token stream. *)
Theorem decodeMorse_separators (fuel : nat) (input msg : std_string) :
  Util.decodeMorse fuel input = Done msg ->
  count_if is_bar msg = 0%nat
  /\ count_if is_space msg = count_if is_bar input
  /\ (length msg <= length input)%nat.
Proof.
  unfold Util.decodeMorse.
  intros (out1 & H1 & H)%bind_Done_inv.
  apply bind_Done_inv in H as (out2 & H2 & H3).
  destruct (decode_symbols_keeps _ _ _ _ morse_symbols_bars H1)
    as (Hbar1 & Hlen1 & _).
  pose proof (replace_all_count is_bar _ _ (str " ") [] _ eq_refl H2) as Hbar2.
  pose proof (replace_all_length _ _ (str " ") [] _ ltac:(simpl; lia) H2)
    as Hlen2.
  pose proof (replace_all_Done_absent _ _ _ _ _ H2) as Hsp2.
  apply (find_char_None " ") in Hsp2.
  pose proof (replace_all_Done_absent _ _ _ _ _ H3) as Hbar3.
  apply (find_char_None "|") in Hbar3.
  pose proof (replace_all_length _ _ (str "|") (str " ") _
                ltac:(simpl; lia) H3) as Hlen3.
  pose proof (replace_all_count
                (fun c => is_space c || is_bar c) _ _ (str "|") (str " ") _
                eq_refl H3) as Hboth.
  pose proof count_space_or_bar as Hsplit.
  rewrite !Hsplit in Hboth.
  change (count_if (is_char "|") msg) with (count_if is_bar msg) in Hbar3.
  change (count_if (is_char " ") out2) with (count_if is_space out2) in Hsp2.
  split; [done|]. split; lia.
Qed.

Lemma decodeMorse_separators_witness :
  exists msg,
    Util.decodeMorse 30 (str " ... --- ... | - . ") = Done msg
    /\ count_if is_bar msg = 0%nat
    /\ count_if is_space msg = 1%nat.
Proof.
  destruct (Util.decodeMorse 30 (str " ... --- ... | - . "))
    as [msg| |] eqn:H; [|vm_compute in H; discriminate H..].
  exists msg. split; [reflexivity|].
  destruct (decodeMorse_separators _ _ _ H) as (H1 & H2 & _).
  split; [exact H1|]. rewrite H2. reflexivity.
Defined.

(** A token stream without any space is not decoded at all: every
    pattern is searched between two spaces, so the message is the token
    stream with each ['|'] turned into a space.  (The bound on the loop
    tests only has to exceed the number of ['|'].) *)
Theorem decodeMorse_needs_spaces (fuel : nat) (input : std_string) :
  count_if is_space input = 0%nat ->
  (count_if is_bar input < fuel)%nat ->
  Util.decodeMorse fuel input = Done (substitute "|" (str " ") input).
Proof.
  intros Hsp Hfuel. unfold Util.decodeMorse.
  assert (H1 : Util.decode_symbols fuel Util.morse_symbols input = Done input).
  { destruct fuel as [|fuel]; [lia|]. clear Hfuel.
    pose proof morse_symbols_bars as Htable.
    induction Htable as [|m table (_ & _ & rest & Hfrom) _ IH]; [done|].
    change (Util.decode_symbols (S fuel) (m :: table) input)
      with (Util.replace_all (S fuel) input (Util.symbol_from m)
                             (Util.symbol_to m)
              ≫= Util.decode_symbols (S fuel) table).
    rewrite replace_all_absent; [exact IH|].
    apply find_None. intros q (a & b & -> & _)%occurs_at_split.
    rewrite Hfrom, !count_if_app in Hsp.
    unfold count_if at 2 in Hsp. simpl in Hsp. lia. }
  rewrite H1, bind_Done.
  destruct fuel as [|fuel]; [lia|].
  rewrite replace_all_absent, bind_Done by now apply (find_char_None " ").
  now apply replace_all_single_character.
Qed.

Lemma decodeMorse_needs_spaces_witness :
  Util.decodeMorse 2 (str "...|---") = Done (str "... ---").
Proof.
  apply (decodeMorse_needs_spaces 2 (str "...|---")).
  - reflexivity.
  - vm_compute. lia.
Defined.

(** Every entry of the table is decoded: the pattern of the entry,
    between two spaces, gives the character of the entry. *)
Theorem table_round_trip :
  Forall (fun m =>
            forall fuel,
              Util.decodeMorse (9 + fuel) (Util.symbol_from m)
              = Done (Util.string_ m))
         Util.morse_symbols.
Proof.
  unfold Util.morse_symbols.
  repeat (constructor;
          [intros fuel; apply decodeMorse_from with 9%nat;
           [vm_compute; reflexivity|lia]|]).
  constructor.
Qed.


(** ** The morse string, whatever the thresholds *)

Section MorseStringFacts.

Lemma morse_token_shape off0 off1 on0 s :
  let t := morse_token off0 off1 on0 s in
  count_if is_morse_char t = length t
  /\ count_if is_dot_or_dash t = (if is_pulse s then 1 else 0)%nat
  /\ (length t <= 3)%nat.
Proof.
  unfold morse_token, is_pulse. cbv zeta.
  case_bool_decide as Hs; simpl negb; cbv iota;
    repeat case_bool_decide; try (repeat split; vm_compute; lia); lia.
Qed.

Lemma concat_tokens_shape off0 off1 on0 sigs :
  let m := concat (morse_token off0 off1 on0 <$> sigs) in
  count_if is_morse_char m = length m
  /\ count_if is_dot_or_dash m = length (List.filter is_pulse sigs)
  /\ (length m <= 3 * length sigs)%nat.
Proof.
  induction sigs as [|s sigs IH]; [done|]. cbv zeta in *.
  rewrite fmap_cons. cbn [concat List.filter length].
  destruct IH as (IH1 & IH2 & IH3).
  destruct (morse_token_shape off0 off1 on0 s) as (H1 & H2 & H3).
  rewrite !count_if_app, length_app, IH1, IH2, H1, H2.
  destruct (is_pulse s); cbn [length]; repeat split; lia.
Qed.

End MorseStringFacts.

(** Whatever the thresholds, the morse string consists of the characters
    ['.'], ['-'], [' '] and ['|'] only, holds exactly one dot or dash for
    every pulse of the Signal list, and has at most three characters for
    each Signal. *)
Theorem assemble_alphabet (off0 off1 on0 : Z) (sigs : list Signal) :
  Forall (fun c => is_morse_char c = true) (assemble off0 off1 on0 sigs)
  /\ count_if is_dot_or_dash (assemble off0 off1 on0 sigs)
     = length (List.filter is_pulse sigs)
  /\ (length (assemble off0 off1 on0 sigs) <= 3 * length sigs)%nat.
Proof.
  rewrite assemble_concat.
  destruct (concat_tokens_shape off0 off1 on0 sigs) as (H1 & H2 & H3).
  split; [|done]. clear H2 H3. cbv zeta in H1.
  set (m := concat _) in *. clearbody m. unfold count_if in H1.
  induction m as [|c m IH]; [constructor|]. simpl in H1.
  pose proof (List.filter_length_le is_morse_char m) as Hle.
  destruct (is_morse_char c) eqn:Hc; simpl in H1; [|lia].
  constructor; [done|]. apply IH. lia.
Qed.

(** ** The duration histograms *)

Section DurationHistogramFacts.

Lemma sumZ_snoc {A} (f : A -> Z) l x : sumZ f (l ++ [x]) = sumZ f l + f x.
Proof. induction l as [|y l IH]; simpl; [lia|]. rewrite IH. lia. Qed.

Lemma signals_with_bounds pulse dur sigs :
  0 <= signals_with pulse dur sigs <= Z.of_nat (length sigs).
Proof.
  unfold signals_with. induction sigs as [|s sigs IH]; [done|].
  rewrite sumZ_cons. simpl length. case_bool_decide; lia.
Qed.

Lemma duration_histograms_snoc sigs s :
  duration_histograms (sigs ++ [s])
  = count_signal (duration_histograms sigs) s.
Proof. unfold duration_histograms. now rewrite foldl_snoc. Qed.

(** A histogram that holds the counts [f], after one more [hist[key]++]. *)
Lemma map_increment_lookup (hist : gmap Z Z) (f : Z -> Z) key dur :
  (forall d, hist !! d = if bool_decide (f d = 0) then None else Some (f d)) ->
  0 <= f key < INT_MAX ->
  map_increment key hist !! dur
  = if bool_decide (key = dur) then Some (f key + 1) else hist !! dur.
Proof.
  intros Hf Hkey. unfold map_increment. rewrite lookup_insert.
  destruct (decide (key = dur)) as [->|Hne].
  - rewrite bool_decide_true by done. rewrite Hf.
    case_bool_decide as H0; simpl; f_equal; rewrite ?H0;
      apply to_int_small; unfold INT_MAX in *; lia.
  - now rewrite bool_decide_false.
Qed.

Lemma duration_histograms_lookup sigs :
  Forall (fun s => 0 <= duration s <= INT_MAX) sigs ->
  Z.of_nat (length sigs) <= INT_MAX ->
  forall (pulse : bool) (dur : Z),
    ((if pulse then (duration_histograms sigs).2
      else (duration_histograms sigs).1) : gmap Z Z) !! dur
    = if bool_decide (signals_with pulse dur sigs = 0) then None
      else Some (signals_with pulse dur sigs).
Proof.
  induction sigs as [|s sigs IH] using rev_ind; intros Hr Hlen pulse dur.
  - destruct pulse; apply lookup_empty.
  - apply Forall_app in Hr as [Hr Hs%Forall_inv].
    rewrite length_app in Hlen. simpl in Hlen.
    specialize (IH Hr ltac:(lia)).
    rewrite duration_histograms_snoc. unfold signals_with.
    rewrite sumZ_snoc. fold (signals_with pulse dur sigs).
    unfold count_signal.
    assert (Hkey : to_int (duration s) = duration s)
      by (apply to_int_small; unfold INT_MAX in *; lia).
    rewrite Hkey.
    pose proof (signals_with_bounds pulse dur sigs) as Hb.
    destruct (decide (state s = 0)) as [Hst|Hst].
    + assert (Hp : is_pulse s = false)
        by (unfold is_pulse; now rewrite bool_decide_true).
      rewrite (bool_decide_true (state s = 0)) by done.
      destruct pulse; cbn [fst snd].
      * rewrite (IH true).
        rewrite (bool_decide_false (is_pulse s = true /\ _))
          by (rewrite Hp; now intros [? _]).
        now rewrite Z.add_0_r.
      * rewrite (map_increment_lookup _ (fun d => signals_with false d sigs));
          [|intros d; apply (IH false)
           |pose proof (signals_with_bounds false (duration s) sigs); lia].
        case_bool_decide as Hd.
        -- subst dur.
           rewrite (bool_decide_true (is_pulse s = false /\ _)) by done.
           rewrite bool_decide_false by lia. done.
        -- rewrite (bool_decide_false (is_pulse s = false /\ _))
             by (now intros [_ ?]).
           rewrite Z.add_0_r. apply (IH false).
    + assert (Hp : is_pulse s = true)
        by (unfold is_pulse; now rewrite bool_decide_false).
      rewrite (bool_decide_false (state s = 0)) by done.
      destruct pulse; cbn [fst snd].
      * rewrite (map_increment_lookup _ (fun d => signals_with true d sigs));
          [|intros d; apply (IH true)
           |pose proof (signals_with_bounds true (duration s) sigs); lia].
        case_bool_decide as Hd.
        -- subst dur.
           rewrite (bool_decide_true (is_pulse s = true /\ _)) by done.
           rewrite bool_decide_false by lia. done.
        -- rewrite (bool_decide_false (is_pulse s = true /\ _))
             by (now intros [_ ?]).
           rewrite Z.add_0_r. apply (IH true).
      * rewrite (IH false).
        rewrite (bool_decide_false (is_pulse s = false /\ _))
          by (rewrite Hp; now intros [? _]).
        now rewrite Z.add_0_r.
Qed.

End DurationHistogramFacts.

(** The duration histograms hold the occurrence counts: for durations
    and a number of Signals that fit [int], [off_hist[d]] is the number
    of breaks of duration [d] and [on_hist[d]] the number of pulses of
    duration [d], and a duration that does not occur is not a key. *)
Theorem duration_histograms_count (sigs : list Signal) (dur : Z) :
  Forall (fun s => 0 <= duration s <= INT_MAX) sigs ->
  Z.of_nat (length sigs) <= INT_MAX ->
  (duration_histograms sigs).1 !! dur
  = (if bool_decide (signals_with false dur sigs = 0) then None
     else Some (signals_with false dur sigs))
  /\ (duration_histograms sigs).2 !! dur
     = (if bool_decide (signals_with true dur sigs = 0) then None
        else Some (signals_with true dur sigs)).
Proof.
  intros Hr Hlen.
  split; [apply (duration_histograms_lookup sigs Hr Hlen false)
         |apply (duration_histograms_lookup sigs Hr Hlen true)].
Qed.

Lemma duration_histograms_count_witness :
  let sigs := [{| state := 0; duration := 2 |};
               {| state := 1; duration := 3 |};
               {| state := 0; duration := 2 |};
               {| state := 1; duration := 9 |}] in
  (duration_histograms sigs).1 !! 2 = Some 2
  /\ (duration_histograms sigs).2 !! 2 = None.
Proof.
  cbv zeta.
  refine (duration_histograms_count _ 2 _ _).
  - repeat constructor; unfold INT_MAX; simpl; lia.
  - unfold INT_MAX. simpl. lia.
Defined.

(** ** The peaks, whatever the arithmetic on [double] *)

Section PeakPositionFacts.

Context {D : Util.Double} {Srt : Util.StdSort}.

(** The positions recorded by the scan over 1 .. n grow strictly and lie
    below n. *)
Lemma scan_sorted o (n : nat) :
  let st := foldl (Util.scan_step o)
                  {| Util.ld := 0; Util.d := 0; Util.tp := [] |}
                  (seqZ 1 (Z.of_nat n)) in
  Forall (fun p => 0 <= p.1 < Z.of_nat n) (Util.tp st)
  /\ StronglySorted Z.lt (Util.tp st).*1.
Proof.
  induction n as [|n IH]; cbv zeta in *.
  - split; constructor.
  - rewrite seqZ_S, foldl_snoc.
    set (st := foldl (Util.scan_step o) _ _) in *.
    destruct IH as [Hpos Hsorted].
    assert (Hpos' : Forall (fun p => 0 <= p.1 < Z.of_nat (S n)) (Util.tp st)).
    { eapply Forall_impl; [exact Hpos|]. intros p Hp. simpl in *. lia. }
    unfold Util.scan_step. cbn [Util.tp].
    destruct (_ && _); [|done]. split.
    + apply Forall_app. split; [done|]. apply Forall_singleton. simpl. lia.
    + rewrite fmap_app. apply StronglySorted_app. split; [|split].
      * intros x1 x2 (p & -> & Hp)%list_elem_of_fmap Hx2.
        apply list_elem_of_singleton in Hx2 as ->. simpl.
        pose proof (proj1 (Forall_forall _ _) Hpos p Hp) as H. simpl in H. lia.
      * done.
      * repeat constructor.
Qed.

Lemma turning_points_sorted o :
  Forall (fun p => 0 <= p.1 < Z.of_nat (length o)) (Util.turning_points o)
  /\ StronglySorted Z.lt (Util.turning_points o).*1.
Proof.
  unfold Util.turning_points, Util.scan.
  replace (seqZ 1 (Z.of_nat (length o) - 1))
    with (seqZ 1 (Z.of_nat (length o - 1))).
  2:{ destruct o; [reflexivity|]. f_equal. simpl length. lia. }
  destruct (scan_sorted o (length o - 1)) as [Hpos Hsorted].
  cbv zeta in *. set (st := foldl (Util.scan_step o) _ _) in *.
  assert (Hpos' : Forall (fun p => 0 <= p.1 < Z.of_nat (length o))
                         (Util.tp st)).
  { eapply Forall_impl; [exact Hpos|]. intros p Hp. simpl in *. lia. }
  case_bool_decide as Hd; [|done].
  assert (Hne : (0 < length o)%nat).
  { destruct o; [|simpl; lia]. unfold st in Hd. simpl in Hd. lia. }
  split.
  - apply Forall_app. split; [done|]. apply Forall_singleton. simpl. lia.
  - rewrite fmap_app. apply StronglySorted_app. split; [|split].
    + intros x1 x2 (p & -> & Hp)%list_elem_of_fmap Hx2.
      apply list_elem_of_singleton in Hx2 as ->. simpl.
      pose proof (proj1 (Forall_forall _ _) Hpos p Hp) as H. simpl in H. lia.
    + done.
    + repeat constructor.
Qed.

Lemma first_points_prefix count (tp : list (Z * Z)) :
  Util.first_points count tp `prefix_of` tp.*1.
Proof.
  revert count. induction tp as [|p tp IH]; intros count; simpl.
  - done.
  - case_bool_decide; [apply prefix_nil|]. apply prefix_cons, IH.
Qed.

Lemma StronglySorted_lt_NoDup (l : list Z) : StronglySorted Z.lt l -> NoDup l.
Proof.
  induction 1 as [|x l _ IH Hx]; constructor; [|done].
  intros Hin. pose proof (proj1 (Forall_forall _ _) Hx x Hin). lia.
Qed.

Lemma rbegin_first_empty : Util.rbegin_first ∅ = Undefined EmptyContainer.
Proof. unfold Util.rbegin_first. now rewrite map_to_list_empty. Qed.

Lemma get_local_maximums_empty count window_size :
  Util.get_local_maximums ∅ count window_size = Undefined EmptyContainer.
Proof. unfold Util.get_local_maximums. now rewrite rbegin_first_empty. Qed.

Lemma get_local_maximums_fuel vf count window_size :
  Util.get_local_maximums vf count window_size <> OutOfFuel.
Proof.
  unfold Util.get_local_maximums, Util.rbegin_first.
  destruct (map_to_list vf); [done|]. rewrite bind_Done.
  case_bool_decide; [|done].
  pose proof (filter_loop_fuel
                (Util.to_vector vf
                   (foldr (fun e acc => Z.max e.1 acc) p.1 l + 1))
                window_size
                (seqZ 0 (Z.of_nat (length (Util.to_vector vf
                   (foldr (fun e acc => Z.max e.1 acc) p.1 l + 1))))))
    as Hf.
  unfold Util.gaussian_filter.
  destruct (Util.filter_loop _ _ _) as [o| |]; [discriminate|discriminate|done].
Qed.

Lemma get_local_maximums_distinct vf count window_size r :
  Util.get_local_maximums vf count window_size = Done r ->
  NoDup r
  /\ forall x, x ∈ r -> 0 <= x /\ exists k, is_Some (vf !! k) /\ x <= k.
Proof.
  intros Hr.
  assert (Hne : vf <> ∅).
  { intros ->. now rewrite get_local_maximums_empty in Hr. }
  destruct (rbegin_first_spec vf Hne) as (last & Hlast & Hsome & _).
  apply get_local_maximums_Done in Hr as (last' & o & Hlast' & _ & Ho & ->).
  rewrite Hlast in Hlast'. injection Hlast' as <-.
  destruct (turning_points_sorted o) as [Hpos Hsorted].
  assert (Hlen : length o = Z.to_nat (last + 1)).
  { apply gaussian_filter_Done in Ho as [-> _].
    unfold Util.to_vector. rewrite length_fmap, length_seqZ. lia. }
  destruct (first_points_prefix count (Util.std_sort (Util.turning_points o)))
    as [k Hk].
  assert (Hnd : NoDup (Util.std_sort (Util.turning_points o)).*1).
  { rewrite Util.std_sort_perm. now apply StronglySorted_lt_NoDup. }
  rewrite Hk in Hnd. apply NoDup_app in Hnd as [Hnd _].
  split; [done|]. intros x Hx.
  assert (Hx' : x ∈ (Util.std_sort (Util.turning_points o)).*1).
  { rewrite Hk. apply elem_of_app. now left. }
  rewrite Util.std_sort_perm in Hx'.
  apply list_elem_of_fmap in Hx' as (p & -> & Hp).
  pose proof (proj1 (Forall_forall _ _) Hpos p Hp) as Hb. simpl in Hb.
  split; [lia|]. exists last. split; [done|]. lia.
Qed.

End PeakPositionFacts.

(** Whatever the arithmetic on [double] and the order [std::sort] gives
    to equal frequencies, the peaks returned by [get_local_maximums] are
    distinct durations, none negative and none beyond the largest
    duration of the histogram, and at most [count] of them for a [count]
    from 0 to [INT_MAX]. *)
Theorem peaks_distinct_and_bounded {D : Util.Double} {Srt : Util.StdSort}
    (vf : gmap Z Z) (count window_size : Z) (r : list Z) :
  Util.get_local_maximums vf count window_size = Done r ->
  NoDup r
  /\ (forall x, x ∈ r ->
        0 <= x /\ exists k, is_Some (vf !! k) /\ x <= k)
  /\ (0 <= count <= INT_MAX -> (length r <= Z.to_nat count)%nat).
Proof.
  intros Hr. destruct (get_local_maximums_distinct _ _ _ _ Hr) as [H1 H2].
  split; [done|]. split; [done|]. intros Hc.
  eapply get_local_maximums_length; [exact Hc|exact Hr].
Qed.

Lemma peaks_distinct_and_bounded_witness :
  exists r,
    Util.get_local_maximums
      (D := Binary64.binary64) (Srt := MergeSort.sort)
      {[ 1 := 4; 8 := 4; 30 := 2 ]} 2 3 = Done r
    /\ NoDup r /\ (length r <= 2)%nat.
Proof.
  destruct (Util.get_local_maximums
              (D := Binary64.binary64) (Srt := MergeSort.sort)
              {[ 1 := 4; 8 := 4; 30 := 2 ]} 2 3) as [r| |] eqn:Hr;
    [|vm_compute in Hr; discriminate Hr..].
  exists r. split; [reflexivity|].
  destruct (peaks_distinct_and_bounded _ _ _ _ Hr) as (H1 & _ & H3).
  split; [exact H1|]. apply H3. unfold INT_MAX. lia.
Defined.

(** ** What [processSignals] needs *)

Section ProcessSignalsFacts.

Context {D : Util.Double} {Srt : Util.StdSort}.

Lemma count_signal_breaks_only sigs :
  Forall (fun s => state s = 0) sigs ->
  forall hists, (foldl count_signal hists sigs).2 = hists.2.
Proof.
  induction 1 as [|s sigs Hs _ IH]; intros hists; [done|]. simpl.
  rewrite IH. unfold count_signal. now rewrite bool_decide_true.
Qed.

Lemma count_signal_pulses_only sigs :
  Forall (fun s => state s <> 0) sigs ->
  forall hists, (foldl count_signal hists sigs).1 = hists.1.
Proof.
  induction 1 as [|s sigs Hs _ IH]; intros hists; [done|]. simpl.
  rewrite IH. unfold count_signal. now rewrite bool_decide_false.
Qed.

Lemma threshold_values_fuel peaks :
  off_threshold_values peaks <> OutOfFuel
  /\ on_threshold_values peaks <> OutOfFuel.
Proof.
  unfold off_threshold_values, on_threshold_values, vec_get. simpl.
  destruct peaks as [|p0 [|p1 [|p2 l]]]; simpl; done.
Qed.

Lemma processSignals_fuel self : processSignals self <> OutOfFuel.
Proof.
  unfold processSignals.
  pose proof (get_local_maximums_fuel
                (duration_histograms (m_signals self)).1 3
                gaussian_window_size) as H1.
  destruct (Util.get_local_maximums _ 3 _) as [off| |]; [|done..].
  rewrite bind_Done.
  pose proof (proj1 (threshold_values_fuel (merge_sort Z.le off))) as H2.
  destruct (off_threshold_values _) as [off_thr| |]; [|done..].
  rewrite bind_Done.
  pose proof (get_local_maximums_fuel
                (duration_histograms (m_signals self)).2 2
                gaussian_window_size) as H3.
  destruct (Util.get_local_maximums _ 2 _) as [on| |]; [|done..].
  rewrite bind_Done.
  pose proof (proj2 (threshold_values_fuel (merge_sort Z.le on))) as H4.
  destruct (on_threshold_values _) as [on_thr| |]; done.
Qed.

Lemma processSignals_one_kind self :
  Forall (fun s => state s = 0) (m_signals self)
  \/ Forall (fun s => state s <> 0) (m_signals self) ->
  exists u, processSignals self = Undefined u.
Proof.
  intros [Hoff|Hon].
  - pose proof (processSignals_fuel self) as Hfuel.
    destruct (processSignals self) as [sr|u|] eqn:Hsr; [|now exists u|done].
    exfalso. unfold processSignals in Hsr.
    apply bind_Done_inv in Hsr as (off & _ & Hsr).
    apply bind_Done_inv in Hsr as (off_thr & _ & Hsr).
    apply bind_Done_inv in Hsr as (on & Hon & _).
    unfold duration_histograms in Hon.
    rewrite (count_signal_breaks_only _ Hoff) in Hon. simpl in Hon.
    now rewrite get_local_maximums_empty in Hon.
  - exists EmptyContainer. unfold processSignals, duration_histograms.
    rewrite (count_signal_pulses_only _ Hon). simpl.
    now rewrite get_local_maximums_empty.
Qed.

End ProcessSignalsFacts.

(** [processSignals] needs pulses and breaks: on a Signal list without a
    pulse, or without a break, it does not return; one of the two
    histograms is empty, and its peaks are asked for all the same. *)
Theorem processSignals_needs_pulses_and_breaks
    {D : Util.Double} {Srt : Util.StdSort} (self : VideoMorseDecode) :
  Forall (fun s => state s = 0) (m_signals self)
  \/ Forall (fun s => state s <> 0) (m_signals self) ->
  exists u, processSignals self = Undefined u.
Proof. apply processSignals_one_kind. Qed.

Lemma processSignals_needs_pulses_and_breaks_witness :
  exists u,
    processSignals (D := Binary64.binary64) (Srt := MergeSort.sort)
      {| m_frame_luminance_histogram := replicate 256 0;
         m_frames := [];
         m_signals := [{| state := 0; duration := 4 |}];
         m_mean_luminance := 0 |} = Undefined u.
Proof.
  apply (processSignals_needs_pulses_and_breaks
           (D := Binary64.binary64) (Srt := MergeSort.sort)).
  left. repeat constructor.
Defined.

(** ** The whole run *)

Section RunFacts.

Context {D : Util.Double} {Srt : Util.StdSort}.

Lemma vec_get_fuel {A} (v : list A) i : vec_get v i <> OutOfFuel.
Proof.
  unfold vec_get. destruct (i <? 0); [done|].
  now destruct (v !! Z.to_nat i).
Qed.

Lemma histogram_loop_fuel hist ns :
  forall acc, histogram_loop hist acc ns <> OutOfFuel.
Proof.
  induction ns as [|n ns IH]; intros acc; simpl; [done|].
  unfold histogram_step. pose proof (vec_get_fuel hist n) as H.
  destruct (vec_get hist n); [|done..]. rewrite !bind_Done. apply IH.
Qed.

Lemma calculateHistogram_fuel self : calculateHistogram self <> OutOfFuel.
Proof.
  unfold calculateHistogram.
  pose proof (histogram_loop_fuel (m_frame_luminance_histogram self)
                histogram_indices (0, 0)) as H.
  destruct (histogram_loop _ _ _); [|done..]. rewrite bind_Done.
  now case_bool_decide.
Qed.

(** The frame loop stores the samples it was given, in order, and never
    touches [m_signals]. *)
Lemma process_frames_stores samples :
  forall self,
    process_frames samples self <> OutOfFuel
    /\ forall self',
         process_frames samples self = Done self' ->
         m_frames self' = m_frames self ++ (frame_of <$> samples)
         /\ m_signals self' = m_signals self.
Proof.
  induction samples as [|[i t] samples IH]; intros self; simpl.
  - split; [done|]. intros self' [= <-]. now rewrite app_nil_r.
  - unfold processFrame at 1 2.
    pose proof (vec_get_fuel (m_frame_luminance_histogram self) t) as H.
    destruct (vec_get _ t) as [n| |]; [|done..]. rewrite !bind_Done.
    destruct (IH {| m_frame_luminance_histogram :=
                      <[Z.to_nat t := to_unsigned (n + 1)]>
                        (m_frame_luminance_histogram self);
                    m_frames := m_frames self
                                ++ [{| time := to_unsigned i;
                                       luminance := to_unsigned t |}];
                    m_signals := m_signals self;
                    m_mean_luminance := m_mean_luminance self |})
      as [IH1 IH2].
    split; [exact IH1|]. intros self' Hrun.
    destruct (IH2 self' Hrun) as [Hfr Hsig]. simpl in *.
    rewrite Hfr, <- app_assoc. done.
Qed.

(** Every frame adds at most one Signal. *)
Lemma segment_count mean frames :
  forall sg,
    (length (signals (foldl (segment_step mean) sg frames))
     <= length (signals sg) + length frames)%nat.
Proof.
  induction frames as [|f frames IH]; intros sg; simpl; [lia|].
  specialize (IH (segment_step mean sg f)).
  assert (length (signals (segment_step mean sg f))
          <= S (length (signals sg)))%nat.
  { unfold segment_step. case_bool_decide; simpl; [|lia].
    rewrite length_app. simpl. lia. }
  lia.
Qed.

Lemma processSignals_morse self sr :
  processSignals self = Done sr ->
  exists off0 off1 on0, morse sr = assemble off0 off1 on0 (m_signals self).
Proof.
  unfold processSignals. intros H.
  apply bind_Done_inv in H as (off & _ & H).
  apply bind_Done_inv in H as (off_thr & _ & H).
  apply bind_Done_inv in H as (on & _ & H).
  apply bind_Done_inv in H as (on_thr & _ & [= <-]).
  simpl. eauto.
Qed.

Lemma assemble_length off0 off1 on0 sigs :
  (length (assemble off0 off1 on0 sigs) <= 3 * length sigs)%nat.
Proof.
  rewrite assemble_concat.
  exact (proj2 (proj2 (concat_tokens_shape off0 off1 on0 sigs))).
Qed.

Lemma decode_samples_fuel fuel samples :
  (3 * length samples < fuel)%nat ->
  decode_samples fuel samples <> OutOfFuel.
Proof.
  intros Hfuel. unfold decode_samples.
  destruct (process_frames_stores samples VideoMorseDecode_new) as [H1 H1'].
  destruct (process_frames samples VideoMorseDecode_new) as [s1| |];
    [|done..].
  destruct (H1' s1 eq_refl) as [Hfr Hsig]. rewrite bind_Done. unfold run.
  pose proof (calculateHistogram_fuel s1) as H2.
  destruct (calculateHistogram s1) as [s2| |] eqn:Hs2; [|done..].
  apply calculateHistogram_Done in Hs2 as (Hfr2 & Hsig2 & _).
  rewrite bind_Done.
  pose proof (processSignals_fuel (processStateChanges s2)) as H3.
  destruct (processSignals (processStateChanges s2)) as [sr| |] eqn:Hsr;
    [|done..].
  rewrite bind_Done.
  apply processSignals_morse in Hsr as (off0 & off1 & on0 & Hm).
  destruct (decodeMorse_stops fuel (morse sr)) as [msg Hmsg].
  - rewrite Hm.
    assert (Hsg : m_signals (processStateChanges s2)
                  = signals (foldl (segment_step (m_mean_luminance s2))
                                   (segmenter_init [])
                                   (frame_of <$> samples))).
    { unfold processStateChanges. cbn [m_signals].
      rewrite Hfr2, Hsig2, Hfr, Hsig. reflexivity. }
    rewrite Hsg.
    pose proof (assemble_length off0 off1 on0
                  (signals (foldl (segment_step (m_mean_luminance s2))
                                  (segmenter_init [])
                                  (frame_of <$> samples)))) as Hl.
    pose proof (segment_count (m_mean_luminance s2) (frame_of <$> samples)
                  (segmenter_init [])) as Hc.
    rewrite length_fmap in Hc. simpl in Hc. lia.
  - now rewrite Hmsg.
Qed.

End RunFacts.

(** The run never hangs in [decodeMorse]: with a bound on the loop tests
    of [replace_all] above three times the number of samples, decoding a
    sample sequence does not run out of loop tests, whatever the
    samples. *)
Theorem decode_samples_needs_bounded_loops
    {D : Util.Double} {Srt : Util.StdSort}
    (fuel : nat) (samples : list (Z * Z)) :
  (3 * length samples < fuel)%nat ->
  decode_samples fuel samples <> OutOfFuel.
Proof. apply decode_samples_fuel. Qed.

Lemma decode_samples_needs_bounded_loops_witness :
  length flashing_samples = 135%nat
  /\ decode_samples (D := Binary64.binary64) (Srt := MergeSort.sort)
                    406 flashing_samples <> OutOfFuel
  /\ exists r,
       decode_samples (D := Binary64.binary64) (Srt := MergeSort.sort)
                      406 flashing_samples = Done r
       /\ morse (signal_part r) = str " | .- | .- | .- . - "
       /\ message r = str " A A AET".
Proof.
  split; [reflexivity|]. split.
  - apply (decode_samples_needs_bounded_loops
             (D := Binary64.binary64) (Srt := MergeSort.sort) 406).
    vm_compute. lia.
  - eexists. split; [vm_compute; reflexivity|]. split; reflexivity.
Defined.

(** ** The mean as the on/off threshold *)

Section MeanThresholdFacts.

(** The decoder after the two stages, for samples whose number and sum
    of luminances fit 32 bits: the mean is the truncated average. *)
Lemma segmented_mean samples :
  samples <> [] ->
  Forall (fun s => 0 <= s.2 <= 255) samples ->
  Z.of_nat (length samples) < 2 ^ 32 ->
  luminance_total samples < 2 ^ 32 ->
  exists self,
    segmented samples = Done self
    /\ m_mean_luminance self
       = luminance_total samples / Z.of_nat (length samples)
    /\ 0 <= m_mean_luminance self <= 255.
Proof.
  intros Hne Hr Hlen Hsum. unfold segmented.
  destruct (process_frames_Done samples Hr VideoMorseDecode_new
              new_histogram_length) as (s1 & Hrun & Hlen256 & _).
  destruct (frame_loop_sums samples s1 Hr Hlen Hrun) as [Hcount Hweight].
  pose proof (luminance_total_bounds samples Hr) as Hb.
  assert (Hpos : 0 < Z.of_nat (length samples)).
  { destruct samples; [done|simpl; lia]. }
  rewrite Hrun, bind_Done.
  rewrite calculateHistogram_value, bind_Done;
    [|done|rewrite Hcount, to_unsigned_small; lia].
  eexists. split; [reflexivity|].
  unfold processStateChanges. cbn [m_mean_luminance].
  rewrite Hcount, Hweight, !to_unsigned_small by lia.
  assert (luminance_total samples / Z.of_nat (length samples) <= 255)
    by (apply Z.div_le_upper_bound; lia).
  assert (0 <= luminance_total samples / Z.of_nat (length samples))
    by (apply Z.div_pos; lia).
  rewrite to_int_small by (unfold INT_MAX; lia). done.
Qed.

Lemma luminance_total_below c samples :
  Forall (fun s => s.2 <= c) samples ->
  luminance_total samples <= c * Z.of_nat (length samples).
Proof.
  unfold luminance_total.
  induction 1 as [|s samples Hs _ IH]; [simpl; lia|].
  rewrite sumZ_cons. simpl length. lia.
Qed.

(** The first element of a list that satisfies [P], with those before. *)
Lemma first_that {A} (P : A -> Prop) `{!forall x, Decision (P x)}
    (l : list A) :
  Forall (fun x => ~ P x) l
  \/ exists before x after,
       l = before ++ x :: after /\ Forall (fun y => ~ P y) before /\ P x.
Proof.
  induction l as [|x l IH]; [left; constructor|].
  destruct (decide (P x)) as [Hx|Hx].
  - right. exists [], x, l. split; [done|]. split; [constructor|done].
  - destruct IH as [Hall|(before & y & after & -> & Hb & Hy)].
    + left. now constructor.
    + right. exists (x :: before), y, after.
      split; [done|]. split; [now constructor|done].
Qed.

(** A frame at least as bright as the truncated average exists. *)
Lemma some_sample_reaches_mean samples :
  samples <> [] ->
  Forall (fun s => 0 <= s.2 <= 255) samples ->
  exists before s after,
    samples = before ++ s :: after
    /\ Forall (fun x => x.2
                        < luminance_total samples
                          / Z.of_nat (length samples)) before
    /\ luminance_total samples / Z.of_nat (length samples) <= s.2.
Proof.
  intros Hne Hr.
  set (mean := luminance_total samples / Z.of_nat (length samples)).
  assert (Hpos : 0 < Z.of_nat (length samples)).
  { destruct samples; [done|simpl; lia]. }
  destruct (first_that (fun s : Z * Z => mean <= s.2) samples)
    as [Hall|(before & s & after & Heq & Hb & Hs)].
  - exfalso.
    assert (Hle : luminance_total samples
                  <= (mean - 1) * Z.of_nat (length samples)).
    { apply luminance_total_below. eapply Forall_impl; [exact Hall|].
      intros s Hs. simpl in Hs. lia. }
    assert (mean * Z.of_nat (length samples) <= luminance_total samples).
    { unfold mean. rewrite Z.mul_comm. apply Z.mul_div_le. lia. }
    lia.
  - exists before, s, after. split; [done|]. split; [|done].
    eapply Forall_impl; [exact Hb|]. intros x Hx. simpl in Hx. lia.
Qed.

(** Once the state is 1, frames that reach the mean add no Signal. *)
Lemma segment_lit_frames mean frames :
  Forall (fun g => to_unsigned mean <= luminance g) frames ->
  forall sg,
    last_state sg = 1 ->
    signals (foldl (segment_step mean) sg frames) = signals sg.
Proof.
  induction 1 as [|g frames Hg _ IH]; intros sg Hsg; [done|]. simpl.
  assert (Hstep : segment_step mean sg g
                  = {| cur_state := 1; last_state := 1;
                       last_time := last_time sg;
                       signals := signals sg |}).
  { unfold segment_step.
    rewrite (bool_decide_false (luminance g < to_unsigned mean)) by lia.
    rewrite (bool_decide_true (to_unsigned mean <= luminance g)) by done.
    rewrite Hsg. reflexivity. }
  rewrite Hstep. now rewrite IH.
Qed.

Lemma segment_first_lit mean f :
  to_unsigned mean <= luminance f ->
  0 <= time f < 2 ^ 32 ->
  segment_step mean (segmenter_init []) f
  = {| cur_state := 1; last_state := 1; last_time := to_int (time f);
       signals := [{| state := 0; duration := time f |}] |}.
Proof.
  intros Hf Ht. unfold segment_step.
  rewrite (bool_decide_false (luminance f < to_unsigned mean)) by lia.
  rewrite (bool_decide_true (to_unsigned mean <= luminance f)) by done.
  simpl. change (to_unsigned 0) with 0.
  now rewrite Z.sub_0_r, to_unsigned_small.
Qed.

Lemma well_formed_samples_brightness samples :
  well_formed_samples samples ->
  Forall (fun s => 0 <= s.2 <= 255) samples.
Proof.
  intros [_ Hr]. eapply Forall_impl; [exact Hr|]. now intros s [_ H].
Qed.

Lemma first_signal_exists samples :
  samples <> [] ->
  well_formed_samples samples ->
  Z.of_nat (length samples) < 2 ^ 32 ->
  luminance_total samples < 2 ^ 32 ->
  exists self before s after rest,
    segmented samples = Done self
    /\ samples = before ++ s :: after
    /\ Forall (fun x => x.2 < m_mean_luminance self) before
    /\ m_mean_luminance self <= s.2
    /\ m_signals self = {| state := 0; duration := s.1 |} :: rest.
Proof.
  intros Hne Hwf Hlen Hsum.
  pose proof (well_formed_samples_brightness samples Hwf) as Hr.
  destruct (segmented_mean samples Hne Hr Hlen Hsum)
    as (self & Hseg & Hmean & Hrange).
  destruct (some_sample_reaches_mean samples Hne Hr)
    as (before & s & after & Heq & Hb & Hs).
  rewrite <- Hmean in Hb, Hs.
  destruct (segmented_Done samples self Hr Hseg) as [_ Hsig].
  assert (Hall : Forall (fun x => 0 <= x.1 < 2 ^ 32 /\ 0 <= x.2 <= 255)
                        samples) by apply Hwf.
  rewrite Heq in Hall. apply Forall_app in Hall as [Hall1 Hall2].
  apply Forall_cons in Hall2 as [[Hs1 Hs2] _].
  assert (Hfirst :
            signals (foldl (segment_step (m_mean_luminance self))
                           (segmenter_init []) (frame_of <$> samples))
              !! 0%nat
            = Some {| state := 0; duration := s.1 |}).
  { rewrite Heq, fmap_app, fmap_cons.
    rewrite segment_first_signal.
    - simpl. now rewrite to_unsigned_small.
    - apply Forall_fmap. rewrite Forall_forall in Hb, Hall1 |- *.
      intros x Hx. specialize (Hb x Hx). specialize (Hall1 x Hx). simpl.
      rewrite !to_unsigned_small by lia. done.
    - simpl. rewrite !to_unsigned_small by lia. done.
    - simpl. rewrite to_unsigned_small by lia. done. }
  rewrite <- Hsig in Hfirst.
  destruct (m_signals self) as [|s0 rest] eqn:Hms; [done|].
  injection Hfirst as ->.
  now exists self, before, s, after, rest.
Qed.

Lemma constant_brightness_signals b samples :
  samples <> [] ->
  well_formed_samples samples ->
  Forall (fun s => s.2 = b) samples ->
  255 * Z.of_nat (length samples) < 2 ^ 32 ->
  exists self i t after,
    samples = (i, t) :: after
    /\ segmented samples = Done self
    /\ m_mean_luminance self = b
    /\ m_signals self = [{| state := 0; duration := i |}].
Proof.
  intros Hne Hwf Hconst Hlen.
  pose proof (well_formed_samples_brightness samples Hwf) as Hr.
  pose proof (luminance_total_bounds samples Hr) as Hb.
  assert (Hpos : 0 < Z.of_nat (length samples)).
  { destruct samples; [done|simpl; lia]. }
  destruct (segmented_mean samples Hne Hr ltac:(lia) ltac:(lia))
    as (self & Hseg & Hmean & Hrange).
  assert (Htotal : luminance_total samples = b * Z.of_nat (length samples)).
  { clear -Hconst. unfold luminance_total.
    induction Hconst as [|s samples Hs _ IH]; [simpl; lia|].
    rewrite sumZ_cons, IH, Hs. simpl length. lia. }
  rewrite Htotal, Z.div_mul in Hmean by lia.
  destruct (segmented_Done samples self Hr Hseg) as [_ Hsig].
  destruct samples as [|[i t] after]; [exfalso; apply Hne; reflexivity|].
  exists self, i, t, after.
  split; [reflexivity|]. split; [exact Hseg|]. split; [exact Hmean|].
  rewrite Hsig, Hmean. rewrite fmap_cons. cbn [foldl].
  assert (Hall : Forall (fun x => 0 <= x.1 < 2 ^ 32 /\ 0 <= x.2 <= 255)
                        ((i, t) :: after)) by apply Hwf.
  apply Forall_cons in Hall as [[Hi Ht] Hafter]. simpl in Hi, Ht.
  apply Forall_cons in Hconst as [Htb Hconst]. simpl in Htb. subst t.
  rewrite segment_first_lit.
  - rewrite segment_lit_frames; [|apply Forall_fmap|done].
    + simpl. now rewrite to_unsigned_small.
    + rewrite Forall_forall in Hconst, Hafter |- *. intros x Hx.
      specialize (Hconst x Hx). specialize (Hafter x Hx). simpl.
      rewrite Hconst, !to_unsigned_small by lia. lia.
  - simpl. rewrite !to_unsigned_small by lia. lia.
  - simpl. rewrite to_unsigned_small by lia. done.
Qed.

End MeanThresholdFacts.

(** For every non-empty sample sequence (number of samples and sum of
    luminances below 2^32) the mean is at most the brightest sample, so
    some sample is classified as lit: the Signal list is never empty, and
    its first Signal is the break from frame index 0 to the first sample
    whose luminance reaches the mean. *)
Theorem first_signal_always_emitted (samples : list (Z * Z)) :
  samples <> [] ->
  well_formed_samples samples ->
  Z.of_nat (length samples) < 2 ^ 32 ->
  luminance_total samples < 2 ^ 32 ->
  exists self before s after rest,
    segmented samples = Done self
    /\ samples = before ++ s :: after
    /\ Forall (fun x => x.2 < m_mean_luminance self) before
    /\ m_mean_luminance self <= s.2
    /\ m_signals self = {| state := 0; duration := s.1 |} :: rest.
Proof. apply first_signal_exists. Qed.

Lemma first_signal_always_emitted_witness :
  exists self rest,
    segmented [(5, 10); (6, 10); (7, 200); (8, 10)] = Done self
    /\ m_signals self = {| state := 0; duration := 7 |} :: rest.
Proof.
  destruct (first_signal_always_emitted [(5, 10); (6, 10); (7, 200); (8, 10)])
    as (self & before & s & after & rest & Hseg & Heq & Hb & Hs & Hsig).
  - discriminate.
  - split; repeat constructor; simpl; lia.
  - simpl. lia.
  - vm_compute. reflexivity.
  - exists self, rest. split; [exact Hseg|].
    rewrite Hsig. vm_compute in Hseg. injection Hseg as <-.
    simpl in Hb, Hs.
    destruct before as [|x0 [|x1 [|x2 [|x3 l]]]]; simpl in Heq;
      injection Heq; intros; subst; simpl in *;
      try reflexivity;
      try (apply Forall_inv in Hb; simpl in Hb; lia);
      try (apply Forall_inv_tail in Hb; apply Forall_inv in Hb;
           simpl in Hb; lia);
      try lia; try discriminate.
    destruct l; discriminate.
Defined.

(** A recording of constant brightness is not decoded: the mean is that
    brightness, every frame is classified as lit, the only Signal is the
    break from frame index 0 to the first frame, and [processSignals],
    which needs pulses, does not return. *)
Theorem constant_brightness_not_decoded
    {D : Util.Double} {Srt : Util.StdSort}
    (b : Z) (samples : list (Z * Z)) :
  samples <> [] ->
  well_formed_samples samples ->
  Forall (fun s => s.2 = b) samples ->
  255 * Z.of_nat (length samples) < 2 ^ 32 ->
  exists self i t after,
    samples = (i, t) :: after
    /\ segmented samples = Done self
    /\ m_mean_luminance self = b
    /\ m_signals self = [{| state := 0; duration := i |}]
    /\ exists u, processSignals self = Undefined u.
Proof.
  intros Hne Hwf Hconst Hlen.
  destruct (constant_brightness_signals b samples Hne Hwf Hconst Hlen)
    as (self & i & t & after & Heq & Hseg & Hmean & Hsig).
  exists self, i, t, after. repeat (split; [done|]).
  apply processSignals_one_kind. left. rewrite Hsig. repeat constructor.
Qed.

Lemma constant_brightness_not_decoded_witness :
  exists self u,
    segmented [(3, 77); (4, 77); (5, 77)] = Done self
    /\ m_mean_luminance self = 77
    /\ processSignals (D := Binary64.binary64) (Srt := MergeSort.sort) self
       = Undefined u.
Proof.
  destruct (constant_brightness_not_decoded
              (D := Binary64.binary64) (Srt := MergeSort.sort)
              77 [(3, 77); (4, 77); (5, 77)])
    as (self & i & t & after & _ & Hseg & Hmean & _ & u & Hu).
  - discriminate.
  - split; repeat constructor; simpl; lia.
  - repeat constructor.
  - simpl. lia.
  - exists self, u. split; [exact Hseg|]. split; [exact Hmean|exact Hu].
Defined.


(** ** The average over the selected area *)

Section FrameAreaFacts.

Context {D : Util.Double}.

Lemma int_div_between a b lo hi :
  0 < b -> 0 <= lo -> hi <= INT_MAX ->
  lo * b <= a <= hi * b ->
  exists q, int_div a b = Done q /\ lo <= q <= hi.
Proof.
  intros Hb Hlo Hhi Ha. unfold int_div.
  rewrite bool_decide_false by lia.
  rewrite Z.quot_div_nonneg by nia.
  assert (lo <= a / b) by (apply Z.div_le_lower_bound; lia).
  assert (a / b <= hi) by (apply Z.div_le_upper_bound; lia).
  exists (a / b). rewrite to_int_small by (unfold INT_MAX in *; lia). done.
Qed.

(** A pixel inside the frame whose blue byte is between [lo] and [hi]. *)
Lemma pixel_between frame y x lo hi b :
  0 <= linesize_0 frame -> 0 <= y -> 0 <= x ->
  y * linesize_0 frame <= INT_MAX ->
  x * 3 + 2 <= INT_MAX ->
  0 <= lo -> hi <= 255 ->
  blue_byte frame y x = Some b -> lo <= b <= hi ->
  pixel frame y x = Done b.
Proof.
  intros Hls Hy Hx Hrow Hcol Hlo Hhi Hb Hrange.
  unfold blue_byte in Hb. unfold pixel.
  assert (0 <= y * linesize_0 frame) by nia.
  rewrite !(to_int_small (x * 3)) by (unfold INT_MAX in *; lia).
  rewrite !to_int_small by (unfold INT_MAX in *; lia).
  pose proof (lookup_lt_Some _ _ _ Hb) as Hlt.
  destruct (lookup_lt_is_Some_2 (data_0 frame)
              (Z.to_nat (y * linesize_0 frame + x * 3))) as [r Hr]; [lia|].
  destruct (lookup_lt_is_Some_2 (data_0 frame)
              (Z.to_nat (y * linesize_0 frame + (x * 3 + 1))))
    as [g Hg]; [lia|].
  rewrite (proj2 (vec_get_Done (data_0 frame)
                    (y * linesize_0 frame + x * 3) r)), bind_Done
    by (split; [lia|exact Hr]).
  rewrite (proj2 (vec_get_Done (data_0 frame)
                    (y * linesize_0 frame + (x * 3 + 1)) g)), bind_Done
    by (split; [lia|exact Hg]).
  rewrite (proj2 (vec_get_Done (data_0 frame)
                    (y * linesize_0 frame + (x * 3 + 2)) b)), bind_Done.
  - rewrite (bool_decide_false (b < 0)) by lia.
    now rewrite (bool_decide_false (255 < b)) by lia.
  - split; [lia|]. rewrite <- Hb. f_equal. lia.
Qed.

Lemma row_loop_between frame y lo hi xs :
  0 <= linesize_0 frame -> 0 <= y ->
  y * linesize_0 frame <= INT_MAX ->
  0 <= lo -> hi <= 255 ->
  Forall (fun x => 0 <= x /\ x * 3 + 2 <= INT_MAX
                   /\ exists b, blue_byte frame y x = Some b
                                /\ lo <= b <= hi) xs ->
  forall s,
    0 <= s -> s + hi * Z.of_nat (length xs) <= INT_MAX ->
    exists s',
      row_loop frame y s xs = Done s'
      /\ s + lo * Z.of_nat (length xs) <= s'
         <= s + hi * Z.of_nat (length xs).
Proof.
  intros Hls Hy Hrow Hlo Hhi.
  induction 1 as [|x xs (Hx & Hcol & b & Hb & Hrange) _ IH]; intros s Hs Hfit.
  - exists s. simpl. split; [done|lia].
  - simpl length in *. simpl row_loop.
    rewrite (pixel_between frame y x lo hi b), bind_Done by done.
    rewrite to_int_small by (unfold INT_MAX in *; nia).
    destruct (IH (s + b)) as (s' & Hrun & Hs'); [lia|nia|].
    exists s'. split; [done|nia].
Qed.

Lemma area_loop_between frame x0 x1 lo hi ys :
  0 <= linesize_0 frame -> 0 <= x0 < x1 ->
  x1 * 3 <= INT_MAX -> 255 * (x1 - x0) <= INT_MAX ->
  0 <= lo -> hi <= 255 ->
  Forall (fun y => 0 <= y /\ y * linesize_0 frame <= INT_MAX
                   /\ forall x, x0 <= x < x1 ->
                        exists b, blue_byte frame y x = Some b
                                  /\ lo <= b <= hi) ys ->
  forall t,
    0 <= t -> t + hi * Z.of_nat (length ys) <= INT_MAX ->
    exists t',
      area_loop frame x0 x1 t ys = Done t'
      /\ t + lo * Z.of_nat (length ys) <= t'
         <= t + hi * Z.of_nat (length ys).
Proof.
  intros Hls Hx Hcol Hw Hlo Hhi.
  induction 1 as [|y ys (Hy & Hrow & Hbytes) _ IH]; intros t Ht Hfit.
  - exists t. simpl. split; [done|lia].
  - simpl length in *. simpl area_loop.
    destruct (row_loop_between frame y lo hi (seqZ x0 (x1 - x0))
                Hls Hy Hrow Hlo Hhi) with (s := 0)
      as (s & Hrun & Hs); [|lia| |].
    + apply Forall_forall. intros x Hin. apply elem_of_seqZ in Hin.
      split; [lia|]. split; [unfold INT_MAX in *; lia|].
      apply Hbytes. lia.
    + rewrite length_seqZ. unfold INT_MAX in *. nia.
    + rewrite length_seqZ, Z2Nat.id in Hs by lia.
      rewrite Hrun, bind_Done.
      rewrite to_int_small by (unfold INT_MAX in *; lia).
      destruct (int_div_between s (x1 - x0) lo hi) as (q & Hq & Hqr);
        [lia|lia|unfold INT_MAX; lia|lia|].
      rewrite Hq, bind_Done.
      rewrite to_int_small by (unfold INT_MAX in *; nia).
      destruct (IH (t + q)) as (t' & Hrun' & Ht'); [lia|nia|].
      exists t'. split; [done|nia].
Qed.

Lemma in_frame_window_tests m_options frame_index :
  in_frame_window m_options frame_index ->
  bool_decide (Options.start_frame m_options <> -1)
  && bool_decide (frame_index < Options.start_frame m_options) = false
  /\ bool_decide (Options.end_frame m_options <> -1)
     && bool_decide (Options.end_frame m_options < frame_index) = false.
Proof.
  intros [[Hs|Hs] [He|He]]; split;
    repeat case_bool_decide; simpl; try reflexivity; lia.
Qed.

(** [processFrame] after the four conversions, for area bounds that are
    defined. *)
Lemma processFrame_pixels_area m_options frame width height frame_index self
    x0 y0 x1 y1 :
  area_bound width (Options.x0 m_options) = Done x0 ->
  area_bound height (Options.y0 m_options) = Done y0 ->
  area_bound width (Options.x1 m_options) = Done x1 ->
  area_bound height (Options.y1 m_options) = Done y1 ->
  processFrame_pixels m_options frame width height frame_index self
  = if bool_decide (Options.start_frame m_options <> -1)
       && bool_decide (frame_index < Options.start_frame m_options)
    then Done self
    else if bool_decide (Options.end_frame m_options <> -1)
            && bool_decide (Options.end_frame m_options < frame_index)
    then Done self
    else
      t ← area_loop frame x0 x1 0 (seqZ y0 (y1 - y0));
      t' ← int_div t (to_int (y1 - y0));
      processFrame t' frame_index self.
Proof.
  intros Hx0 Hy0 Hx1 Hy1. unfold processFrame_pixels.
  now rewrite Hx0, bind_Done, Hy0, bind_Done, Hx1, bind_Done, Hy1, bind_Done.
Qed.

(** A call that returns has converted the four bounds. *)
Lemma processFrame_pixels_Done m_options frame width height frame_index
    self self' :
  processFrame_pixels m_options frame width height frame_index self
  = Done self' ->
  exists x0 y0 x1 y1,
    area_bound width (Options.x0 m_options) = Done x0
    /\ area_bound height (Options.y0 m_options) = Done y0
    /\ area_bound width (Options.x1 m_options) = Done x1
    /\ area_bound height (Options.y1 m_options) = Done y1.
Proof.
  unfold processFrame_pixels.
  intros (x0 & Hx0 & H)%bind_Done_inv.
  apply bind_Done_inv in H as (y0 & Hy0 & H).
  apply bind_Done_inv in H as (x1 & Hx1 & H).
  apply bind_Done_inv in H as (y1 & Hy1 & _).
  now exists x0, y0, x1, y1.
Qed.

Lemma outside_frame_window m_options frame width height frame_index self
    x0 y0 x1 y1 :
  area_bound width (Options.x0 m_options) = Done x0 ->
  area_bound height (Options.y0 m_options) = Done y0 ->
  area_bound width (Options.x1 m_options) = Done x1 ->
  area_bound height (Options.y1 m_options) = Done y1 ->
  ~ in_frame_window m_options frame_index ->
  processFrame_pixels m_options frame width height frame_index self
  = Done self.
Proof.
  intros Hx0 Hy0 Hx1 Hy1 Hout.
  rewrite (processFrame_pixels_area _ _ _ _ _ _ _ _ _ _ Hx0 Hy0 Hx1 Hy1).
  unfold in_frame_window in *.
  repeat case_bool_decide; simpl; try reflexivity; exfalso; apply Hout; lia.
Qed.

Lemma processFrame_appends t frame_index self self' :
  processFrame t frame_index self = Done self' ->
  m_frames self'
  = m_frames self ++ [{| time := to_unsigned frame_index;
                         luminance := to_unsigned t |}].
Proof.
  unfold processFrame. intros H.
  apply bind_Done_inv in H as (n & _ & H). now injection H as <-.
Qed.

Lemma area_loop_no_rows frame x0 x1 t ys :
  x1 < x0 -> - 2 ^ 31 <= x1 - x0 -> - 2 ^ 31 <= t <= INT_MAX ->
  area_loop frame x0 x1 t ys = Done t.
Proof.
  intros Hx Hfit Ht. induction ys as [|y ys IH]; [done|].
  cbn [area_loop]. rewrite seqZ_nil by lia. cbn [row_loop].
  rewrite bind_Done. unfold int_div.
  rewrite (to_int_small (x1 - x0)) by (unfold INT_MAX; lia).
  rewrite bool_decide_false by lia. rewrite bind_Done.
  rewrite Z.quot_0_l by lia.
  change (to_int 0) with 0. rewrite Z.add_0_r, to_int_small by done.
  exact IH.
Qed.

End FrameAreaFacts.

(** A frame is recorded exactly when its index is inside the window of
    the options: whenever [processFrame] returns, [m_frames] is unchanged
    if the index is below a start frame other than -1 or above an end
    frame other than -1 (no byte of the frame is read then), and has grown
    by one entry carrying the frame index otherwise. *)
Theorem frame_recorded_iff_in_window {D : Util.Double}
    (m_options : Options.Options) (frame : AVFrame)
    (width height frame_index : Z) (self self' : VideoMorseDecode) :
  processFrame_pixels m_options frame width height frame_index self
  = Done self' ->
  (~ in_frame_window m_options frame_index -> self' = self)
  /\ (in_frame_window m_options frame_index ->
      exists t, m_frames self'
                = m_frames self ++ [{| time := to_unsigned frame_index;
                                       luminance := t |}]).
Proof.
  intros Hrun.
  destruct (processFrame_pixels_Done _ _ _ _ _ _ _ Hrun)
    as (x0 & y0 & x1 & y1 & Hx0 & Hy0 & Hx1 & Hy1).
  split.
  - intros Hout.
    rewrite (outside_frame_window _ _ _ _ _ _ _ _ _ _ Hx0 Hy0 Hx1 Hy1 Hout)
      in Hrun.
    now injection Hrun.
  - intros Hin.
    rewrite (processFrame_pixels_area _ _ _ _ _ _ _ _ _ _ Hx0 Hy0 Hx1 Hy1)
      in Hrun.
    destruct (in_frame_window_tests _ _ Hin) as [Hs He].
    rewrite Hs, He in Hrun.
    apply bind_Done_inv in Hrun as (t & _ & Hrun).
    apply bind_Done_inv in Hrun as (t' & _ & Hrun).
    exists (to_unsigned t'). now apply processFrame_appends.
Qed.

Lemma frame_recorded_iff_in_window_witness :
  exists self' t,
    processFrame_pixels middle_columns small_frame 4 2 5 VideoMorseDecode_new
    = Done self'
    /\ m_frames self' = [{| time := 5; luminance := t |}].
Proof.
  assert (Hrun : processFrame_pixels middle_columns small_frame 4 2 5
                   VideoMorseDecode_new
                 = processFrame 115 5 VideoMorseDecode_new)
    by (vm_compute; reflexivity).
  destruct (processFrame_Done 115 5 VideoMorseDecode_new)
    as (n & _ & Hdone); [rewrite new_histogram_length; lia|].
  rewrite Hdone in Hrun.
  destruct (frame_recorded_iff_in_window _ _ _ _ _ _ _ Hrun) as [_ Hin].
  destruct Hin as [t Ht]; [unfold in_frame_window; simpl; lia|].
  eexists _, t. split; [exact Hrun|exact Ht].
Defined.

(** The luminance of a frame lies between the darkest and the brightest
    blue byte of the selected area.  For a non-empty area inside the frame
    (at most 8 421 504 pixels wide and high, so that the sums fit int)
    whose blue bytes are all between [lo] and [hi], [processFrame] counts
    and records the frame with a luminance between [lo] and [hi]: never
    an index outside the 256 entries of the histogram, and the byte
    itself for an area of one colour. *)
Theorem area_luminance_between {D : Util.Double}
    (m_options : Options.Options) (frame : AVFrame)
    (width height frame_index : Z) (self : VideoMorseDecode)
    (x0 y0 x1 y1 lo hi : Z) :
  area_bound width (Options.x0 m_options) = Done x0 ->
  area_bound height (Options.y0 m_options) = Done y0 ->
  area_bound width (Options.x1 m_options) = Done x1 ->
  area_bound height (Options.y1 m_options) = Done y1 ->
  in_frame_window m_options frame_index ->
  0 <= x0 < x1 -> 0 <= y0 < y1 ->
  255 * (x1 - x0) <= INT_MAX -> 255 * (y1 - y0) <= INT_MAX ->
  x1 * 3 <= INT_MAX ->
  0 <= linesize_0 frame -> y1 * linesize_0 frame <= INT_MAX ->
  0 <= lo -> hi <= 255 ->
  (forall y x, y0 <= y < y1 -> x0 <= x < x1 ->
     exists b, blue_byte frame y x = Some b /\ lo <= b <= hi) ->
  length (m_frame_luminance_histogram self) = 256%nat ->
  exists t n,
    lo <= t <= hi
    /\ m_frame_luminance_histogram self !! Z.to_nat t = Some n
    /\ processFrame_pixels m_options frame width height frame_index self
       = Done {| m_frame_luminance_histogram :=
                   <[Z.to_nat t := to_unsigned (n + 1)]>
                     (m_frame_luminance_histogram self);
                 m_frames := m_frames self ++ [frame_of (frame_index, t)];
                 m_signals := m_signals self;
                 m_mean_luminance := m_mean_luminance self |}.
Proof.
  intros Hx0 Hy0 Hx1 Hy1 Hin Hx Hy Hw Hh Hcol Hls Hrow Hlo Hhi Hbytes Hlen.
  rewrite (processFrame_pixels_area _ _ _ _ _ _ _ _ _ _ Hx0 Hy0 Hx1 Hy1).
  destruct (in_frame_window_tests _ _ Hin) as [-> ->].
  destruct (area_loop_between frame x0 x1 lo hi (seqZ y0 (y1 - y0))
              Hls Hx Hcol Hw Hlo Hhi) with (t := 0)
    as (t & Hrun & Ht); [|lia| |].
  - apply Forall_forall. intros y Hy'. apply elem_of_seqZ in Hy'.
    split; [lia|]. split; [nia|]. intros x Hx'. apply Hbytes; lia.
  - rewrite length_seqZ. unfold INT_MAX in *. nia.
  - rewrite length_seqZ, Z2Nat.id in Ht by lia.
    rewrite Hrun, bind_Done.
    rewrite to_int_small by (unfold INT_MAX in *; lia).
    destruct (int_div_between t (y1 - y0) lo hi) as (q & Hq & Hqr);
      [lia|lia|unfold INT_MAX; lia|lia|].
    rewrite Hq, bind_Done.
    destruct (processFrame_Done q frame_index self) as (n & Hn & Hdone);
      [rewrite Hlen; lia|].
    exists q, n. split; [done|]. split; [exact Hn|exact Hdone].
Qed.

Lemma area_luminance_between_witness :
  exists t self',
    100 <= t <= 130
    /\ processFrame_pixels middle_columns small_frame 4 2 5
         VideoMorseDecode_new
       = Done self'.
Proof.
  destruct (area_luminance_between middle_columns small_frame 4 2 5
              VideoMorseDecode_new 1 0 3 2 100 130)
    as (t & n & Ht & _ & Hrun);
    try (vm_compute; reflexivity);
    try (unfold INT_MAX; simpl; lia).
  - unfold in_frame_window. simpl. lia.
  - intros y x Hy Hx.
    assert (Hyc : y = 0 \/ y = 1) by lia.
    assert (Hxc : x = 1 \/ x = 2) by lia.
    destruct Hyc as [-> | ->], Hxc as [-> | ->];
      eexists; (split; [reflexivity|lia]).
  - exists t. eexists. split; [exact Ht|exact Hrun].
Defined.

(** An area without pixels.  For a frame inside the window: when the
    two rows bounds are equal, or the rows are in order and the two column
    bounds are equal, [processFrame] divides by zero; when the row bounds
    are the wrong way round, or the rows are in order and the column
    bounds the wrong way round, no byte is read and the frame is recorded
    with luminance 0. *)
Theorem empty_area {D : Util.Double}
    (m_options : Options.Options) (frame : AVFrame)
    (width height frame_index : Z) (self : VideoMorseDecode)
    (x0 y0 x1 y1 : Z) :
  area_bound width (Options.x0 m_options) = Done x0 ->
  area_bound height (Options.y0 m_options) = Done y0 ->
  area_bound width (Options.x1 m_options) = Done x1 ->
  area_bound height (Options.y1 m_options) = Done y1 ->
  in_frame_window m_options frame_index ->
  - 2 ^ 31 <= x1 - x0 <= INT_MAX ->
  - 2 ^ 31 <= y1 - y0 <= INT_MAX ->
  (y1 = y0 \/ (y0 < y1 /\ x1 = x0) ->
   processFrame_pixels m_options frame width height frame_index self
   = Undefined DivisionByZero)
  /\ (y1 < y0 \/ (y0 < y1 /\ x1 < x0) ->
      processFrame_pixels m_options frame width height frame_index self
      = processFrame 0 frame_index self).
Proof.
  intros Hx0 Hy0 Hx1 Hy1 Hin Hxfit Hyfit.
  rewrite (processFrame_pixels_area _ _ _ _ _ _ _ _ _ _ Hx0 Hy0 Hx1 Hy1).
  destruct (in_frame_window_tests _ _ Hin) as [-> ->].
  rewrite (to_int_small (y1 - y0)) by done.
  split.
  - intros [->|[Hy ->]].
    + rewrite Z.sub_diag. reflexivity.
    + destruct (seqZ y0 (y1 - y0)) as [|y ys] eqn:Hys.
      { apply (f_equal length) in Hys. rewrite length_seqZ in Hys.
        simpl in Hys. lia. }
      simpl. rewrite Z.sub_diag. reflexivity.
  - intros [Hy|[Hy Hx]].
    + rewrite seqZ_nil by lia. cbn [area_loop]. rewrite bind_Done.
      unfold int_div. rewrite bool_decide_false by lia.
      rewrite Z.quot_0_l by lia. reflexivity.
    + rewrite area_loop_no_rows, bind_Done by (unfold INT_MAX; lia).
      unfold int_div. rewrite bool_decide_false by lia.
      rewrite Z.quot_0_l by lia. reflexivity.
Qed.

Lemma empty_area_witness :
  processFrame_pixels no_columns small_frame 4 2 0 VideoMorseDecode_new
  = Undefined DivisionByZero
  /\ processFrame_pixels exchanged_columns small_frame 4 2 0
       VideoMorseDecode_new
     = processFrame 0 0 VideoMorseDecode_new.
Proof.
  split.
  - apply (empty_area no_columns small_frame 4 2 0 VideoMorseDecode_new
             2 0 2 2);
      try (vm_compute; reflexivity);
      try (unfold in_frame_window, INT_MAX; simpl; lia).
  - apply (empty_area exchanged_columns small_frame 4 2 0
             VideoMorseDecode_new 3 0 1 2);
      try (vm_compute; reflexivity);
      try (unfold in_frame_window, INT_MAX; simpl; lia).
Defined.


(** ** From frames to samples *)

Section FrameLoopFacts.

Context {D : Util.Double}.

(** The average [t] that reaches the histogram, for an area inside the
    frame. *)
Lemma area_average frame x0 y0 x1 y1 lo hi :
  0 <= x0 < x1 -> 0 <= y0 < y1 ->
  255 * (x1 - x0) <= INT_MAX -> 255 * (y1 - y0) <= INT_MAX ->
  x1 * 3 <= INT_MAX ->
  0 <= linesize_0 frame -> y1 * linesize_0 frame <= INT_MAX ->
  0 <= lo -> hi <= 255 ->
  area_blue_between frame x0 y0 x1 y1 lo hi ->
  exists t,
    lo <= t <= hi
    /\ (area_loop frame x0 x1 0 (seqZ y0 (y1 - y0))
        ≫= fun t => int_div t (to_int (y1 - y0))) = Done t.
Proof.
  intros Hx Hy Hw Hh Hcol Hls Hrow Hlo Hhi Hbytes.
  destruct (area_loop_between frame x0 x1 lo hi (seqZ y0 (y1 - y0))
              Hls Hx Hcol Hw Hlo Hhi) with (t := 0)
    as (t & Hrun & Ht); [|lia| |].
  - apply Forall_forall. intros y Hy'. apply elem_of_seqZ in Hy'.
    split; [lia|]. split; [nia|]. intros x Hx'. apply Hbytes; lia.
  - rewrite length_seqZ. unfold INT_MAX in *. nia.
  - rewrite length_seqZ, Z2Nat.id in Ht by lia.
    rewrite Hrun, bind_Done.
    rewrite to_int_small by (unfold INT_MAX in *; lia).
    destruct (int_div_between t (y1 - y0) lo hi) as (q & Hq & Hqr);
      [lia|lia|unfold INT_MAX; lia|lia|].
    exists q. split; [done|exact Hq].
Qed.

Lemma window_samples_cons m_options frame_index t ts :
  window_samples m_options frame_index (t :: ts)
  = (if bool_decide (in_frame_window m_options frame_index)
     then [(frame_index, t)] else [])
    ++ window_samples m_options (frame_index + 1) ts.
Proof.
  unfold window_samples. simpl length.
  rewrite seqZ_cons by lia.
  replace (Z.pred (Z.of_nat (S (length ts)))) with (Z.of_nat (length ts))
    by lia.
  replace (Z.succ frame_index) with (frame_index + 1) by lia.
  cbn [zip zip_with List.filter fst].
  now destruct (bool_decide (in_frame_window m_options frame_index)).
Qed.

Lemma read_frames_samples m_options width height x0 y0 x1 y1 :
  area_bound width (Options.x0 m_options) = Done x0 ->
  area_bound height (Options.y0 m_options) = Done y0 ->
  area_bound width (Options.x1 m_options) = Done x1 ->
  area_bound height (Options.y1 m_options) = Done y1 ->
  0 <= x0 < x1 -> 0 <= y0 < y1 ->
  255 * (x1 - x0) <= INT_MAX -> 255 * (y1 - y0) <= INT_MAX ->
  x1 * 3 <= INT_MAX ->
  forall frames ranges,
    Forall2 (fun f r =>
               0 <= linesize_0 f /\ y1 * linesize_0 f <= INT_MAX
               /\ 0 <= r.1 /\ r.2 <= 255
               /\ area_blue_between f x0 y0 x1 y1 r.1 r.2)
            frames ranges ->
    forall frame_index,
      0 <= frame_index ->
      frame_index + Z.of_nat (length frames) <= INT_MAX ->
      exists ts,
        Forall2 (fun r t => r.1 <= t <= r.2) ranges ts
        /\ forall self,
             read_frames m_options width height frame_index frames self
             = process_frames (window_samples m_options frame_index ts) self.
Proof.
  intros Hx0 Hy0 Hx1 Hy1 Hx Hy Hw Hh Hcol frames ranges.
  induction 1 as [|f r frames ranges (Hls & Hrow & Hlo & Hhi & Hbytes) _ IH];
    intros frame_index Hk Hfit.
  - exists []. split; [constructor|]. reflexivity.
  - simpl length in Hfit.
    destruct (area_average f x0 y0 x1 y1 r.1 r.2) as (t & Ht & Havg);
      try done.
    destruct (IH (frame_index + 1)) as (ts & Hts & Hrun); [lia|lia|].
    exists (t :: ts). split; [now constructor|].
    intros self. rewrite window_samples_cons. cbn [read_frames].
    rewrite to_int_small by (unfold INT_MAX in *; lia).
    case_bool_decide as Hin.
    + assert (Hpix : processFrame_pixels m_options f width height
                       frame_index self
                     = processFrame t frame_index self).
      { rewrite (processFrame_pixels_area _ _ _ _ _ _ _ _ _ _
                   Hx0 Hy0 Hx1 Hy1).
        destruct (in_frame_window_tests _ _ Hin) as [-> ->].
        apply bind_Done_inv in Havg as (t0 & Hloop & Hdiv).
        now rewrite Hloop, bind_Done, Hdiv, bind_Done. }
      rewrite Hpix. cbn [app process_frames].
      destruct (processFrame t frame_index self); [|reflexivity..].
      rewrite bind_Done. apply Hrun.
    + rewrite (outside_frame_window _ _ _ _ _ _ _ _ _ _
                 Hx0 Hy0 Hx1 Hy1 Hin), bind_Done.
      apply Hrun.
Qed.

End FrameLoopFacts.

(** The frame loop of [run] delivers the samples of the frames inside the
    window, each with the index it has in the video (counted from 0, the
    frames before [start_frame] included) and a luminance between the
    darkest and the brightest blue byte of its area: decoding the frames
    is [process_frames] on these samples. *)
Theorem frames_become_samples {D : Util.Double}
    (m_options : Options.Options) (width height x0 y0 x1 y1 : Z)
    (frames : list AVFrame) (ranges : list (Z * Z)) :
  area_bound width (Options.x0 m_options) = Done x0 ->
  area_bound height (Options.y0 m_options) = Done y0 ->
  area_bound width (Options.x1 m_options) = Done x1 ->
  area_bound height (Options.y1 m_options) = Done y1 ->
  0 <= x0 < x1 -> 0 <= y0 < y1 ->
  255 * (x1 - x0) <= INT_MAX -> 255 * (y1 - y0) <= INT_MAX ->
  x1 * 3 <= INT_MAX ->
  Z.of_nat (length frames) <= INT_MAX ->
  Forall2 (fun f r =>
             0 <= linesize_0 f /\ y1 * linesize_0 f <= INT_MAX
             /\ 0 <= r.1 /\ r.2 <= 255
             /\ area_blue_between f x0 y0 x1 y1 r.1 r.2)
          frames ranges ->
  exists ts,
    Forall2 (fun r t => r.1 <= t <= r.2) ranges ts
    /\ forall self,
         read_frames m_options width height 0 frames self
         = process_frames (window_samples m_options 0 ts) self.
Proof.
  intros Hx0 Hy0 Hx1 Hy1 Hx Hy Hw Hh Hcol Hlen Hframes.
  eapply read_frames_samples; eauto; lia.
Qed.

Lemma frames_become_samples_witness :
  exists ts,
    Forall2 (fun r t => r.1 <= t <= r.2)
            [(100, 130); (100, 130); (100, 130)] ts
    /\ forall self,
         read_frames middle_columns 4 2 0
                     [small_frame; small_frame; small_frame] self
         = process_frames (window_samples middle_columns 0 ts) self.
Proof.
  apply (frames_become_samples middle_columns 4 2 1 0 3 2).
  1-4: vm_compute; reflexivity.
  1-6: unfold INT_MAX; simpl; lia.
  repeat constructor; try (unfold INT_MAX; simpl; lia);
    intros y x Hy Hx;
    assert (Hyc : y = 0 \/ y = 1) by lia;
    assert (Hxc : x = 1 \/ x = 2) by lia;
    destruct Hyc as [-> | ->], Hxc as [-> | ->];
    eexists; (split; [reflexivity|simpl; lia]).
Defined.

(** ** The frames before the window *)

Section WindowFacts.

Context {D : Util.Double}.

Lemma window_samples_inv m_options ts :
  Forall (fun t => 0 <= t <= 255) ts ->
  forall frame_index,
    0 <= frame_index ->
    frame_index + Z.of_nat (length ts) <= 2 ^ 32 ->
    StronglySorted Z.lt (fst <$> window_samples m_options frame_index ts)
    /\ Forall (fun s => frame_index <= s.1 < 2 ^ 32
                        /\ 0 <= s.2 <= 255
                        /\ in_frame_window m_options s.1)
              (window_samples m_options frame_index ts)
    /\ (length (window_samples m_options frame_index ts) <= length ts)%nat.
Proof.
  induction 1 as [|t ts Ht _ IH]; intros frame_index Hk Hfit.
  - split; [constructor|]. split; [constructor|]. simpl. lia.
  - simpl length in Hfit. rewrite window_samples_cons.
    destruct (IH (frame_index + 1)) as (Hsorted & Hall & Hlen); [lia|lia|].
    assert (Hall' : Forall (fun s => frame_index <= s.1 < 2 ^ 32
                                     /\ 0 <= s.2 <= 255
                                     /\ in_frame_window m_options s.1)
                           (window_samples m_options (frame_index + 1) ts)).
    { eapply Forall_impl; [exact Hall|]. intros s (? & ? & ?).
      split; [lia|done]. }
    case_bool_decide as Hin; cbn [app].
    + split; [|split].
      * rewrite fmap_cons. constructor; [exact Hsorted|].
        apply Forall_fmap. eapply Forall_impl; [exact Hall|].
        intros s (? & _). simpl. lia.
      * constructor; [|exact Hall']. simpl. split; [lia|done].
      * simpl. lia.
    + split; [exact Hsorted|]. split; [exact Hall'|]. simpl. lia.
Qed.

Lemma window_samples_first_signal m_options ts :
  Forall (fun t => 0 <= t <= 255) ts ->
  255 * Z.of_nat (length ts) < 2 ^ 32 ->
  window_samples m_options 0 ts <> [] ->
  exists self d rest,
    segmented (window_samples m_options 0 ts) = Done self
    /\ m_signals self = {| state := 0; duration := d |} :: rest
    /\ 0 <= d
    /\ Options.start_frame m_options <= d.
Proof.
  intros Hts Hlen Hne.
  destruct (window_samples_inv m_options ts Hts 0) as (Hsorted & Hall & Hle);
    [lia|lia|].
  assert (Hwf : well_formed_samples (window_samples m_options 0 ts)).
  { split; [exact Hsorted|]. eapply Forall_impl; [exact Hall|].
    intros s (? & ? & _). split; lia. }
  pose proof (luminance_total_bounds _ (well_formed_samples_brightness _ Hwf))
    as Hb.
  destruct (first_signal_exists (window_samples m_options 0 ts))
    as (self & before & s & after & rest & Hseg & Heq & _ & _ & Hsig);
    [exact Hne|exact Hwf|lia|lia|].
  exists self, (s.1), rest. split; [exact Hseg|]. split; [exact Hsig|].
  rewrite Heq in Hall. apply Forall_app in Hall as [_ Hall].
  apply Forall_inv in Hall as (Hs & _ & [Hstart _]). lia.
Qed.

End WindowFacts.

(** The frames before [start_frame] are not sampled, but they count: the
    first Signal is a break that lasts from frame 0 of the video to the
    first lit frame inside the window, so its duration is at least
    [start_frame]. *)
Theorem skipped_frames_count_as_break {D : Util.Double}
    (m_options : Options.Options) (ts : list Z) :
  Forall (fun t => 0 <= t <= 255) ts ->
  255 * Z.of_nat (length ts) < 2 ^ 32 ->
  window_samples m_options 0 ts <> [] ->
  exists self d rest,
    segmented (window_samples m_options 0 ts) = Done self
    /\ m_signals self = {| state := 0; duration := d |} :: rest
    /\ 0 <= d
    /\ Options.start_frame m_options <= d.
Proof. apply window_samples_first_signal. Qed.

Lemma skipped_frames_count_as_break_witness :
  exists self d rest,
    segmented (window_samples middle_columns 0 [200; 200; 10; 200; 10])
    = Done self
    /\ m_signals self = {| state := 0; duration := d |} :: rest
    /\ 0 <= d
    /\ 2 <= d.
Proof.
  apply (skipped_frames_count_as_break middle_columns
           [200; 200; 10; 200; 10]).
  - repeat constructor; lia.
  - simpl. lia.
  - vm_compute. discriminate.
Defined.
